(** * physics_gnn: graph convolutions, adjacency kernels and statistics

    A shallow embedding of the numeric core of the repository:

    - [Tensor]        list-based tensors and the torch operations the code uses
                      ([cat], [split], [chunk], [bmm], [expand], ...);
    - [GraphConv]     script/model/graphconv.py ([GraphOpConv], [ResGOpConv]);
    - [GnnGraphConv]  script/model/gnn/graphconv.py (the second variant);
    - [IEEE32]        the scalars of a [torch.FloatTensor] (binary32);
    - [Kernels]       script/model/kernels/general.py, over the reals;
    - [GraphNormR]    [GraphNorm] of script/model/graphconv.py, over the reals;
    - [Stats]         Atlas_nyu/statistics.py.

    Tensors are nested lists indexed in the order of the torch dimensions: a
    tensor of shape (batch, rows, cols) is a list of [batch] matrices, each a
    list of [rows] rows of [cols] scalars. *)

From Stdlib Require Import List Arith Lia Bool ZArith.
From Stdlib Require Import Reals Lra Psatz.
From Stdlib Require Import Floats.SpecFloat.
From Stdlib Require Strings.String.
Import ListNotations.

Set Implicit Arguments.

(** ** Scalars

    The convolution code only adds, multiplies, rectifies and compares
    scalars.  [neq] is the elementwise [!=] of torch: [neq x x] holds exactly
    for the values the code calls NaN. *)

Class Scalar (T : Type) : Type := {
  zero : T;
  add : T -> T -> T;
  mul : T -> T -> T;
  relu : T -> T;
  neq : T -> T -> bool
}.

(** ** Results of fallible code *)

Inductive error : Type :=
| ValueError
| AssertionError
| NameError
| AttributeError
| TypeError
| RuntimeError.

Inductive result (A : Type) : Type :=
| Ok (a : A)
| Raise (e : error).

Arguments Ok {A} a.
Arguments Raise {A} e.

Definition bind {A B : Type} (r : result A) (k : A -> result B) : result B :=
  match r with
  | Ok a => k a
  | Raise e => Raise e
  end.

Notation "x <- c ;; k" := (bind c (fun x => k))
  (at level 61, c at next level, right associativity).

(** ** Tensors as nested lists *)

Module Tensor.

Definition matrix (A : Type) : Type := list (list A).
Definition tensor3 (A : Type) : Type := list (matrix A).

Fixpoint zip_with {A B C : Type} (f : A -> B -> C) (l1 : list A) (l2 : list B) : list C :=
  match l1, l2 with
  | a :: l1', b :: l2' => f a b :: zip_with f l1' l2'
  | _, _ => []
  end.

Section Shape.
Context {A : Type}.

Definition size0 (t : tensor3 A) : nat := length t.
Definition size1 (t : tensor3 A) : nat := length (hd [] t).
Definition size2 (t : tensor3 A) : nat := length (hd [] (hd [] t)).

Definition has_shape2 (r c : nat) (m : matrix A) : Prop :=
  length m = r /\ Forall (fun row => length row = c) m.

Definition has_shape3 (b r c : nat) (t : tensor3 A) : Prop :=
  length t = b /\ Forall (has_shape2 r c) t.

(** [torch.cat(ts, 1)] and [torch.cat(ts, 2)] on a tuple of 3-d tensors. *)
Definition cat_dim1 (ts : list (tensor3 A)) : tensor3 A :=
  match ts with
  | [] => []
  | t :: rest => fold_left (zip_with (@app (list A))) rest t
  end.

Definition cat_dim2 (ts : list (tensor3 A)) : tensor3 A :=
  match ts with
  | [] => []
  | t :: rest => fold_left (zip_with (zip_with (@app A))) rest t
  end.

(** [torch.cat(ts, 0)]. *)
Definition cat_dim0 {B : Type} (ts : list (list B)) : list B := concat ts.

(** [l[s : s + n]]. *)
Definition slice {B : Type} (s n : nat) (l : list B) : list B := firstn n (skipn s l).

Definition div_ceil (a b : nat) : nat := (a + b - 1) / b.

(** [t.split(n, 2)]: pieces of [n] columns, the last one shorter when the
    size is no multiple of [n]. *)
Definition split_dim2 (n : nat) (t : tensor3 A) : list (tensor3 A) :=
  map (fun k => map (map (slice (k * n) n)) t) (seq 0 (div_ceil (size2 t) n)).

(** [t.split(n, 1)]: pieces of [n] rows. *)
Definition split_dim1 (n : nat) (t : tensor3 A) : list (tensor3 A) :=
  map (fun k => map (slice (k * n) n) t) (seq 0 (div_ceil (size1 t) n)).

(** [torch.chunk(l, chunks, 0)]: [chunks] pieces of equal size along the
    first dimension. *)
Definition chunk_dim0 {B : Type} (chunks : nat) (l : list B) : list (list B) :=
  let n := div_ceil (length l) chunks in
  map (fun k => slice (k * n) n l) (seq 0 (div_ceil (length l) n)).

(** [m.unsqueeze(2).expand(b, r, n)] for a matrix [m] of shape (b, r). *)
Definition expand_last (n : nat) (m : matrix A) : tensor3 A :=
  map (map (fun x => repeat x n)) m.

(** [t.expand(b, r, c)] for [t] of shape (1, r, c). *)
Definition expand_first (b : nat) (t : tensor3 A) : tensor3 A :=
  repeat (hd [] t) b.

(** [t.expand(b, r, n)] for [t] of shape (1, r, 1). *)
Definition expand_first_last (b n : nat) (t : tensor3 A) : tensor3 A :=
  repeat (map (fun row => match row with x :: _ => repeat x n | [] => [] end) (hd [] t)) b.

Definition tmap (f : A -> A) (t : tensor3 A) : tensor3 A := map (map (map f)) t.

Definition tcount (p : A -> bool) (t : tensor3 A) : nat :=
  list_sum (map (fun m => list_sum (map (fun row => length (filter p row)) m)) t).
End Shape.

Section Algebra.
Context {T : Type} `{Scalar T}.

Definition dot (a b : list T) : T := fold_left add (zip_with mul a b) zero.

Definition col (j : nat) (m : matrix T) : list T := map (fun row => nth j row zero) m.

Definition ncols (m : matrix T) : nat := length (hd [] m).

(** Matrix product, entry (i, j) the dot product of row i and column j. *)
Definition matmul (a b : matrix T) : matrix T :=
  map (fun row => map (fun j => dot row (col j b)) (seq 0 (ncols b))) a.

(** [torch.bmm]. *)
Definition bmm (a b : tensor3 T) : tensor3 T := zip_with matmul a b.

(** Elementwise sum of two tensors of one shape. *)
Definition tadd (a b : tensor3 T) : tensor3 T := zip_with (zip_with (zip_with add)) a b.

(** [(t != t).sum()]: the number of NaN entries. *)
Definition count_nan (t : tensor3 T) : nat := tcount (fun x => neq x x) t.
End Algebra.

End Tensor.

Import Tensor.

(** ** script/model/graphconv.py *)

Module GraphConv.

Section Conv.
Context {T : Type} `{Scalar T}.

(** [utils.tensor.mean_with_padding] is imported by the module and its
    source is not part of it: the masked mean is a parameter of the
    development.  It maps an embedding of shape (batch, fm, nodes), the
    number of valid nodes of every graph and the padding mask to the
    per-graph means, of shape (batch, fm). *)
Variable Mask : Type.
Variable mean_with_padding : tensor3 T -> list nat -> Mask -> matrix T.

(** [GraphOpConv]: [weight] has shape (1, out_fm, in_fm * (nb_op + 2)) and
    [bias] has shape (1, out_fm, 1). *)
Record GraphOpConv : Type := {
  weight : tensor3 T;
  bias : tensor3 T
}.

Definition _resized_params (g : GraphOpConv) (batch_size nb_node : nat)
  : tensor3 T * tensor3 T :=
  (expand_first batch_size (weight g), expand_first_last batch_size nb_node (bias g)).

(** The masked mean broadcast to every node:
    [mean_with_padding(...).unsqueeze(2).expand_as(emb_in)]. *)
Definition average (emb_in : tensor3 T) (batch_nb_nodes : list nat) (adj_mask : Mask)
  : tensor3 T :=
  expand_last (size2 emb_in) (mean_with_padding emb_in batch_nb_nodes adj_mask).

(** [GraphOpConv.forward], as the value of a call the code accepts: on
    shapes that [torch.cat] or [torch.bmm] reject the code raises, and the
    facts below are stated on the shapes they accept. *)
Definition GraphOpConv_forward (g : GraphOpConv) (ops : option (tensor3 T)) (emb_in : tensor3 T)
    (batch_nb_nodes : list nat) (adj_mask : Mask) : tensor3 T :=
  let batch_size := size0 emb_in in
  let nb_node := size2 emb_in in
  let avg := average emb_in batch_nb_nodes adj_mask in
  let spread :=
    match ops with
    | None => [emb_in; avg]
    | Some ops => [emb_in; avg] ++ split_dim2 nb_node (bmm emb_in ops)
    end in
  let spread := cat_dim1 spread in
  let '(weight, bias) := _resized_params g batch_size nb_node in
  let emb_out := bmm weight spread in
  tadd emb_out bias.

(** The learned affine transform on its own: the batched product with the
    weight plus the bias, both broadcast to [batch_size] graphs of
    [nb_node] nodes. *)
Definition affine (g : GraphOpConv) (batch_size nb_node : nat) (x : tensor3 T) : tensor3 T :=
  tadd (bmm (expand_first batch_size (weight g)) x)
       (expand_first_last batch_size nb_node (bias g)).

(** [join_operators]: every operator applied to [adj], the results side by
    side along the last dimension; [None] for an empty list. *)
Definition join_operators (adj : tensor3 T) (operator_iter : list (tensor3 T -> tensor3 T))
  : option (tensor3 T) :=
  match operator_iter with
  | [] => None
  | _ => Some (cat_dim2 (map (fun operator => operator adj) operator_iter))
  end.

(** [nn.init.uniform] draws the initial parameters; [uniform] is the stream
    of its samples and the constructors thread the index of the next one. *)
Variable uniform : nat -> T.

Definition fill (rows cols : nat) (seed : nat) : matrix T :=
  map (fun i => map (fun j => uniform (seed + i * cols + j)) (seq 0 cols)) (seq 0 rows).

(** [GraphOpConv.__init__]. *)
Definition GraphOpConv_init (in_fm out_fm nb_op : nat) (seed : nat) : GraphOpConv * nat :=
  let k := in_fm * (nb_op + 2) in
  let weight := [fill out_fm k seed] in
  let seed := seed + out_fm * k in
  let bias := [fill out_fm 1 seed] in
  ({| weight := weight; bias := bias |}, seed + out_fm).

(** Modelled from the spec: [utils.tensor.check_for_nan], whose source is not
    part of the module.  The spec has it abort when the tensor holds a NaN
    (a NaN check after each sub-convolution that asserts); the test for a
    NaN is the one [ResGOpConv.forward] itself uses, [(t != t).sum() > 0]. *)
Definition check_for_nan (t : tensor3 T) : result unit :=
  if 0 <? count_nan t then Raise AssertionError else Ok tt.

(** [ResGOpConv]: RGC(x) = [ GC(x) || relu(GC(x)) ]. *)
Record ResGOpConv : Type := {
  gconv_lin : GraphOpConv;
  gconv_nlin : GraphOpConv
}.

(** [ResGOpConv.__init__]; feature-map counts are sizes, hence naturals. *)
Definition ResGOpConv_init (in_fm out_fm nb_op : nat) (seed : nat) : result (ResGOpConv * nat) :=
  if negb (out_fm mod 2 =? 0) then Raise ValueError
  else
    let half_out_fm := out_fm / 2 in
    let '(lin, seed) := GraphOpConv_init in_fm half_out_fm nb_op seed in
    let '(nlin, seed) := GraphOpConv_init in_fm half_out_fm nb_op seed in
    Ok ({| gconv_lin := lin; gconv_nlin := nlin |}, seed).

Definition ResGOpConv_forward (r : ResGOpConv) (ops : option (tensor3 T)) (emb_in : tensor3 T)
    (batch_nb_nodes : list nat) (adj_mask : Mask) : result (tensor3 T) :=
  let linear := GraphOpConv_forward (gconv_lin r) ops emb_in batch_nb_nodes adj_mask in
  _ <- check_for_nan linear ;;
  let nlinear := GraphOpConv_forward (gconv_nlin r) ops emb_in batch_nb_nodes adj_mask in
  _ <- check_for_nan nlinear ;;
  let nlinear := tmap relu nlinear in
  let emb_out := cat_dim1 [linear; nlinear] in
  if 0 <? count_nan emb_out then Raise AssertionError else Ok emb_out.
End Conv.

End GraphConv.

(** ** script/model/gnn/graphconv.py

    The second variant keeps the feature maps in the last dimension: an
    embedding has shape (batch, nodes, fm) and the operators multiply it from
    the left. *)

Module GnnGraphConv.

Section Conv.
Context {T : Type} `{Scalar T}.
Variable Mask : Type.

(** [nn.Linear(in, out)]: [lin_weight] has shape (out, in), [lin_bias] has
    [out] entries, and the layer maps a row x to x.W^T + b. *)
Record Linear : Type := {
  lin_weight : matrix T;
  lin_bias : list T
}.

Definition Linear_forward (l : Linear) (x : tensor3 T) : tensor3 T :=
  map (map (fun row => zip_with add (map (fun w => dot row w) (lin_weight l)) (lin_bias l))) x.

Variable uniform : nat -> T.

Definition Linear_init (in_features out_features : nat) (seed : nat) : Linear * nat :=
  let w := map (fun i => map (fun j => uniform (seed + i * in_features + j)) (seq 0 in_features))
               (seq 0 out_features) in
  let seed := seed + out_features * in_features in
  ({| lin_weight := w; lin_bias := map (fun i => uniform (seed + i)) (seq 0 out_features) |},
   seed + out_features).

Record GraphOpConv : Type := {
  fc : Linear
}.

Definition GraphOpConv_init (in_fm out_fm nb_op : nat) (seed : nat) : GraphOpConv * nat :=
  let '(l, seed) := Linear_init (in_fm * (nb_op + 1)) out_fm seed in
  ({| fc := l |}, seed).

Definition join_operators (adj : tensor3 T) (operator_iter : list (tensor3 T -> tensor3 T))
  : option (tensor3 T) :=
  match operator_iter with
  | [] => None
  | _ => Some (cat_dim1 (map (fun operator => operator adj) operator_iter))
  end.

(** [GraphOpConv.forward].  The assignment of [avg] sits inside a string
    literal, so the name is bound nowhere: the branch for [ops is None]
    raises when it builds the tuple [(emb_in, avg,)]. *)
Definition GraphOpConv_forward (g : GraphOpConv) (ops : option (tensor3 T)) (emb_in : tensor3 T)
    (batch_nb_nodes : list nat) (adj_mask : Mask) : result (tensor3 T) :=
  let nb_node := size1 emb_in in
  spread <- match ops with
            | None => Raise NameError
            | Some ops => Ok ([emb_in] ++ split_dim1 nb_node (bmm ops emb_in))
            end ;;
  let spread := cat_dim2 spread in
  Ok (Linear_forward (fc g) spread).

(** Modelled from the spec: [utils.tensor.check_for_nan], as in the first
    variant: it aborts when the tensor holds a NaN. *)
Definition check_for_nan (t : tensor3 T) : result unit :=
  if 0 <? count_nan t then Raise AssertionError else Ok tt.

Record ResGOpConv : Type := {
  gconv_lin : GraphOpConv;
  gconv_nlin : GraphOpConv
}.

Definition ResGOpConv_init (in_fm out_fm nb_op : nat) (seed : nat) : result (ResGOpConv * nat) :=
  if negb (out_fm mod 2 =? 0) then Raise ValueError
  else
    let half_out_fm := out_fm / 2 in
    let '(lin, seed) := GraphOpConv_init in_fm half_out_fm nb_op seed in
    let '(nlin, seed) := GraphOpConv_init in_fm half_out_fm nb_op seed in
    Ok ({| gconv_lin := lin; gconv_nlin := nlin |}, seed).

Definition ResGOpConv_forward (r : ResGOpConv) (ops : option (tensor3 T)) (emb_in : tensor3 T)
    (batch_nb_nodes : list nat) (adj_mask : Mask) : result (tensor3 T) :=
  linear <- GraphOpConv_forward (gconv_lin r) ops emb_in batch_nb_nodes adj_mask ;;
  _ <- check_for_nan linear ;;
  nlinear <- GraphOpConv_forward (gconv_nlin r) ops emb_in batch_nb_nodes adj_mask ;;
  _ <- check_for_nan nlinear ;;
  let nlinear := tmap relu nlinear in
  let emb_out := cat_dim2 [linear; nlinear] in
  if 0 <? count_nan emb_out then Raise AssertionError else Ok emb_out.
End Conv.

End GnnGraphConv.

(** ** The scalars of a [torch.FloatTensor]: IEEE 754 binary32 *)

Module IEEE32.

Definition prec : Z := 24.
Definition emax : Z := 128.

Definition float32 : Type := spec_float.

Definition f32_zero : float32 := S754_zero false.
Definition f32_add : float32 -> float32 -> float32 := SFadd prec emax.
Definition f32_sub : float32 -> float32 -> float32 := SFsub prec emax.
Definition f32_mul : float32 -> float32 -> float32 := SFmul prec emax.
Definition f32_div : float32 -> float32 -> float32 := SFdiv prec emax.
Definition f32_of_Z (z : Z) : float32 := binary_normalize prec emax z 0 false.

(** [x != y]: false on equal numbers, true as soon as one side is a NaN. *)
Definition f32_neq (x y : float32) : bool := negb (SFeqb x y).

(** [relu] is [threshold(x, 0, 0)]: 0 where [x <= 0], [x] elsewhere. *)
Definition f32_relu (x : float32) : float32 :=
  if SFleb x f32_zero then f32_zero else x.

Definition is_nan (x : float32) : bool :=
  match x with
  | S754_nan => true
  | _ => false
  end.

#[export] Instance f32_scalar : Scalar float32 := {
  zero := f32_zero;
  add := f32_add;
  mul := f32_mul;
  relu := f32_relu;
  neq := f32_neq
}.

(** Modelled from the spec: [utils.tensor.mean_with_padding], whose source is
    not part of the module.  The spec has it equal, for every graph i, the
    mean over only the first [batch_nb_nodes[i]] nodes of graph i; the mask
    marks the same nodes and is not consulted. *)
Definition mean_with_padding (emb : tensor3 float32) (batch_nb_nodes : list nat)
    (adj_mask : tensor3 float32) : matrix float32 :=
  zip_with (fun m n =>
              map (fun row => f32_div (fold_left f32_add (firstn n row) f32_zero)
                                      (f32_of_Z (Z.of_nat n))) m)
           emb batch_nb_nodes.

End IEEE32.

(** ** Concrete inputs, in binary32 *)

Module Samples.
Import IEEE32.

Definition fz (z : Z) : float32 := f32_of_Z z.

(** One graph, one feature map, four nodes. *)
Definition emb4 : tensor3 float32 := [[[fz 1; fz 2; fz 3; fz 6]]].

(** One graph, two feature maps, two nodes. *)
Definition emb2 : tensor3 float32 := [[[fz 1; fz 2]; [fz 3; fz 5]]].

(** Two operators on two nodes, side by side: the identity and a swap. *)
Definition ops2 : tensor3 float32 := [[[fz 1; fz 0; fz 0; fz 1]; [fz 0; fz 1; fz 1; fz 0]]].

(** One graph, one feature map, two nodes, and the swap of the two nodes. *)
Definition emb_row : tensor3 float32 := [[[fz 1; fz 2]]].
Definition ops2_single : tensor3 float32 := [[[fz 0; fz 1]; [fz 1; fz 0]]].

Definition no_mask : tensor3 float32 := [].

(** A convolution of one input feature map without operators:
    out = 2 * x + 3 * mean + 1. *)
Definition conv_id_avg : GraphConv.GraphOpConv (T := float32) :=
  {| GraphConv.weight := [[[fz 2; fz 3]]]; GraphConv.bias := [[[fz 1]]] |}.

(** A convolution of two input feature maps and two operators, one output
    feature map. *)
Definition conv2 : GraphConv.GraphOpConv (T := float32) :=
  {| GraphConv.weight := [[[fz 1; fz 1; fz 1; fz 1; fz 1; fz 1; fz 1; fz 1]]];
     GraphConv.bias := [[[fz 0]]] |}.

(** A residual convolution with out_fm = 2 on one input feature map and one
    operator; both halves compute 2 * x - 2 * mean + 0 * (x . op). *)
Definition conv_diff : GraphConv.GraphOpConv (T := float32) :=
  {| GraphConv.weight := [[[fz 2; fz (-2); fz 0]]]; GraphConv.bias := [[[fz 0]]] |}.

Definition res_diff : GraphConv.ResGOpConv (T := float32) :=
  {| GraphConv.gconv_lin := conv_diff; GraphConv.gconv_nlin := conv_diff |}.

(** One graph with a single node whose feature is 2^127, a finite binary32
    number, and the identity operator on it. *)
Definition emb_big : tensor3 float32 := [[[fz (2 ^ 127)]]].
Definition ops_one : tensor3 float32 := [[[fz 1]]].

(** The second variant: one graph, two nodes, one feature map; the swap as
    sole operator; linear layers of two inputs. *)
Definition gnn_emb : tensor3 float32 := [[[fz 1]; [fz 2]]].
Definition gnn_ops : tensor3 float32 := [[[fz 0; fz 1]; [fz 1; fz 0]]].

Definition gnn_conv : GnnGraphConv.GraphOpConv (T := float32) :=
  {| GnnGraphConv.fc :=
       {| GnnGraphConv.lin_weight := [[fz 1; fz 10]]; GnnGraphConv.lin_bias := [fz 100] |} |}.

Definition gnn_res : GnnGraphConv.ResGOpConv (T := float32) :=
  {| GnnGraphConv.gconv_lin := gnn_conv; GnnGraphConv.gconv_nlin := gnn_conv |}.

End Samples.

(** ** Real scalars

    The kernels, the graph normalisation and the statistics are stated over
    the real numbers: [exp], [sqrt] and division are the mathematical ones. *)

Module RealScalar.
Local Open Scope R_scope.

Definition Rneq (x y : R) : bool := if Req_dec_T x y then false else true.

#[export] Instance R_scalar : Scalar R := {
  zero := 0;
  add := Rplus;
  mul := Rmult;
  relu := Rmax 0;
  neq := Rneq
}.

Definition Rsum (l : list R) : R := fold_right Rplus 0 l.

Definition sigmoid (x : R) : R := 1 / (1 + exp (- x)).

(** Transposition of a matrix with [c] columns. *)
Definition transpose (c : nat) (m : matrix R) : matrix R :=
  map (fun j => col j m) (seq 0 c).

End RealScalar.

(** ** script/model/kernels/general.py *)

Module Kernels.
Import RealScalar.
Local Open Scope R_scope.

Section Kernel.

(** [utils.tensor.sqdist_] and [utils.tensor.sqdist_periodic_] are imported
    by the module and their source is not part of it: the two distance
    functions are parameters.  They map an embedding of shape
    (batch, fm, nodes) to the squared distances between its nodes, of shape
    (batch, nodes, nodes). *)
Variable sqdist_ : tensor3 R -> tensor3 R.
Variable sqdist_periodic_ : tensor3 R -> tensor3 R.

(** *** Reshaping helpers of torch, on matrices *)

(** [m.repeat(1, n)] and [m.repeat(n, 1)]. *)
Definition repeat_cols (n : nat) (m : matrix R) : matrix R :=
  map (fun row => concat (repeat row n)) m.

Definition repeat_rows (n : nat) (m : matrix R) : matrix R := concat (repeat m n).

(** [t.resize(rows, cols)] reads the entries in row-major order. *)
Definition resize_flat (rows cols : nat) (l : list R) : matrix R :=
  map (fun k => slice (k * cols) cols l) (seq 0 rows).

Definition resize (rows cols : nat) (m : matrix R) : matrix R :=
  resize_flat rows cols (concat m).

Definition cartesian (tensor : matrix R) : matrix R :=
  let n_repeats := length tensor in
  let dim2 := ncols tensor in
  let a := repeat_cols n_repeats tensor in
  let a := resize (n_repeats * n_repeats) dim2 a in
  let b := repeat_rows n_repeats tensor in
  zip_with (@app R) a b.

Definition _get_adj (tensor : matrix R) (adj_size : nat) : matrix R :=
  resize adj_size adj_size tensor.

Definition make_samples (emb_in : matrix R) (sum_weights : list R) (idx : nat) : matrix R :=
  let nb_node := length emb_in in
  let sample := cartesian emb_in in
  let weights := repeat_rows nb_node (resize_flat nb_node 1 sum_weights) in
  zip_with (@app R) sample weights.

(** [get_summed_weights]: the column sums of [adj_in] without the self edges,
    divided by the number of other nodes. *)
Definition get_summed_weights (adj_in : matrix R) : list R :=
  let sum_weights := map (fun j => Rsum (col j adj_in)) (seq 0 (ncols adj_in)) in
  let self_edges := map (fun i => nth i (nth i adj_in []) 0) (seq 0 (length adj_in)) in
  let sum_weights := zip_with Rminus sum_weights self_edges in
  map (fun w => w / IZR (Z.of_nat (length adj_in) - 1)) sum_weights.

(** *** The abstract kernel class

    [params] holds what the subclass adds; [adj_matrix] is the attribute
    [_save_adj] creates, absent until then. *)
Record Adj_Kernel (P : Type) : Type := {
  params : P;
  layerwise : bool;
  adj_matrix : option (tensor3 R)
}.

Definition Adj_Kernel_init {P : Type} (p : P) (layerwise : bool) : Adj_Kernel P :=
  {| params := p; layerwise := layerwise; adj_matrix := None |}.

Definition _save_adj_no_save {P : Type} (k : Adj_Kernel P) (adj_in : tensor3 R) : Adj_Kernel P := k.

Definition _save_adj {P : Type} (k : Adj_Kernel P) (adj_in : tensor3 R) : Adj_Kernel P :=
  {| params := params k; layerwise := layerwise k; adj_matrix := Some adj_in |}.

(** [self.save_adj], bound by the constructor to one of the two. *)
Definition save_adj {P : Type} (k : Adj_Kernel P) (adj_in : tensor3 R) : Adj_Kernel P :=
  if layerwise k then _save_adj_no_save k adj_in else _save_adj k adj_in.

(** [self.update]: the constructor rebinds it to [self.forward] for a
    layerwise kernel; otherwise it reads [self.adj_matrix], which raises when
    nothing was saved. *)
Definition update {P Args : Type}
    (forward : Adj_Kernel P -> Args -> result (tensor3 R * Adj_Kernel P))
    (k : Adj_Kernel P) (args : Args) : result (tensor3 R * Adj_Kernel P) :=
  if layerwise k then forward k args
  else match adj_matrix k with
       | Some adj => Ok (adj, k)
       | None => Raise AttributeError
       end.

(** *** Gaussian kernels *)

Definition gaussian (sqdist : tensor3 R) (sigma : R) : tensor3 R :=
  let var := sigma ^ 2 in
  tmap (fun d => exp ((- d) * var)) sqdist.

(** Modelled from the spec: [ts.make_tensor_as] and [ts.variable_as], whose
    source is not part of the module, build the mask [_delete_diag] fills
    with.  The spec has [diag=False] zero the diagonal: the mask marks the
    entries (i, i). *)
Definition make_diag_mask (nb_node : nat) : list (list bool) :=
  map (fun i => map (fun j => Nat.eqb i j) (seq 0 nb_node)) (seq 0 nb_node).

(** [adj.masked_fill_(mask, v)] on one matrix. *)
Definition masked_fill (adj : matrix R) (mask : list (list bool)) (v : R) : matrix R :=
  zip_with (zip_with (fun x (m : bool) => if m then v else x)) adj mask.

Definition _delete_diag (adj : tensor3 R) : tensor3 R :=
  let nb_node := size1 adj in
  let diag_mask := make_diag_mask nb_node in
  map (fun m => masked_fill m diag_mask 0) adj.

(** [nn.Softmax()] on a 2-d input normalises every row. *)
Definition softmax_row (row : list R) : list R :=
  map (fun x => exp x / Rsum (map exp row)) row.

Definition Softmax (m : matrix R) : matrix R := map softmax_row m.

Definition _softmax (dij : tensor3 R) (_softmax_fct : matrix R -> matrix R) : tensor3 R :=
  let batch := size0 dij in
  let dij := cat_dim0 dij in
  let dij := _softmax_fct dij in
  chunk_dim0 batch dij.

(** [Gaussian] and its subclass [GaussianSoftmax], which overrides
    [_apply_norm]. *)
Inductive gaussian_class : Type :=
| PlainGaussian
| SoftmaxGaussian.

Record GaussianParams : Type := {
  cls : gaussian_class;
  sigma : R;
  diag : bool;
  periodic : bool
}.

Definition Gaussian := Adj_Kernel GaussianParams.

(** [Gaussian.__init__]; [sigma0] is the draw [rand(1) * 0.02 + 0.99]. *)
Definition Gaussian_init (sigma0 : R) (diag norm periodic layerwise : bool) : Gaussian :=
  Adj_Kernel_init {| cls := PlainGaussian; sigma := sigma0; diag := diag; periodic := periodic |}
                  layerwise.

Definition GaussianSoftmax_init (sigma0 : R) (diag norm periodic layerwise : bool) : Gaussian :=
  Adj_Kernel_init {| cls := SoftmaxGaussian; sigma := sigma0; diag := diag; periodic := periodic |}
                  layerwise.

Definition sqdist (k : Gaussian) : tensor3 R -> tensor3 R :=
  if periodic (params k) then sqdist_periodic_ else sqdist_.

Definition _apply_norm (k : Gaussian) (adj : tensor3 R) : tensor3 R :=
  match cls (params k) with
  | PlainGaussian => adj
  | SoftmaxGaussian => _softmax adj Softmax
  end.

Definition Gaussian_forward (k : Gaussian) (emb : tensor3 R)
  : result (tensor3 R * Gaussian) :=
  let adj := gaussian (sqdist k emb) (sigma (params k)) in
  let adj := if negb (diag (params k)) then _delete_diag adj else adj in
  let adj := _apply_norm k adj in
  let k := save_adj k adj in
  Ok (adj, k).

(** [Gaussian_prev.__init__] calls [super(Gaussian, self).__init__()] on an
    object that is no [Gaussian]: the class cannot be instantiated. *)
Definition Gaussian_prev_init (fmaps : nat) (sigma0 : R) : result (Adj_Kernel R) :=
  Raise TypeError.

(** *** DirectedGaussian *)

Record DirectedGaussianParams : Type := {
  gauss_ker : Gaussian;
  theta : R
}.

Definition DirectedGaussian := Adj_Kernel DirectedGaussianParams.

(** [DirectedGaussian.__init__]: [sigma] reaches [Gaussian] as a positional
    argument, which [Adj_Kernel.__init__] drops; the inner kernel draws its
    own [sigma0].  Neither constructor is given [layerwise]. *)
Definition DirectedGaussian_init (fmaps : nat) (theta0 sigma sigma0 : R) : DirectedGaussian :=
  Adj_Kernel_init
    {| gauss_ker := Gaussian_init sigma0 true false false false; theta := theta0 |}
    false.

(** [t.expand(batch, n, n)] on a 2-d tensor adds a leading dimension: the
    tensor must have [n] columns and [n] rows, or a single row. *)
Definition expand_new_dim (batch nb_node : nat) (m : matrix R) : result (tensor3 R) :=
  if negb (ncols m =? nb_node)%nat then Raise RuntimeError
  else if (length m =? nb_node)%nat then Ok (repeat m batch)
  else if (length m =? 1)%nat then Ok (repeat (repeat (hd [] m) nb_node) batch)
  else Raise RuntimeError.

(** The redistribution term of [DirectedGaussian.forward]: the loop over the
    batch reads [adj_in[0]] at every turn. *)
Definition redistributed_weights (adj_in emb_in : tensor3 R) : result (tensor3 R) :=
  let batch := size0 emb_in in
  let nb_node := size2 emb_in in
  let sum_weights := map (fun i : nat => get_summed_weights (nth 0%nat adj_in [])) (seq 0 batch) in
  sum_weights <- expand_new_dim batch nb_node sum_weights ;;
  Ok (map (transpose nb_node) sum_weights).

Definition DirectedGaussian_forward (k : DirectedGaussian)
    (args : tensor3 R * tensor3 R * nat) : result (tensor3 R * DirectedGaussian) :=
  let '(adj_in, emb_in, idx) := args in
  sum_weights <- redistributed_weights adj_in emb_in ;;
  res <- Gaussian_forward (gauss_ker (params k)) adj_in ;;
  let '(adj, g) := res in
  let th := theta (params k) in
  let adj := zip_with (zip_with (zip_with (fun a s => th * a + (1 - th) * s))) adj sum_weights in
  Ok (adj, {| params := {| gauss_ker := g; theta := th |};
             layerwise := layerwise k; adj_matrix := adj_matrix k |}).

(** *** MPNNdirected *)

Record MPNNParams : Type := {
  fmaps : nat;
  v : list R;
  b : R
}.

Definition MPNNdirected := Adj_Kernel MPNNParams.

(** [MPNNdirected.__init__(fmaps)]; [v0] and [b0] are the draws of
    [torch.rand]. *)
Definition MPNNdirected_init (fmaps : nat) (v0 : list R) (b0 : R) : MPNNdirected :=
  Adj_Kernel_init {| fmaps := fmaps; v := v0; b := b0 |} false.

(** [t.std()]: the unbiased standard deviation of all entries. *)
Definition std (t : tensor3 R) : R :=
  let xs := concat (concat t) in
  let mean := Rsum xs / INR (length xs) in
  sqrt (Rsum (map (fun x => (x - mean) ^ 2) xs) / INR (length xs - 1)).

(** [adj[:, :, i] = vals]. *)
Definition set_column (i : nat) (vals : matrix R) (adj : tensor3 R) : tensor3 R :=
  zip_with (fun m col_i =>
              zip_with (fun row x => firstn i row ++ x :: skipn (S i) row) m col_i)
           adj vals.

(** [MPNNdirected.forward], over the reals: the division by [emb_in.std()]
    and the sigmoid are the mathematical ones, so the values stand for the
    code's only where binary32 neither rounds to 0 or 1 nor divides by a zero
    deviation; the facts on this kernel are on what it stores, not on its
    values. *)
Definition MPNNdirected_forward (k : MPNNdirected) (args : tensor3 R * tensor3 R)
  : result (tensor3 R * MPNNdirected) :=
  let '(adj_in, emb_in) := args in
  let batch := size0 emb_in in
  let fmap := size1 emb_in in
  let nb_node := size2 emb_in in
  let coord := tmap (fun x => x / std emb_in) emb_in in
  (* coord + coord_t, of shape (batch, fmap, nb_node, nb_node) *)
  let coord4 := map (map (fun row => map (fun xi => map (fun xj => xi + xj) row) row)) coord in
  let v_exp := repeat [v (params k)] batch in
  let adj0 := repeat (repeat (repeat 0 nb_node) nb_node) batch in
  let adj := fold_left
               (fun adj i =>
                  let to_mult := map (map (map (fun r => nth i r 0))) coord4 in
                  let vals := map (fun m => map (fun x => x + b (params k)) (hd [] m))
                                  (bmm v_exp to_mult) in
                  set_column i vals adj)
               (seq 0 nb_node) adj0 in
  let adj := tmap sigmoid adj in
  Ok (adj, k).

(** *** MLPdirected *)

Record Linear : Type := {
  lin_weight : matrix R;
  lin_bias : list R
}.

Definition Linear_forward (l : Linear) (x : matrix R) : matrix R :=
  map (fun row => zip_with Rplus (map (fun w => dot row w) (lin_weight l)) (lin_bias l)) x.

Record MLPParams : Type := {
  mlp_fmaps : nat;
  layer1 : Linear;
  layer2 : Linear
}.

Definition MLPdirected := Adj_Kernel MLPParams.

(** [MLPdirected.__init__]; [l1] and [l2] are the freshly drawn layers. *)
Definition MLPdirected_init (fmaps nb_hidden : nat) (l1 l2 : Linear) (layerwise : bool)
  : MLPdirected :=
  Adj_Kernel_init {| mlp_fmaps := fmaps; layer1 := l1; layer2 := l2 |} layerwise.

Definition MLPdirected_forward (k : MLPdirected) (args : tensor3 R * tensor3 R * nat)
  : result (tensor3 R * MLPdirected) :=
  let '(adj_in, emb_in, layer) := args in
  let batch := size0 emb_in in
  let nb_node := size2 emb_in in
  let adj_list :=
    map (fun i =>
           let sum_weights := get_summed_weights (nth i adj_in []) in
           let sample := make_samples (transpose nb_node (nth i emb_in [])) sum_weights layer in
           let edge_out := Linear_forward (layer1 (params k)) sample in
           let edge_out := map (map (Rmax 0)) edge_out in
           let edge_out := Linear_forward (layer2 (params k)) edge_out in
           _get_adj edge_out nb_node)
        (seq 0 batch) in
  let adj := tmap sigmoid adj_list in
  let k := save_adj k adj in
  Ok (adj, k).

(** *** Identity *)

Definition Identity := Adj_Kernel unit.

(** [Identity.__init__] accepts any arguments and passes nothing on to the base
    class: a [layerwise] given by the caller is dropped. *)
Definition Identity_init (layerwise : bool) : Identity := Adj_Kernel_init tt false.

Definition eye (n : nat) : matrix R :=
  map (fun i => map (fun j => if Nat.eqb i j then 1 else 0) (seq 0 n)) (seq 0 n).

Definition Identity_forward (k : Identity) (args : tensor3 R * tensor3 R)
  : result (tensor3 R * Identity) :=
  let '(adj_in, emb_in) := args in
  let batches := size0 emb_in in
  let nodes := size2 emb_in in
  let identity := repeat (eye nodes) batches in
  let k := save_adj k identity in
  Ok (identity, k).
End Kernel.

End Kernels.

(** ** [GraphNorm] of script/model/graphconv.py, over the reals *)

Module GraphNormR.
Import RealScalar.
Local Open Scope R_scope.

(** [alpha] and [beta] have shape (1, nb_fm, 1). *)
Record GraphNorm : Type := {
  epsilon : R;
  alpha : tensor3 R;
  beta : tensor3 R
}.

(** [GraphNorm.__init__]; [uniform] is the stream of the initial draws. *)
Definition GraphNorm_init (nb_fm : nat) (epsilon : R) (uniform : nat -> R) : GraphNorm :=
  {| epsilon := epsilon;
     alpha := [map (fun i => [uniform i]) (seq 0 nb_fm)];
     beta := [map (fun i => [uniform (nb_fm + i)%nat]) (seq 0 nb_fm)] |}.

(** [t.mean(2)]: the last dimension is reduced away, a tensor of shape
    (batch, fm, nodes) gives a matrix of shape (batch, fm). *)
Definition mean (row : list R) : R := Rsum row / INR (length row).

Definition mean_dim2 (t : tensor3 R) : matrix R := map (map mean) t.

Definition tzip (f : R -> R -> R) (a b : tensor3 R) : tensor3 R :=
  zip_with (zip_with (zip_with f)) a b.

(** [t.expand_as(emb)] for [emb] of shape (b, f, n).  A dimension of [t]
    must have the size of the dimension it is aligned with, or size 1, which
    is repeated; otherwise the call raises. *)
Definition fits (size target : nat) : bool := (size =? target)%nat || (size =? 1)%nat.

Definition pick (size target i : nat) : nat := if (size =? target)%nat then i else 0%nat.

Definition expand_as3 (t : tensor3 R) (b f n : nat) : result (tensor3 R) :=
  let d0 := size0 t in
  let d1 := size1 t in
  let d2 := size2 t in
  if fits d0 b && fits d1 f && fits d2 n then
    Ok (map (fun i =>
               map (fun j =>
                      map (fun k => nth (pick d2 n k)
                                        (nth (pick d1 f j) (nth (pick d0 b i) t []) []) 0)
                          (seq 0 n))
                   (seq 0 f))
            (seq 0 b))
  else Raise RuntimeError.

(** On a matrix the dimensions are aligned from the last one: the rows of
    [m] go with the feature maps of [emb], its columns with the nodes, and
    the new dimension comes in front. *)
Definition expand_as2 (m : matrix R) (b f n : nat) : result (tensor3 R) :=
  expand_as3 [m] b f n.

(** The embedding before the rescaling by [alpha] and [beta]: [emb_norm] of
    [GraphNorm.forward]. *)
Definition normalized (epsilon : R) (emb : tensor3 R) : result (tensor3 R) :=
  let b := size0 emb in
  let f := size1 emb in
  let n := size2 emb in
  let avg := mean_dim2 emb in
  avg <- expand_as2 avg b f n ;;
  let emb_centered := tzip Rminus emb avg in
  let var := mean_dim2 (tmap (fun x => x ^ 2) emb_centered) in
  let var_protect := map (map (fun v => if Req_dec_T v 0 then 1 else 0)) var in
  let deviation := map (map sqrt) (zip_with (zip_with Rplus) var var_protect) in
  deviation <- expand_as2 deviation b f n ;;
  Ok (tzip Rdiv emb_centered (tmap (fun s => s + epsilon) deviation)).

Definition GraphNorm_forward (g : GraphNorm) (emb : tensor3 R) : result (tensor3 R) :=
  emb_norm <- normalized (epsilon g) emb ;;
  let b := size0 emb_norm in
  let f := size1 emb_norm in
  let n := size2 emb_norm in
  alpha <- expand_as3 (alpha g) b f n ;;
  let emb_renorm := tzip Rmult emb_norm alpha in
  beta <- expand_as3 (beta g) b f n ;;
  let emb_recenter := tzip Rplus emb_renorm beta in
  Ok emb_recenter.

(** The population variance of the entries of a row. *)
Definition variance (row : list R) : R :=
  mean (map (fun x => (x - mean row) ^ 2) row).

(** The normalisation of one row by its own mean and variance. *)
Definition normalized_row (epsilon : R) (row : list R) : list R :=
  let var := variance row in
  let var_protect := if Req_dec_T var 0 then 1 else 0 in
  map (fun x => (x - mean row) / (sqrt (var + var_protect) + epsilon)) row.

(** A layer with the default [epsilon] of 1e-5, and embeddings: one graph,
    one feature map and two nodes; one graph, two feature maps and two
    nodes. *)
Definition sample_norm : GraphNorm :=
  {| epsilon := 1 / 100000; alpha := [[[1]]]; beta := [[[0]]] |}.

Definition emb_unit : tensor3 R := [[[1; -1]]].
Definition emb_tiny : tensor3 R := [[[1 / 100000; - (1 / 100000)]]].
Definition emb_two_maps : tensor3 R := [[[1; -1]; [10; 30]]].

End GraphNormR.

(** ** Concrete kernels and inputs, over the reals *)

Module KernelSamples.
Import RealScalar Kernels.
Local Open Scope R_scope.

(** Modelled from the spec: [utils.tensor.sqdist_], whose source is not part
    of the module.  The spec has the Gaussian kernel compute the pairwise
    squared Euclidean distance between node embeddings: entry (i, j) of
    graph g sums, over the feature maps, the squared difference of the
    features of nodes i and j. *)
Definition sqdist_euclid (emb : tensor3 R) : tensor3 R :=
  map (fun m =>
         map (fun i =>
                map (fun j => Rsum (map (fun row => (nth i row 0 - nth j row 0) ^ 2) m))
                    (seq 0 (ncols m)))
             (seq 0 (ncols m)))
      emb.

(** One graph, one feature map, two nodes at distance 1. *)
Definition emb_pair : tensor3 R := [[[0; 1]]].

(** Two graphs on two nodes with different edge weights. *)
Definition adj_two_graphs : tensor3 R := [[[0; 1]; [1; 0]]; [[0; 3]; [3; 0]]].
Definition emb_two_graphs : tensor3 R := [[[0; 1]]; [[0; 1]]].

End KernelSamples.

(** ** Atlas_nyu/statistics.py *)

Module Stats.
Import RealScalar.
Local Open Scope R_scope.
Import String.

Inductive mode : Type :=
| train
| test.

Definition mode_eqb (a b : mode) : bool :=
  match a, b with
  | train, train | test, test => true
  | _, _ => false
  end.

(** The tracked statistics, in the order of [self.stats]. *)
Inductive stat : Type :=
| loss
| kernel
| avg0
| avg1
| std0
| std1.

Definition stats : list stat := [loss; kernel; avg0; avg1; std0; std1].

Definition stat_name (s : stat) : string :=
  match s with
  | loss => "loss"%string
  | kernel => "kernel"%string
  | avg0 => "avg0"%string
  | avg1 => "avg1"%string
  | std0 => "std0"%string
  | std1 => "std1"%string
  end.

(** [self.buffer[mode]]: a dictionary on the statistics and the two label
    counts. *)
Record buffer : Type := {
  b_loss : R;
  b_kernel : R;
  b_avg0 : R;
  b_avg1 : R;
  b_std0 : R;
  b_std1 : R;
  nb_ones : R;
  nb_zero : R
}.

Definition get_stat (b : buffer) (s : stat) : R :=
  match s with
  | loss => b_loss b
  | kernel => b_kernel b
  | avg0 => b_avg0 b
  | avg1 => b_avg1 b
  | std0 => b_std0 b
  | std1 => b_std1 b
  end.

Definition empty_buffer : buffer :=
  {| b_loss := 0; b_kernel := 0; b_avg0 := 0; b_avg1 := 0; b_std0 := 0; b_std1 := 0;
     nb_ones := 0; nb_zero := 0 |}.

(** A line handed to [print_]: the number of events seen, the statistics
    shown with their values, and the stream given as [stdout]. *)
Record line : Type := {
  events : Z;
  shown : list (string * R);
  sink : option string
}.

(** The files of [param.statdir], each with the values written to it so far
    (a value is written followed by a comma). *)
Definition files_t : Type := list (string * list R).

Record Statistics : Type := {
  nbdisplay : Z;
  nbstep : Z;
  stdout : option string;
  nb_batch_in_buffer : mode -> Z;
  buffers : mode -> buffer;
  steploss : R;
  steps : Z;
  nb_events_seen : mode -> Z;
  files : files_t;
  printed : list line
}.

Definition set_mode {A : Type} (f : mode -> A) (m : mode) (a : A) : mode -> A :=
  fun m' => if mode_eqb m m' then a else f m'.

(** [open(path, 'a').write('{},'.format(value))]: the value goes to the end
    of the file, which is created when it does not exist. *)
Fixpoint append_file (fs : files_t) (filename : string) (value : R) : files_t :=
  match fs with
  | [] => [(filename, [value])]
  | (name, content) :: rest =>
      if String.eqb name filename then (name, content ++ [value]) :: rest
      else (name, content) :: append_file rest filename value
  end.

Definition write_stat (st : Statistics) (statname : string) (value : R) : Statistics :=
  {| nbdisplay := nbdisplay st; nbstep := nbstep st; stdout := stdout st;
     nb_batch_in_buffer := nb_batch_in_buffer st; buffers := buffers st;
     steploss := steploss st; steps := steps st; nb_events_seen := nb_events_seen st;
     files := append_file (files st) (String.append statname ".csv"%string) value;
     printed := printed st |}.

Definition print_ (st : Statistics) (l : line) : Statistics :=
  {| nbdisplay := nbdisplay st; nbstep := nbstep st; stdout := stdout st;
     nb_batch_in_buffer := nb_batch_in_buffer st; buffers := buffers st;
     steploss := steploss st; steps := steps st; nb_events_seen := nb_events_seen st;
     files := files st;
     printed := printed st ++ [l] |}.

Definition set_buffer (st : Statistics) (m : mode) (b : buffer) : Statistics :=
  {| nbdisplay := nbdisplay st; nbstep := nbstep st; stdout := stdout st;
     nb_batch_in_buffer := nb_batch_in_buffer st; buffers := set_mode (buffers st) m b;
     steploss := steploss st; steps := steps st; nb_events_seen := nb_events_seen st;
     files := files st; printed := printed st |}.

Definition set_nb_batch (st : Statistics) (m : mode) (n : Z) : Statistics :=
  {| nbdisplay := nbdisplay st; nbstep := nbstep st; stdout := stdout st;
     nb_batch_in_buffer := set_mode (nb_batch_in_buffer st) m n; buffers := buffers st;
     steploss := steploss st; steps := steps st; nb_events_seen := nb_events_seen st;
     files := files st; printed := printed st |}.

(** [_init_buffer]. *)
Definition _init_buffer (st : Statistics) (m : mode) : Statistics :=
  set_buffer (set_nb_batch st m 0%Z) m empty_buffer.

(** The normalisation [_update_buffer] performs in place on a full buffer. *)
Definition normalize_buffer (nbdisplay : Z) (b : buffer) : buffer :=
  let loss' := b_loss b / IZR nbdisplay in
  let kernel' := b_kernel b / IZR nbdisplay in
  let '(avg1', std1') :=
    if Rlt_dec 0 (nb_ones b) then
      let avg := b_avg1 b / nb_ones b in
      let var1 := b_std1 b / nb_ones b in
      let var1 := var1 - avg ^ 2 in
      let var1 := Rmax 0 var1 in
      (avg, sqrt var1)
    else (b_avg1 b, b_std1 b) in
  let '(avg0', std0') :=
    if Rlt_dec 0 (nb_zero b) then
      let avg := b_avg0 b / nb_zero b in
      let var0 := b_std0 b / nb_zero b in
      let var0 := var0 - avg ^ 2 in
      let var0 := Rmax 0 var0 in
      (avg, sqrt var0)
    else (b_avg0 b, b_std0 b) in
  {| b_loss := loss'; b_kernel := kernel'; b_avg0 := avg0'; b_avg1 := avg1';
     b_std0 := std0'; b_std1 := std1'; nb_ones := nb_ones b; nb_zero := nb_zero b |}.

(** ['loss' not in stat]. *)
Definition without_loss (s : stat) : bool :=
  match String.index 0 "loss"%string (stat_name s) with
  | Some _ => false
  | None => true
  end.

Definition summary (st : Statistics) (m : mode) (which : list stat) (to : option string) : line :=
  {| events := nb_events_seen st m;
     shown := map (fun s => (stat_name s, get_stat (buffers st m) s)) which;
     sink := to |}.

Definition _update_buffer (st : Statistics) (m : mode) : Statistics :=
  let st := set_nb_batch st m (nb_batch_in_buffer st m + 1)%Z in
  if (nbdisplay st <=? nb_batch_in_buffer st m)%Z then
    let st := set_buffer st m (normalize_buffer (nbdisplay st) (buffers st m)) in
    let st :=
      match m with
      | train =>
          let st := fold_left (fun st s => write_stat st (stat_name s) (get_stat (buffers st m) s))
                              stats st in
          print_ st (summary st m stats (stdout st))
      | test =>
          print_ st (summary st m (filter without_loss stats) None)
      end in
    _init_buffer st m
  else st.

(** [_init_files]: [makefile_if_not_there] leaves an existing file alone. *)
Definition makefile_if_not_there (fs : files_t) (filename : string) : files_t :=
  if existsb (fun f => String.eqb (fst f) filename) fs then fs else fs ++ [(filename, [])].

Definition _init_files (fs : files_t) : files_t :=
  fold_left (fun fs s => makefile_if_not_there fs (String.append (stat_name s) ".csv"%string))
            stats (makefile_if_not_there fs "loss_step.csv"%string).

(** [Statistics.__init__], without the description. *)
Definition Statistics_init (nbdisplay nbstep : Z) (stdout : option string) (fs : files_t)
  : Statistics :=
  {| nbdisplay := nbdisplay; nbstep := nbstep; stdout := stdout;
     nb_batch_in_buffer := fun _ => 0%Z; buffers := fun _ => empty_buffer;
     steploss := 0; steps := 0%Z; nb_events_seen := fun _ => 0%Z;
     files := _init_files fs; printed := [] |}.

(** [update]; [output] and [labels] are the flattened tensors. *)
Definition update (st : Statistics) (m : mode) (output labels : list R)
    (loss_step kernel_std : R) : Statistics :=
  let st :=
    {| nbdisplay := nbdisplay st; nbstep := nbstep st; stdout := stdout st;
       nb_batch_in_buffer := nb_batch_in_buffer st; buffers := buffers st;
       steploss := steploss st; steps := steps st;
       nb_events_seen := set_mode (nb_events_seen st) m
                           (nb_events_seen st m + Z.of_nat (List.length labels))%Z;
       files := files st; printed := printed st |} in
  let st :=
    match m with
    | train =>
        let steploss' := steploss st + loss_step in
        let steps' := (steps st + 1)%Z in
        let flush := (nbstep st <=? steps')%Z in
        let st := if flush then write_stat st "loss_step"%string (loss_step / IZR (nbstep st)) else st in
        {| nbdisplay := nbdisplay st; nbstep := nbstep st; stdout := stdout st;
           nb_batch_in_buffer := nb_batch_in_buffer st; buffers := buffers st;
           steploss := if flush then 0 else steploss';
           steps := if flush then 0%Z else steps';
           nb_events_seen := nb_events_seen st;
           files := files st; printed := printed st |}
    | test => st
    end in
  let nb_ones' := Rsum labels in
  let output_ones := zip_with Rmult output labels in
  let output_avg_ones := Rsum output_ones in
  let output_sqr_ones := Rsum (map (fun x => x ^ 2) output_ones) in
  let nb_zero' := Rsum (map (fun l => 1 - l) labels) in
  let output_zero := zip_with Rmult output (map (fun l => 1 - l) labels) in
  let output_avg_zero := Rsum output_zero in
  let output_sqr_zero := Rsum (map (fun x => x ^ 2) output_zero) in
  let b := buffers st m in
  let b :=
    {| b_loss := b_loss b + loss_step;
       b_kernel := b_kernel b + kernel_std;
       b_avg0 := b_avg0 b + output_avg_zero;
       b_avg1 := b_avg1 b + output_avg_ones;
       b_std0 := b_std0 b + output_sqr_zero;
       b_std1 := b_std1 b + output_sqr_ones;
       nb_ones := nb_ones b + nb_ones';
       nb_zero := nb_zero b + nb_zero' |} in
  _update_buffer (set_buffer st m b) m.

(** A statistics object showing every batch, one batch into a test. *)
Definition sample_stats : Statistics := Statistics_init 1 1 None [].

End Stats.

(** ** Atlas_nyu/statistics.py: [flush] *)

Module StatsFlush.
Import RealScalar Stats.
Local Open Scope R_scope.

(** [self.buffer[mode][stat] = value] *)
Definition set_stat (b : buffer) (s : stat) (value : R) : buffer :=
  match s with
  | loss =>
      {| b_loss := value; b_kernel := b_kernel b; b_avg0 := b_avg0 b; b_avg1 := b_avg1 b;
         b_std0 := b_std0 b; b_std1 := b_std1 b; nb_ones := nb_ones b; nb_zero := nb_zero b |}
  | kernel =>
      {| b_loss := b_loss b; b_kernel := value; b_avg0 := b_avg0 b; b_avg1 := b_avg1 b;
         b_std0 := b_std0 b; b_std1 := b_std1 b; nb_ones := nb_ones b; nb_zero := nb_zero b |}
  | avg0 =>
      {| b_loss := b_loss b; b_kernel := b_kernel b; b_avg0 := value; b_avg1 := b_avg1 b;
         b_std0 := b_std0 b; b_std1 := b_std1 b; nb_ones := nb_ones b; nb_zero := nb_zero b |}
  | avg1 =>
      {| b_loss := b_loss b; b_kernel := b_kernel b; b_avg0 := b_avg0 b; b_avg1 := value;
         b_std0 := b_std0 b; b_std1 := b_std1 b; nb_ones := nb_ones b; nb_zero := nb_zero b |}
  | std0 =>
      {| b_loss := b_loss b; b_kernel := b_kernel b; b_avg0 := b_avg0 b; b_avg1 := b_avg1 b;
         b_std0 := value; b_std1 := b_std1 b; nb_ones := nb_ones b; nb_zero := nb_zero b |}
  | std1 =>
      {| b_loss := b_loss b; b_kernel := b_kernel b; b_avg0 := b_avg0 b; b_avg1 := b_avg1 b;
         b_std0 := b_std0 b; b_std1 := value; nb_ones := nb_ones b; nb_zero := nb_zero b |}
  end.

(** [flush]: the step loss, the statistics of the test buffer and the count
    of test events are set to zero. *)
Definition flush (st : Statistics) : Statistics :=
  {| nbdisplay := nbdisplay st; nbstep := nbstep st; stdout := stdout st;
     nb_batch_in_buffer := nb_batch_in_buffer st;
     buffers := set_mode (buffers st) test
                  (fold_left (fun b s => set_stat b s 0) stats (buffers st test));
     steploss := 0; steps := steps st;
     nb_events_seen := set_mode (nb_events_seen st) test 0%Z;
     files := files st; printed := printed st |}.

End StatsFlush.

(** ** script/model/gnn/graphconv.py: the simple convolution and the choice
    of a convolution *)

Module GnnLayers.
Import String.

(** What a constructor call comes to: the object, one of the built-in
    errors, or a plain [Exception]. *)
Inductive outcome (A : Type) : Type :=
| Returned (a : A)
| Raised (e : error)
| RaisedException.

Arguments Returned {A} a.
Arguments Raised {A} e.
Arguments RaisedException {A}.

Section Layers.
Context {T : Type} `{Scalar T}.

(** [nn.Tanh] and the stream of initial draws. *)
Variable tanh : T -> T.
Variable uniform : nat -> T.

Record Simple : Type := {
  fc : GnnGraphConv.Linear (T := T)
}.

Definition Simple_init (fmap_in fmap_out : nat) (seed : nat) : Simple * nat :=
  let '(l, seed) := GnnGraphConv.Linear_init uniform fmap_in fmap_out seed in
  ({| fc := l |}, seed).

(** [Simple.forward]; subscripting [None] raises. *)
Definition Simple_forward (s : Simple) (ops : option (tensor3 T)) (emb_in : tensor3 T)
  : result (tensor3 T) :=
  let nb_node := size1 emb_in in
  let h := GnnGraphConv.Linear_forward (fc s) emb_in in
  let h := tmap relu h in
  match ops with
  | None => Raise TypeError
  | Some ops =>
      let A := map (skipn nb_node) ops in
      Ok (tmap tanh (bmm A h))
  end.

Inductive conv_layer : Type :=
| ConvResGOpConv (c : GnnGraphConv.ResGOpConv (T := T))
| ConvSimple (c : Simple).

(** [get_convolution_layer]; [conv_type] is [param.args.conv_type]. *)
Definition get_convolution_layer (conv_type : string) (fmap_in fmap_out nb_operators : nat)
    (seed : nat) : outcome (conv_layer * nat) :=
  if String.eqb conv_type "ResGNN" then
    match GnnGraphConv.ResGOpConv_init uniform fmap_in fmap_out nb_operators seed with
    | Ok (c, seed) => Returned (ConvResGOpConv c, seed)
    | Raise e => Raised e
    end
  else if String.eqb conv_type "Simple" then
    let '(c, seed) := Simple_init fmap_in fmap_out seed in
    Returned (ConvSimple c, seed)
  else RaisedException.
End Layers.

End GnnLayers.

(** ** Facts on the tensor operations *)

Module TensorFacts.

Section Lists.
Context {A : Type}.

Lemma zip_with_length {B C : Type} (f : A -> B -> C) (l1 : list A) (l2 : list B) :
  length (zip_with f l1 l2) = Nat.min (length l1) (length l2).
Proof.
  revert l2; induction l1 as [|a l1 IH]; intros [|b l2]; simpl; auto.
Qed.

Lemma zip_with_map_l {B C D : Type} (f : B -> C -> D) (g : A -> B) (l1 : list A) (l2 : list C) :
  zip_with f (map g l1) l2 = zip_with (fun a c => f (g a) c) l1 l2.
Proof.
  revert l2; induction l1 as [|a l1 IH]; intros [|b l2]; simpl; auto.
  now rewrite IH.
Qed.

Lemma zip_with_map_r {B C D : Type} (f : A -> C -> D) (g : B -> C) (l1 : list A) (l2 : list B) :
  zip_with f l1 (map g l2) = zip_with (fun a b => f a (g b)) l1 l2.
Proof.
  revert l2; induction l1 as [|a l1 IH]; intros [|b l2]; simpl; auto.
  now rewrite IH.
Qed.

Lemma map_zip_with {B C D : Type} (g : C -> D) (f : A -> B -> C) (l1 : list A) (l2 : list B) :
  map g (zip_with f l1 l2) = zip_with (fun a b => g (f a b)) l1 l2.
Proof.
  revert l2; induction l1 as [|a l1 IH]; intros [|b l2]; simpl; auto.
  now rewrite IH.
Qed.

Lemma zip_with_ext_Forall {B C : Type} (f g : A -> B -> C) (P : B -> Prop)
    (l1 : list A) (l2 : list B) :
  (forall a b, P b -> f a b = g a b) -> Forall P l2 ->
  zip_with f l1 l2 = zip_with g l1 l2.
Proof.
  intros Hfg HP; revert l1; induction HP as [|b l2 Hb _ IH]; intros [|a l1]; simpl; auto.
  now rewrite Hfg, IH.
Qed.

Lemma Forall_zip_with {B C : Type} (P : C -> Prop) (f : A -> B -> C)
    (l1 : list A) (l2 : list B) :
  (forall a b, In a l1 -> In b l2 -> P (f a b)) -> Forall P (zip_with f l1 l2).
Proof.
  revert l2; induction l1 as [|a l1 IH]; intros [|b l2] Hf; simpl; constructor.
  - apply Hf; now left.
  - apply IH. intros a' b' Ha Hb. apply Hf; now right.
Qed.

Lemma slice_map {B : Type} (f : A -> B) (s n : nat) (l : list A) :
  slice s n (map f l) = map f (slice s n l).
Proof.
  unfold slice. now rewrite skipn_map, firstn_map.
Qed.

Lemma firstn_seq_le (n a m : nat) : n <= m -> firstn n (seq a m) = seq a n.
Proof.
  revert a m; induction n as [|n IH]; intros a [|m] Hle; simpl; auto; try lia.
  f_equal. apply IH. lia.
Qed.

Lemma slice_seq (s n c : nat) : s + n <= c -> slice s n (seq 0 c) = seq s n.
Proof.
  intros Hle. unfold slice.
  rewrite skipn_seq. simpl. apply firstn_seq_le. lia.
Qed.

Lemma seq_offset (s n : nat) : seq s n = map (fun j => s + j) (seq 0 n).
Proof.
  revert s; induction n as [|n IH]; intros s; simpl; auto.
  f_equal; [lia|].
  rewrite IH, <- seq_shift, map_map.
  apply map_ext. intros j. lia.
Qed.

Lemma nth_slice (s n j : nat) (l : list A) (d : A) :
  j < n -> nth j (slice s n l) d = nth (s + j) l d.
Proof.
  intros Hj. unfold slice.
  rewrite nth_firstn.
  destruct (Nat.ltb_spec j n); [|lia].
  now rewrite nth_skipn.
Qed.

Lemma slice_length (s n : nat) (l : list A) :
  s + n <= length l -> length (slice s n l) = n.
Proof.
  intros Hle. unfold slice. rewrite length_firstn, length_skipn. lia.
Qed.

Lemma div_ceil_mul (n k : nat) : 0 < n -> div_ceil (n * k) n = k.
Proof.
  intros Hn. unfold div_ceil.
  destruct k as [|k].
  - rewrite Nat.mul_0_r. simpl. apply Nat.div_small. lia.
  - replace (n * S k + n - 1) with ((n - 1) + S k * n) by nia.
    rewrite Nat.div_add by lia. rewrite Nat.div_small by lia. lia.
Qed.
End Lists.

Section Products.
Context {T : Type} `{Scalar T}.

Lemma col_slice (s n j : nat) (m : matrix T) :
  j < n -> col j (map (slice s n) m) = col (s + j) m.
Proof.
  intros Hj. unfold col. rewrite map_map.
  apply map_ext. intros row. now apply nth_slice.
Qed.

Lemma ncols_slice (s n : nat) (m : matrix T) :
  s + n <= ncols m -> ncols (map (slice s n) m) = n.
Proof.
  unfold ncols. destruct m as [|row m]; simpl; intros Hle.
  - lia.
  - now apply slice_length.
Qed.

(** A block of columns of a product is the product with that block. *)
Lemma matmul_slice (s n : nat) (a b : matrix T) :
  s + n <= ncols b ->
  map (slice s n) (matmul a b) = matmul a (map (slice s n) b).
Proof.
  intros Hle. unfold matmul. rewrite map_map.
  apply map_ext. intros row.
  rewrite slice_map, slice_seq by exact Hle.
  rewrite ncols_slice by exact Hle.
  rewrite (seq_offset s n), map_map.
  apply map_ext_in. intros j Hj. apply in_seq in Hj.
  rewrite col_slice by lia. reflexivity.
Qed.

Lemma bmm_slice (s n : nat) (a b : tensor3 T) :
  Forall (fun m => s + n <= ncols m) b ->
  map (map (slice s n)) (bmm a b) = bmm a (map (map (slice s n)) b).
Proof.
  intros Hb. unfold bmm.
  rewrite map_zip_with, zip_with_map_r.
  apply zip_with_ext_Forall with (P := fun m => s + n <= ncols m); [|exact Hb].
  intros x m Hm. now apply matmul_slice.
Qed.

Lemma size2_bmm (a b : tensor3 T) :
  0 < size0 a -> 0 < size1 a -> 0 < size0 b -> size2 (bmm a b) = size2 b.
Proof.
  unfold size0, size1, size2, bmm.
  destruct a as [|[|row a0] a]; simpl; try lia.
  destruct b as [|m b]; simpl; try lia.
  intros _ _ _. now rewrite length_map, length_seq.
Qed.

(** Splitting a product into blocks of [n] columns gives the products with
    the blocks of the right-hand side. *)
Lemma split_bmm (n k : nat) (a b : tensor3 T) :
  0 < n -> 0 < size0 a -> 0 < size1 a -> 0 < size0 b ->
  Forall (fun m => ncols m = n * k) b ->
  split_dim2 n (bmm a b) = map (bmm a) (split_dim2 n b).
Proof.
  intros Hn Ha0 Ha1 Hb0 Hb. unfold split_dim2.
  rewrite size2_bmm by assumption.
  rewrite map_map.
  assert (Hsz : size2 b = n * k).
  { unfold size2. destruct b as [|m b]; [simpl in Hb0; lia|].
    inversion Hb; subst. assumption. }
  rewrite Hsz, div_ceil_mul by assumption.
  apply map_ext_in. intros j Hj. apply in_seq in Hj.
  apply bmm_slice.
  eapply Forall_impl; [|exact Hb]. simpl. intros m Hm. rewrite Hm. nia.
Qed.
End Products.

End TensorFacts.

(** ** Shapes of the tensor operations *)

Module ShapeLemmas.
Import TensorFacts.
Local Unset Implicit Arguments.

Section Shapes.
Context {T : Type} `{Scalar T}.

(** The i-th of the operators stacked along the last dimension of [ops]:
    [ops[:, :, i * n : (i + 1) * n]]. *)
Definition operator (n i : nat) (ops : tensor3 T) : tensor3 T :=
  map (map (slice (i * n) n)) ops.

(** The i-th of the operators stacked along the rows of [ops]:
    [ops[:, i * n : (i + 1) * n, :]]. *)
Definition row_operator (n i : nat) (ops : tensor3 T) : tensor3 T :=
  map (slice (i * n) n) ops.

Lemma zip_with_same_length {A B C : Type} (f : A -> B -> C) (n : nat)
    (l1 : list A) (l2 : list B) :
  length l1 = n -> length l2 = n -> length (zip_with f l1 l2) = n.
Proof. intros H1 H2. rewrite zip_with_length, H1, H2. apply Nat.min_id. Qed.

Lemma Forall_slice {A : Type} (P : A -> Prop) (s n : nat) (l : list A) :
  Forall P l -> Forall P (slice s n l).
Proof.
  intros Hl. unfold slice.
  assert (Hs : Forall P (skipn s l)).
  { revert l Hl; induction s as [|s IH]; intros l Hl; [exact Hl|].
    destruct l as [|x l]; [constructor|]. simpl. apply IH. now inversion Hl. }
  revert Hs. generalize (skipn s l). clear.
  induction n as [|n IH]; intros l Hl; [constructor|].
  destruct l as [|x l]; [constructor|]. simpl.
  inversion Hl; subst. constructor; auto.
Qed.

Lemma shape3_all_sizes (b r c : nat) (t : tensor3 T) :
  0 < b -> 0 < r -> has_shape3 b r c t ->
  size0 t = b /\ size1 t = r /\ size2 t = c.
Proof.
  intros Hb Hr [Hlen Hall]. unfold tensor3, matrix in *. unfold size0, size1, size2.
  destruct t as [|m t]; simpl in *; [lia|].
  inversion Hall as [|? ? [Hm Hrows] _]; subst.
  destruct m as [|row m]; simpl in *; [lia|].
  inversion Hrows; subst. auto.
Qed.

Lemma shape2_ncols (r c : nat) (m : matrix T) :
  0 < r -> has_shape2 r c m -> ncols m = c.
Proof.
  intros Hr [Hm Hrows]. unfold tensor3, matrix in *. unfold ncols.
  destruct m as [|row m]; simpl in *; [lia|]. now inversion Hrows.
Qed.

Lemma expand_last_has_shape (b f n : nat) (m : matrix T) :
  has_shape2 b f m -> has_shape3 b f n (expand_last n m).
Proof.
  intros [Hlen Hall]. unfold tensor3, matrix in *. unfold expand_last. split; [now rewrite length_map|].
  apply Forall_map. eapply Forall_impl; [|exact Hall].
  intros row Hrow. split; [now rewrite length_map|].
  apply Forall_map, Forall_forall. intros x _. apply repeat_length.
Qed.

(** Every node of the broadcast tensor holds the entry of the matrix. *)
Lemma expand_last_entry (b f n : nat) (m : matrix T) (i j k : nat) :
  has_shape2 b f m -> i < b -> j < f -> k < n ->
  nth k (nth j (nth i (expand_last n m) []) []) zero = nth j (nth i m []) zero.
Proof.
  intros [Hlen Hall] Hi Hj Hk. unfold tensor3, matrix in *. unfold expand_last.
  change (@nil (list T)) with (map (fun x : T => repeat x n) []) at 1.
  rewrite map_nth.
  assert (Hrow : length (nth i m []) = f).
  { rewrite Forall_forall in Hall. apply Hall. apply nth_In. lia. }
  rewrite (nth_indep _ [] (repeat zero n)) by (now rewrite length_map, Hrow).
  rewrite (map_nth (fun x : T => repeat x n)).
  apply nth_repeat_lt. exact Hk.
Qed.

Lemma stack_has_shape (b r1 r2 n : nat) (a c : tensor3 T) :
  has_shape3 b r1 n a -> has_shape3 b r2 n c ->
  has_shape3 b (r1 + r2) n (zip_with (@app (list T)) a c).
Proof.
  intros [Ha Halla] [Hc Hallc]. unfold tensor3, matrix in *. split.
  - apply zip_with_same_length; assumption.
  - apply Forall_zip_with. intros x y Hx Hy.
    rewrite Forall_forall in Halla, Hallc.
    destruct (Halla x Hx) as [Hxl Hxr]. destruct (Hallc y Hy) as [Hyl Hyr].
    split; [now rewrite length_app, Hxl, Hyl|].
    apply Forall_app. split; assumption.
Qed.

Lemma cat_dim1_has_shape (b r n : nat) (rest : list (tensor3 T)) :
  forall (r0 : nat) (t : tensor3 T),
    has_shape3 b r0 n t -> Forall (has_shape3 b r n) rest ->
    has_shape3 b (r0 + r * length rest) n (cat_dim1 (t :: rest)).
Proof.
  induction rest as [|x rest IH]; intros r0 t Ht Hrest.
  - simpl. now rewrite Nat.mul_0_r, Nat.add_0_r.
  - inversion Hrest as [|? ? Hx Hrest']; subst.
    change (cat_dim1 (t :: x :: rest)) with (cat_dim1 (zip_with (@app (list T)) t x :: rest)).
    replace (r0 + r * length (x :: rest)) with (r0 + r + r * length rest)
      by (simpl; lia).
    apply IH; [|exact Hrest']. now apply stack_has_shape.
Qed.

Lemma bmm_has_shape (b r m n : nat) (a c : tensor3 T) :
  0 < m -> has_shape3 b r m a -> has_shape3 b m n c -> has_shape3 b r n (bmm a c).
Proof.
  intros Hm [Ha Halla] [Hc Hallc]. unfold tensor3, matrix in *. unfold bmm. split.
  - apply zip_with_same_length; assumption.
  - apply Forall_zip_with. intros x y Hx Hy.
    rewrite Forall_forall in Halla, Hallc.
    destruct (Halla x Hx) as [Hxl _].
    unfold matmul. split; [now rewrite length_map|].
    apply Forall_map, Forall_forall. intros row _.
    rewrite length_map, length_seq. apply (shape2_ncols m n y Hm (Hallc y Hy)).
Qed.

Lemma operator_has_shape (b n k i : nat) (ops : tensor3 T) :
  i < k -> has_shape3 b n (n * k) ops -> has_shape3 b n n (operator n i ops).
Proof.
  intros Hi [Hlen Hall]. unfold tensor3, matrix in *. unfold operator. split; [now rewrite length_map|].
  apply Forall_map. eapply Forall_impl; [|exact Hall].
  intros m [Hm Hrows]. split; [now rewrite length_map|].
  apply Forall_map. eapply Forall_impl; [|exact Hrows].
  intros row Hrow. apply slice_length. rewrite Hrow. nia.
Qed.

Lemma split_dim2_operators (b n k : nat) (ops : tensor3 T) :
  0 < b -> 0 < n -> has_shape3 b n (n * k) ops ->
  split_dim2 n ops = map (fun i => operator n i ops) (seq 0 k).
Proof.
  intros Hb Hn Hshape. unfold tensor3, matrix in *. unfold split_dim2.
  destruct (shape3_all_sizes b n (n * k) ops Hb Hn Hshape) as (_ & _ & ->).
  now rewrite div_ceil_mul.
Qed.

Lemma row_operator_has_shape (b n k c i : nat) (ops : tensor3 T) :
  i < k -> has_shape3 b (n * k) c ops -> has_shape3 b n c (row_operator n i ops).
Proof.
  intros Hi [Hlen Hall]. unfold tensor3, matrix in *. unfold row_operator. split; [now rewrite length_map|].
  apply Forall_map. eapply Forall_impl; [|exact Hall].
  intros m [Hm Hrows]. split.
  - apply slice_length. rewrite Hm. nia.
  - now apply Forall_slice.
Qed.

Lemma split_dim1_operators (b n k c : nat) (ops : tensor3 T) :
  0 < b -> 0 < n -> has_shape3 b (n * k) c ops ->
  split_dim1 n ops = map (fun i => row_operator n i ops) (seq 0 k).
Proof.
  intros Hb Hn [Hlen Hall]. unfold tensor3, matrix in *. unfold split_dim1.
  assert (Hs : size1 ops = n * k).
  { unfold size1. destruct ops as [|m t]; simpl in *; [lia|].
    now inversion Hall as [|? ? [Hm _] _]. }
  now rewrite Hs, div_ceil_mul.
Qed.

Lemma tadd_has_shape (b r n : nat) (a c : tensor3 T) :
  has_shape3 b r n a -> has_shape3 b r n c -> has_shape3 b r n (tadd a c).
Proof.
  intros [Ha Halla] [Hc Hallc]. unfold tensor3, matrix in *. unfold tadd. split.
  - apply zip_with_same_length; assumption.
  - apply Forall_zip_with. intros x y Hx Hy.
    rewrite Forall_forall in Halla, Hallc.
    destruct (Halla x Hx) as [Hxl Hxr]. destruct (Hallc y Hy) as [Hyl Hyr].
    split; [apply zip_with_same_length; assumption|].
    apply Forall_zip_with. intros p q Hp Hq.
    rewrite Forall_forall in Hxr, Hyr.
    apply zip_with_same_length; [exact (Hxr p Hp)|exact (Hyr q Hq)].
Qed.

Lemma tmap_has_shape3 (f : T -> T) (b r n : nat) (a : tensor3 T) :
  has_shape3 b r n a -> has_shape3 b r n (tmap f a).
Proof.
  intros [Ha Halla]. unfold tensor3, matrix in *. unfold tmap. split; [now rewrite length_map|].
  apply Forall_map. eapply Forall_impl; [|exact Halla].
  intros m [Hm Hrows]. split; [now rewrite length_map|].
  apply Forall_map. eapply Forall_impl; [|exact Hrows].
  intros row Hrow. now rewrite length_map.
Qed.

Lemma expand_first_has_shape (b r c : nat) (t : tensor3 T) :
  has_shape3 1 r c t -> has_shape3 b r c (expand_first b t).
Proof.
  intros [Hlen Hall]. unfold tensor3, matrix in *. unfold expand_first. split; [apply repeat_length|].
  apply Forall_forall. intros m Hm. apply repeat_spec in Hm. subst m.
  destruct t as [|m t]; simpl in *; [discriminate|].
  now inversion Hall.
Qed.

Lemma expand_first_last_has_shape (b r n : nat) (t : tensor3 T) :
  has_shape3 1 r 1 t -> has_shape3 b r n (expand_first_last b n t).
Proof.
  intros [Hlen Hall]. unfold tensor3, matrix in *. unfold expand_first_last. split; [apply repeat_length|].
  apply Forall_forall. intros m Hm. apply repeat_spec in Hm. subst m.
  destruct t as [|m t]; simpl in *; [discriminate|].
  inversion Hall as [|? ? [Hm Hrows] _]; subst.
  split; [now rewrite length_map|].
  apply Forall_map. eapply Forall_impl; [|exact Hrows].
  intros row Hrow. destruct row as [|x row]; simpl in *; [discriminate|].
  apply repeat_length.
Qed.

Lemma beside_has_shape (b r c1 c2 : nat) (a c : tensor3 T) :
  has_shape3 b r c1 a -> has_shape3 b r c2 c ->
  has_shape3 b r (c1 + c2) (zip_with (zip_with (@app T)) a c).
Proof.
  intros [Ha Halla] [Hc Hallc]. unfold tensor3, matrix in *. split.
  - apply zip_with_same_length; assumption.
  - apply Forall_zip_with. intros x y Hx Hy.
    rewrite Forall_forall in Halla, Hallc.
    destruct (Halla x Hx) as [Hxl Hxr]. destruct (Hallc y Hy) as [Hyl Hyr].
    split; [apply zip_with_same_length; assumption|].
    apply Forall_zip_with. intros p q Hp Hq.
    rewrite Forall_forall in Hxr, Hyr.
    now rewrite length_app, (Hxr p Hp), (Hyr q Hq).
Qed.

Lemma cat_dim2_has_shape (b r c : nat) (rest : list (tensor3 T)) :
  forall (c0 : nat) (t : tensor3 T),
    has_shape3 b r c0 t -> Forall (has_shape3 b r c) rest ->
    has_shape3 b r (c0 + c * length rest) (cat_dim2 (t :: rest)).
Proof.
  induction rest as [|x rest IH]; intros c0 t Ht Hrest.
  - simpl. now rewrite Nat.mul_0_r, Nat.add_0_r.
  - inversion Hrest as [|? ? Hx Hrest']; subst.
    change (cat_dim2 (t :: x :: rest))
      with (cat_dim2 (zip_with (zip_with (@app T)) t x :: rest)).
    replace (c0 + c * length (x :: rest)) with (c0 + c + c * length rest)
      by (simpl; lia).
    apply IH; [|exact Hrest']. now apply beside_has_shape.
Qed.

(** No entry of a concatenation is a NaN when no entry of the parts is. *)
Lemma tcount_stack (p : T -> bool) (a c : tensor3 T) :
  length a = length c ->
  tcount p (zip_with (@app (list T)) a c) = tcount p a + tcount p c.
Proof.
  unfold tcount. revert c; induction a as [|x a IH]; intros [|y c] Hlen;
    simpl in *; try discriminate; [reflexivity|].
  rewrite IH by lia. rewrite map_app, list_sum_app. lia.
Qed.
End Shapes.

End ShapeLemmas.

(** ** Facts on script/model/graphconv.py *)

Module GraphConvFacts.
Import TensorFacts GraphConv.

Section Conv.
Context {T : Type} `{Scalar T}.
Variable Mask : Type.
Variable mean_with_padding : tensor3 T -> list nat -> Mask -> matrix T.

Lemma shape3_sizes (b r c : nat) (t : tensor3 T) :
  0 < b -> 0 < r -> has_shape3 b r c t ->
  size0 t = b /\ size1 t = r /\ size2 t = c.
Proof.
  intros Hb Hr [Hlen Hall]. unfold size0, size1, size2.
  destruct t as [|m t]; simpl in *; [lia|].
  inversion Hall as [|? ? [Hm Hrows] _]; subst.
  destruct m as [|row m]; simpl in *; [lia|].
  inversion Hrows; subst. auto.
Qed.

Lemma shape3_ncols (b r c : nat) (t : tensor3 T) :
  0 < r -> has_shape3 b r c t -> Forall (fun m => ncols m = c) t.
Proof.
  intros Hr [_ Hall]. eapply Forall_impl; [|exact Hall].
  intros m [Hm Hrows]. unfold ncols.
  destruct m as [|row m]; simpl in *; [lia|].
  now inversion Hrows.
Qed.

(** *** An accepted call

    The code accepts a call when the operators come for the graphs and the
    nodes of the embedding and the weight has one column for every channel:
    [torch.cat] and [torch.bmm] raise on any other shapes. *)

Lemma forward_spread
    (g : GraphOpConv) (ops : option (tensor3 T)) (emb_in : tensor3 T)
    (batch_nb_nodes : list nat) (adj_mask : Mask) (batch in_fm nodes nb_op : nat) :
  0 < batch -> 0 < in_fm -> 0 < nodes ->
  has_shape3 batch in_fm nodes emb_in ->
  has_shape2 batch in_fm (mean_with_padding emb_in batch_nb_nodes adj_mask) ->
  match ops with
  | None => nb_op = 0
  | Some ops => 0 < nb_op /\ has_shape3 batch nodes (nodes * nb_op) ops
  end ->
  let spread :=
    cat_dim1 (emb_in
              :: expand_last nodes (mean_with_padding emb_in batch_nb_nodes adj_mask)
              :: match ops with
                 | None => []
                 | Some ops =>
                     map (fun i => bmm emb_in (ShapeLemmas.operator nodes i ops)) (seq 0 nb_op)
                 end) in
  has_shape3 batch (in_fm * (nb_op + 2)) nodes spread
  /\ GraphOpConv_forward mean_with_padding g ops emb_in batch_nb_nodes adj_mask
     = tadd (bmm (expand_first batch (weight g)) spread)
            (expand_first_last batch nodes (bias g)).
Proof.
  intros Hb Hf Hn Hemb Hmean Hops spread.
  destruct (shape3_sizes Hb Hf Hemb) as (He0 & He1 & He2).
  pose proof (@ShapeLemmas.expand_last_has_shape T batch in_fm nodes _ Hmean) as Havg.
  split.
  - unfold spread.
    replace (in_fm * (nb_op + 2)) with (in_fm + in_fm * S nb_op) by nia.
    replace (S nb_op)
      with (length (expand_last nodes (mean_with_padding emb_in batch_nb_nodes adj_mask)
                    :: match ops with
                       | None => []
                       | Some ops =>
                           map (fun i => bmm emb_in (ShapeLemmas.operator nodes i ops))
                               (seq 0 nb_op)
                       end)).
    + apply ShapeLemmas.cat_dim1_has_shape; [exact Hemb|].
      constructor; [exact Havg|].
      destruct ops as [ops|]; [|constructor].
      destruct Hops as [_ Hops].
      apply Forall_map, Forall_forall. intros i Hi. apply in_seq in Hi.
      apply (@ShapeLemmas.bmm_has_shape T _ batch in_fm nodes nodes); [exact Hn|exact Hemb|].
      apply (@ShapeLemmas.operator_has_shape T batch nodes nb_op); [lia|exact Hops].
    + destruct ops as [ops|]; simpl.
      * now rewrite length_map, length_seq.
      * now rewrite Hops.
  - unfold GraphOpConv_forward, _resized_params, average. rewrite He0, He2.
    unfold spread. destruct ops as [ops|]; [|reflexivity].
    destruct Hops as [Hk Hops].
    destruct (shape3_sizes Hb Hn Hops) as (Ho0 & Ho1 & Ho2).
    pose proof (shape3_ncols Hn Hops) as Hcols.
    rewrite (@split_bmm _ _ nodes nb_op) by (auto; lia).
    rewrite (@ShapeLemmas.split_dim2_operators T batch nodes nb_op ops Hb Hn Hops).
    rewrite map_map. reflexivity.
Qed.

Lemma forward_accepted_shape
    (g : GraphOpConv) (ops : option (tensor3 T)) (emb_in : tensor3 T)
    (batch_nb_nodes : list nat) (adj_mask : Mask) (batch in_fm out_fm nodes nb_op : nat) :
  0 < batch -> 0 < in_fm -> 0 < nodes ->
  has_shape3 batch in_fm nodes emb_in ->
  has_shape2 batch in_fm (mean_with_padding emb_in batch_nb_nodes adj_mask) ->
  has_shape3 1 out_fm (in_fm * (nb_op + 2)) (weight g) ->
  has_shape3 1 out_fm 1 (bias g) ->
  match ops with
  | None => nb_op = 0
  | Some ops => 0 < nb_op /\ has_shape3 batch nodes (nodes * nb_op) ops
  end ->
  has_shape3 batch out_fm nodes
    (GraphOpConv_forward mean_with_padding g ops emb_in batch_nb_nodes adj_mask).
Proof.
  intros Hb Hf Hn Hemb Hmean Hw Hbias Hops.
  destruct (@forward_spread g ops emb_in batch_nb_nodes adj_mask batch in_fm nodes nb_op
              Hb Hf Hn Hemb Hmean Hops)
    as [Hspread ->].
  apply ShapeLemmas.tadd_has_shape.
  - apply (@ShapeLemmas.bmm_has_shape T _ batch out_fm (in_fm * (nb_op + 2)) nodes).
    + nia.
    + now apply ShapeLemmas.expand_first_has_shape.
    + exact Hspread.
  - now apply ShapeLemmas.expand_first_last_has_shape.
Qed.

(** C1.  On an embedding of shape (batch, in_fm, nodes), with a weight of
    shape (1, out_fm, in_fm * (nb_op + 2)) and a bias of shape (1, out_fm, 1),
    [GraphOpConv.forward] concatenates along the feature maps: the embedding
    itself; the masked mean, of shape (batch, in_fm), with the mean of a
    feature map repeated at every node; and, for operators of shape
    (batch, nodes, nodes * nb_op), one block [bmm(emb_in, op)] for each of the
    [nb_op] operators stacked in [ops].  That makes in_fm * (nb_op + 2)
    channels, as many as the weight has columns.  The result is the batched
    product of the weight with this concatenation plus the bias, both
    repeated over the batch, the bias also over the nodes; it has shape
    (batch, out_fm, nodes).  Without operators, and a weight for nb_op = 0,
    only the embedding and the mean are concatenated. *)
Theorem GraphOpConv_forward_channels
    (g : GraphOpConv) (ops : option (tensor3 T)) (emb_in : tensor3 T)
    (batch_nb_nodes : list nat) (adj_mask : Mask) (batch in_fm out_fm nodes nb_op : nat) :
  0 < batch -> 0 < in_fm -> 0 < nodes ->
  has_shape3 batch in_fm nodes emb_in ->
  has_shape2 batch in_fm (mean_with_padding emb_in batch_nb_nodes adj_mask) ->
  has_shape3 1 out_fm (in_fm * (nb_op + 2)) (weight g) ->
  has_shape3 1 out_fm 1 (bias g) ->
  match ops with
  | None => nb_op = 0
  | Some ops => 0 < nb_op /\ has_shape3 batch nodes (nodes * nb_op) ops
  end ->
  let mean := mean_with_padding emb_in batch_nb_nodes adj_mask in
  let avg := expand_last nodes mean in
  let neighbours :=
    match ops with
    | None => []
    | Some ops => map (fun i => bmm emb_in (ShapeLemmas.operator nodes i ops)) (seq 0 nb_op)
    end in
  let spread := cat_dim1 (emb_in :: avg :: neighbours) in
  let emb_out := GraphOpConv_forward mean_with_padding g ops emb_in batch_nb_nodes adj_mask in
  (forall i j k, i < batch -> j < in_fm -> k < nodes ->
     nth k (nth j (nth i avg []) []) zero = nth j (nth i mean []) zero)
  /\ length neighbours = nb_op
  /\ has_shape3 batch (in_fm * (nb_op + 2)) nodes spread
  /\ emb_out = tadd (bmm (expand_first batch (weight g)) spread)
                    (expand_first_last batch nodes (bias g))
  /\ has_shape3 batch out_fm nodes emb_out.
Proof.
  intros Hb Hf Hn Hemb Hmean Hw Hbias Hops mean avg neighbours spread emb_out.
  destruct (@forward_spread g ops emb_in batch_nb_nodes adj_mask batch in_fm nodes nb_op
              Hb Hf Hn Hemb Hmean Hops)
    as [Hspread Heq].
  split; [|split; [|split; [|split]]].
  - intros i j k Hi Hj Hk.
    now apply (@ShapeLemmas.expand_last_entry T _ batch in_fm nodes mean).
  - unfold neighbours. destruct ops as [ops|]; simpl.
    + now rewrite length_map, length_seq.
    + now rewrite Hops.
  - exact Hspread.
  - exact Heq.
  - now apply (@forward_accepted_shape g ops emb_in batch_nb_nodes adj_mask
                 batch in_fm out_fm nodes nb_op).
Qed.

(** The number of feature maps of an output is the number of rows of the
    weight, as soon as the bias has as many. *)
Lemma GraphOpConv_forward_feature_maps (g : GraphOpConv) (ops : option (tensor3 T))
    (emb_in : tensor3 T) (batch_nb_nodes : list nat) (adj_mask : Mask) (h : nat) :
  length (hd [] (weight g)) = h -> length (hd [] (bias g)) = h ->
  Forall (fun m => length m = h)
         (GraphOpConv_forward mean_with_padding g ops emb_in batch_nb_nodes adj_mask).
Proof.
  intros Hw Hb. unfold GraphOpConv_forward, _resized_params, tadd, bmm.
  apply Forall_zip_with. intros x b Hx Hbias.
  rewrite zip_with_length.
  apply repeat_spec in Hbias. subst b. rewrite length_map, Hb.
  assert (Hlen : Forall (fun m : matrix T => length m = h)
                   (zip_with matmul (expand_first (size0 emb_in) (weight g))
                      (cat_dim1 match ops with
                                | None => [emb_in; average mean_with_padding emb_in batch_nb_nodes adj_mask]
                                | Some ops0 =>
                                    [emb_in; average mean_with_padding emb_in batch_nb_nodes adj_mask]
                                      ++ split_dim2 (size2 emb_in) (bmm emb_in ops0)
                                end))).
  { apply Forall_zip_with. intros w sp Hin _.
    apply repeat_spec in Hin. subst w. unfold matmul. now rewrite length_map. }
  rewrite Forall_forall in Hlen. rewrite (Hlen x Hx). apply Nat.min_id.
Qed.

Variable uniform : nat -> T.

Lemma fill_length (rows cols seed : nat) : length (fill uniform rows cols seed) = rows.
Proof. unfold fill. now rewrite length_map, length_seq. Qed.

Lemma GraphOpConv_init_rows (in_fm out_fm nb_op seed : nat) :
  let g := fst (GraphOpConv_init uniform in_fm out_fm nb_op seed) in
  length (hd [] (weight g)) = out_fm /\ length (hd [] (bias g)) = out_fm.
Proof. simpl. now rewrite !fill_length. Qed.

Lemma fill_has_shape (rows cols seed : nat) : has_shape2 rows cols (fill uniform rows cols seed).
Proof.
  unfold fill. split; [now rewrite length_map, length_seq|].
  apply Forall_map, Forall_forall. intros i _. now rewrite length_map, length_seq.
Qed.

(** [GraphOpConv.__init__] sizes the weight for the embedding, the mean and
    [nb_op] operators. *)
Lemma GraphOpConv_init_shapes (in_fm out_fm nb_op seed : nat) :
  let g := fst (GraphOpConv_init uniform in_fm out_fm nb_op seed) in
  has_shape3 1 out_fm (in_fm * (nb_op + 2)) (weight g)
  /\ has_shape3 1 out_fm 1 (bias g).
Proof.
  simpl. split; (split; [reflexivity|]); constructor; try constructor; apply fill_has_shape.
Qed.

Lemma cat_dim1_pair_feature_maps (a b : tensor3 T) (h : nat) :
  Forall (fun m => length m = h) a -> Forall (fun m => length m = h) b ->
  Forall (fun m => length m = h + h) (cat_dim1 [a; b]).
Proof.
  intros Ha Hb. simpl. apply Forall_zip_with. intros x y Hx Hy.
  rewrite Forall_forall in Ha, Hb.
  now rewrite length_app, (Ha x Hx), (Hb y Hy).
Qed.

Lemma tmap_feature_maps (f : T -> T) (a : tensor3 T) (h : nat) :
  Forall (fun m => length m = h) a -> Forall (fun m => length m = h) (tmap f a).
Proof.
  intros Ha. unfold tmap. apply Forall_map.
  eapply Forall_impl; [|exact Ha]. simpl. intros m Hm. now rewrite length_map.
Qed.

Lemma ResGOpConv_init_odd (in_fm k nb_op seed : nat) :
  ResGOpConv_init uniform in_fm (2 * k + 1) nb_op seed = Raise ValueError.
Proof.
  unfold ResGOpConv_init.
  replace ((2 * k + 1) mod 2) with 1; [reflexivity|].
  rewrite Nat.add_comm, Nat.mul_comm, Nat.Div0.mod_add. reflexivity.
Qed.

Lemma ResGOpConv_init_even (in_fm k nb_op seed : nat) :
  exists r seed',
    ResGOpConv_init uniform in_fm (2 * k) nb_op seed = Ok (r, seed')
    /\ length (hd [] (weight (gconv_lin r))) = k /\ length (hd [] (bias (gconv_lin r))) = k
    /\ length (hd [] (weight (gconv_nlin r))) = k /\ length (hd [] (bias (gconv_nlin r))) = k.
Proof.
  unfold ResGOpConv_init.
  replace ((2 * k) mod 2) with 0 by (rewrite Nat.mul_comm, Nat.Div0.mod_mul; reflexivity).
  replace (2 * k / 2) with k by (rewrite Nat.mul_comm, Nat.div_mul; lia).
  simpl. eexists. eexists. split; [reflexivity|]. simpl.
  rewrite !fill_length. auto.
Qed.

Lemma ResGOpConv_forward_feature_maps (r : ResGOpConv) (k : nat)
    (ops : option (tensor3 T)) (emb_in : tensor3 T) (batch_nb_nodes : list nat)
    (adj_mask : Mask) (out : tensor3 T) :
  length (hd [] (weight (gconv_lin r))) = k -> length (hd [] (bias (gconv_lin r))) = k ->
  length (hd [] (weight (gconv_nlin r))) = k -> length (hd [] (bias (gconv_nlin r))) = k ->
  ResGOpConv_forward mean_with_padding r ops emb_in batch_nb_nodes adj_mask = Ok out ->
  out = cat_dim1
          [GraphOpConv_forward mean_with_padding (gconv_lin r) ops emb_in batch_nb_nodes adj_mask;
           tmap relu (GraphOpConv_forward mean_with_padding (gconv_nlin r) ops emb_in
                        batch_nb_nodes adj_mask)]
  /\ Forall (fun m => length m = k + k) out.
Proof.
  intros Hlw Hlb Hnw Hnb. unfold ResGOpConv_forward, check_for_nan, bind.
  destruct (0 <? count_nan _); [discriminate|].
  destruct (0 <? count_nan _); [discriminate|].
  destruct (0 <? count_nan _); [discriminate|].
  intros Hout. injection Hout as <-. split; [reflexivity|].
  apply cat_dim1_pair_feature_maps.
  - now apply GraphOpConv_forward_feature_maps.
  - apply tmap_feature_maps. now apply GraphOpConv_forward_feature_maps.
Qed.
End Conv.

Import IEEE32 Samples.

(** Four nodes, no operator: 2 * x + 3 * mean + 1 with mean = 3. *)
Example GraphOpConv_forward_four_nodes :
  GraphOpConv_forward mean_with_padding conv_id_avg None emb4 [4] no_mask
  = [[[fz 12; fz 14; fz 16; fz 22]]].
Proof. vm_compute. reflexivity. Qed.

Lemma GraphOpConv_forward_channels_witness :
  let mean := mean_with_padding emb2 [2] no_mask in
  let avg := expand_last 2 mean in
  let neighbours := map (fun i => bmm emb2 (ShapeLemmas.operator 2 i ops2)) (seq 0 2) in
  let spread := cat_dim1 (emb2 :: avg :: neighbours) in
  let emb_out := GraphOpConv_forward mean_with_padding conv2 (Some ops2) emb2 [2] no_mask in
  (forall i j k, i < 1 -> j < 2 -> k < 2 ->
     nth k (nth j (nth i avg []) []) zero = nth j (nth i mean []) zero)
  /\ length neighbours = 2
  /\ has_shape3 1 (2 * (2 + 2)) 2 spread
  /\ emb_out = tadd (bmm (expand_first 1 (weight conv2)) spread)
                    (expand_first_last 1 2 (bias conv2))
  /\ has_shape3 1 1 2 emb_out.
Proof.
  apply (@GraphOpConv_forward_channels float32 f32_scalar (tensor3 float32) mean_with_padding
           conv2 (Some ops2) emb2 [2] no_mask 1 2 1 2 2).
  - exact Nat.lt_0_1.
  - exact Nat.lt_0_2.
  - exact Nat.lt_0_2.
  - split; [reflexivity|]. repeat constructor.
  - split; [reflexivity|]. repeat constructor.
  - split; [reflexivity|]. repeat constructor.
  - split; [reflexivity|]. repeat constructor.
  - split; [exact Nat.lt_0_2|]. split; [reflexivity|]. repeat constructor.
Defined.

(** The accepted call computes: the two feature maps, their two means and
    the two operators (identity and swap) applied to each, under a weight of
    ones. *)
Example GraphOpConv_forward_two_operators :
  GraphOpConv_forward mean_with_padding conv2 (Some ops2) emb2 [2] no_mask
  = [[[f32_div (fz 41) (fz 2); f32_div (fz 47) (fz 2)]]].
Proof. vm_compute. reflexivity. Qed.

End GraphConvFacts.

(** ** Facts on script/model/gnn/graphconv.py *)

Module GnnGraphConvFacts.
Import TensorFacts GnnGraphConv.

Section Conv.
Context {T : Type} `{Scalar T}.
Variable Mask : Type.

Lemma matmul_slice_rows (s n : nat) (a b : matrix T) :
  slice s n (matmul a b) = matmul (slice s n a) b.
Proof. unfold matmul. apply slice_map. Qed.

Lemma bmm_slice_rows (s n : nat) (a b : tensor3 T) :
  map (slice s n) (bmm a b) = bmm (map (slice s n) a) b.
Proof.
  unfold bmm. rewrite map_zip_with, zip_with_map_l.
  revert b; induction a as [|x a IH]; intros [|y b]; simpl; auto.
  now rewrite matmul_slice_rows, IH.
Qed.

Lemma size1_bmm (a b : tensor3 T) :
  0 < size0 b -> size1 (bmm a b) = size1 a.
Proof.
  unfold size0, size1, bmm.
  destruct a as [|x a]; simpl; auto.
  destruct b as [|y b]; simpl; [lia|].
  intros _. unfold matmul. now rewrite length_map.
Qed.

(** Splitting a product into blocks of [n] rows gives the products of the
    blocks of the left-hand side. *)
Lemma split_rows_bmm (n : nat) (a b : tensor3 T) :
  0 < size0 b ->
  split_dim1 n (bmm a b) = map (fun op => bmm op b) (split_dim1 n a).
Proof.
  intros Hb. unfold split_dim1.
  rewrite size1_bmm by assumption. rewrite map_map.
  apply map_ext. intros k. apply bmm_slice_rows.
Qed.

(** C9.  In the variant of script/model/gnn the average is never computed.
    With operators, [GraphOpConv.forward] is the linear layer applied to the
    embedding next to one block [bmm(op, emb_in)] for each operator stacked in
    [ops], and nothing else: the number of valid nodes and the mask, from
    which an average would be taken, do not influence the result.  Without
    operators the call raises, [avg] being bound nowhere. *)
Theorem gnn_forward_without_average
    (g : GraphOpConv) (ops emb_in : tensor3 T) (batch_nb_nodes : list nat) (adj_mask : Mask) :
  0 < size0 emb_in ->
  GraphOpConv_forward g (Some ops) emb_in batch_nb_nodes adj_mask
    = Ok (Linear_forward (fc g)
            (cat_dim2 (emb_in :: map (fun op => bmm op emb_in)
                                     (split_dim1 (size1 emb_in) ops))))
  /\ (forall (batch_nb_nodes' : list nat) (adj_mask' : Mask),
        GraphOpConv_forward g (Some ops) emb_in batch_nb_nodes' adj_mask'
        = GraphOpConv_forward g (Some ops) emb_in batch_nb_nodes adj_mask)
  /\ GraphOpConv_forward g None emb_in batch_nb_nodes adj_mask = Raise NameError.
Proof.
  intros Hb. unfold GraphOpConv_forward. simpl.
  rewrite split_rows_bmm by assumption.
  repeat split; reflexivity.
Qed.

Lemma Linear_forward_width (l : Linear) (x : tensor3 T) (h : nat) :
  length (lin_weight l) = h -> length (lin_bias l) = h ->
  Forall (Forall (fun row => length row = h)) (Linear_forward l x).
Proof.
  intros Hw Hb. unfold Linear_forward.
  apply Forall_map, Forall_forall. intros m _.
  apply Forall_map, Forall_forall. intros row _.
  rewrite zip_with_length, length_map, Hw, Hb. apply Nat.min_id.
Qed.

Lemma GraphOpConv_forward_width (g : GraphOpConv) (ops : option (tensor3 T))
    (emb_in : tensor3 T) (batch_nb_nodes : list nat) (adj_mask : Mask) (h : nat)
    (out : tensor3 T) :
  length (lin_weight (fc g)) = h -> length (lin_bias (fc g)) = h ->
  GraphOpConv_forward g ops emb_in batch_nb_nodes adj_mask = Ok out ->
  Forall (Forall (fun row => length row = h)) out.
Proof.
  intros Hw Hb. unfold GraphOpConv_forward.
  destruct ops as [ops|]; simpl; [|discriminate].
  intros Hout. injection Hout as <-. now apply Linear_forward_width.
Qed.

Lemma cat_dim2_pair_width (a b : tensor3 T) (h : nat) :
  Forall (Forall (fun row => length row = h)) a ->
  Forall (Forall (fun row => length row = h)) b ->
  Forall (Forall (fun row => length row = h + h)) (cat_dim2 [a; b]).
Proof.
  intros Ha Hb. simpl. apply Forall_zip_with. intros x y Hx Hy.
  rewrite Forall_forall in Ha, Hb. specialize (Ha x Hx). specialize (Hb y Hy).
  apply Forall_zip_with. intros r1 r2 Hr1 Hr2.
  rewrite Forall_forall in Ha, Hb.
  now rewrite length_app, (Ha r1 Hr1), (Hb r2 Hr2).
Qed.

Lemma tmap_width (f : T -> T) (a : tensor3 T) (h : nat) :
  Forall (Forall (fun row => length row = h)) a ->
  Forall (Forall (fun row => length row = h)) (tmap f a).
Proof.
  intros Ha. unfold tmap. apply Forall_map.
  eapply Forall_impl; [|exact Ha]. simpl. intros m Hm.
  apply Forall_map. eapply Forall_impl; [|exact Hm]. simpl.
  intros row Hrow. now rewrite length_map.
Qed.

Variable uniform : nat -> T.

Lemma gnn_ResGOpConv_init_odd (in_fm k nb_op seed : nat) :
  ResGOpConv_init uniform in_fm (2 * k + 1) nb_op seed = Raise ValueError.
Proof.
  unfold ResGOpConv_init.
  replace ((2 * k + 1) mod 2) with 1; [reflexivity|].
  rewrite Nat.add_comm, Nat.mul_comm, Nat.Div0.mod_add. reflexivity.
Qed.

Lemma gnn_ResGOpConv_init_even (in_fm k nb_op seed : nat) :
  exists r seed',
    ResGOpConv_init uniform in_fm (2 * k) nb_op seed = Ok (r, seed')
    /\ length (lin_weight (fc (gconv_lin r))) = k /\ length (lin_bias (fc (gconv_lin r))) = k
    /\ length (lin_weight (fc (gconv_nlin r))) = k /\ length (lin_bias (fc (gconv_nlin r))) = k.
Proof.
  unfold ResGOpConv_init.
  replace ((2 * k) mod 2) with 0 by (rewrite Nat.mul_comm, Nat.Div0.mod_mul; reflexivity).
  replace (2 * k / 2) with k by (rewrite Nat.mul_comm, Nat.div_mul; lia).
  simpl. eexists. eexists. split; [reflexivity|]. simpl.
  rewrite !length_map, !length_seq. auto.
Qed.

Lemma gnn_ResGOpConv_forward_width (r : ResGOpConv) (k : nat)
    (ops : option (tensor3 T)) (emb_in : tensor3 T) (batch_nb_nodes : list nat)
    (adj_mask : Mask) (out : tensor3 T) :
  length (lin_weight (fc (gconv_lin r))) = k -> length (lin_bias (fc (gconv_lin r))) = k ->
  length (lin_weight (fc (gconv_nlin r))) = k -> length (lin_bias (fc (gconv_nlin r))) = k ->
  ResGOpConv_forward r ops emb_in batch_nb_nodes adj_mask = Ok out ->
  exists linear nlinear,
    GraphOpConv_forward (gconv_lin r) ops emb_in batch_nb_nodes adj_mask = Ok linear
    /\ GraphOpConv_forward (gconv_nlin r) ops emb_in batch_nb_nodes adj_mask = Ok nlinear
    /\ out = cat_dim2 [linear; tmap relu nlinear]
    /\ Forall (Forall (fun row => length row = k + k)) out.
Proof.
  intros Hlw Hlb Hnw Hnb. unfold ResGOpConv_forward, check_for_nan, bind.
  destruct (GraphOpConv_forward (gconv_lin r) _ _ _ _) as [linear|e] eqn:Elin; [|discriminate].
  destruct (0 <? count_nan linear); [discriminate|].
  destruct (GraphOpConv_forward (gconv_nlin r) _ _ _ _) as [nlinear|e] eqn:Enlin; [|discriminate].
  destruct (0 <? count_nan nlinear); [discriminate|].
  destruct (0 <? count_nan _); [discriminate|].
  intros Hout. injection Hout as <-.
  exists linear, nlinear. repeat split.
  apply cat_dim2_pair_width.
  - now apply (@GraphOpConv_forward_width (gconv_lin r) ops emb_in batch_nb_nodes adj_mask).
  - apply tmap_width.
    now apply (@GraphOpConv_forward_width (gconv_nlin r) ops emb_in batch_nb_nodes adj_mask).
Qed.
End Conv.

Import IEEE32 Samples.

Example gnn_forward_two_nodes :
  GraphOpConv_forward gnn_conv (Some gnn_ops) gnn_emb [2] no_mask
  = Ok [[[fz 121]; [fz 112]]].
Proof. vm_compute. reflexivity. Qed.

Lemma gnn_forward_without_average_witness :
  GraphOpConv_forward gnn_conv (Some gnn_ops) gnn_emb [2] no_mask
    = Ok (Linear_forward (fc gnn_conv)
            (cat_dim2 (gnn_emb :: map (fun op => bmm op gnn_emb)
                                      (split_dim1 (size1 gnn_emb) gnn_ops))))
  /\ (forall (batch_nb_nodes' : list nat) (adj_mask' : tensor3 float32),
        GraphOpConv_forward gnn_conv (Some gnn_ops) gnn_emb batch_nb_nodes' adj_mask'
        = GraphOpConv_forward gnn_conv (Some gnn_ops) gnn_emb [2] no_mask)
  /\ GraphOpConv_forward gnn_conv None gnn_emb [2] no_mask = Raise NameError.
Proof.
  apply (@gnn_forward_without_average float32 f32_scalar (tensor3 float32)
           gnn_conv gnn_ops gnn_emb [2] no_mask).
  simpl. lia.
Defined.

End GnnGraphConvFacts.

(** ** The residual convolution, in both variants *)

Module ResidualFacts.
Import TensorFacts.
Local Unset Implicit Arguments.

Section Residual.
Context {T : Type} `{Scalar T}.
Variable Mask : Type.
Variable mean_with_padding : tensor3 T -> list nat -> Mask -> matrix T.
Variable uniform : nat -> T.

(** *** The two half-size convolutions *)

Lemma ResGOpConv_init_halves (in_fm k nb_op seed : nat) :
  exists seed',
    GraphConv.ResGOpConv_init uniform in_fm (2 * k) nb_op seed
    = Ok ({| GraphConv.gconv_lin :=
               fst (GraphConv.GraphOpConv_init uniform in_fm k nb_op seed);
             GraphConv.gconv_nlin :=
               fst (GraphConv.GraphOpConv_init uniform in_fm k nb_op
                      (snd (GraphConv.GraphOpConv_init uniform in_fm k nb_op seed))) |},
          seed').
Proof.
  unfold GraphConv.ResGOpConv_init.
  replace ((2 * k) mod 2) with 0 by (rewrite Nat.mul_comm, Nat.Div0.mod_mul; reflexivity).
  replace (2 * k / 2) with k by (rewrite Nat.mul_comm, Nat.div_mul; lia).
  simpl. eexists. reflexivity.
Qed.

Lemma gnn_ResGOpConv_init_halves (in_fm k nb_op seed : nat) :
  exists seed',
    GnnGraphConv.ResGOpConv_init uniform in_fm (2 * k) nb_op seed
    = Ok ({| GnnGraphConv.gconv_lin :=
               fst (GnnGraphConv.GraphOpConv_init uniform in_fm k nb_op seed);
             GnnGraphConv.gconv_nlin :=
               fst (GnnGraphConv.GraphOpConv_init uniform in_fm k nb_op
                      (snd (GnnGraphConv.GraphOpConv_init uniform in_fm k nb_op seed))) |},
          seed').
Proof.
  unfold GnnGraphConv.ResGOpConv_init.
  replace ((2 * k) mod 2) with 0 by (rewrite Nat.mul_comm, Nat.Div0.mod_mul; reflexivity).
  replace (2 * k / 2) with k by (rewrite Nat.mul_comm, Nat.div_mul; lia).
  simpl. eexists. reflexivity.
Qed.

(** [nn.Linear] keeps the first two dimensions and gives one feature for
    every row of its weight. *)
Lemma Linear_forward_has_shape (l : GnnGraphConv.Linear) (x : tensor3 T) (b r c h : nat) :
  has_shape3 b r c x ->
  length (GnnGraphConv.lin_weight l) = h -> length (GnnGraphConv.lin_bias l) = h ->
  has_shape3 b r h (GnnGraphConv.Linear_forward l x).
Proof.
  intros [Hlen Hall] Hw Hb. unfold GnnGraphConv.Linear_forward.
  split; [now rewrite length_map|].
  apply Forall_map. eapply Forall_impl; [|exact Hall].
  intros m [Hm _]. split; [now rewrite length_map|].
  apply Forall_map, Forall_forall. intros row _.
  apply ShapeLemmas.zip_with_same_length; [now rewrite length_map|exact Hb].
Qed.

Lemma gnn_GraphOpConv_init_sizes (in_fm out_fm nb_op seed : nat) :
  let g := fst (GnnGraphConv.GraphOpConv_init uniform in_fm out_fm nb_op seed) in
  length (GnnGraphConv.lin_weight (GnnGraphConv.fc g)) = out_fm
  /\ length (GnnGraphConv.lin_bias (GnnGraphConv.fc g)) = out_fm.
Proof. simpl. now rewrite !length_map, !length_seq. Qed.

(** The second variant on an accepted call: an embedding of shape
    (batch, nodes, in_fm) and operators of shape (batch, nodes * nb_op, nodes). *)
Lemma gnn_forward_accepted_shape
    (g : GnnGraphConv.GraphOpConv) (ops emb_in : tensor3 T)
    (batch_nb_nodes : list nat) (adj_mask : Mask) (batch nodes in_fm nb_op h : nat) :
  0 < batch -> 0 < nodes ->
  has_shape3 batch nodes in_fm emb_in ->
  has_shape3 batch (nodes * nb_op) nodes ops ->
  length (GnnGraphConv.lin_weight (GnnGraphConv.fc g)) = h ->
  length (GnnGraphConv.lin_bias (GnnGraphConv.fc g)) = h ->
  exists out,
    GnnGraphConv.GraphOpConv_forward g (Some ops) emb_in batch_nb_nodes adj_mask = Ok out
    /\ has_shape3 batch nodes h out.
Proof.
  intros Hb Hn Hemb Hops Hw Hbias.
  unfold GnnGraphConv.GraphOpConv_forward. cbn [bind].
  eexists. split; [reflexivity|].
  assert (Hs1 : size1 emb_in = nodes).
  { destruct Hemb as [Hlen Hall]. unfold size1.
    destruct emb_in as [|m t]; simpl in *; [lia|].
    now inversion Hall as [|? ? [Hm _] _]. }
  rewrite Hs1.
  apply (@Linear_forward_has_shape _ _ batch nodes (in_fm + in_fm * nb_op)); try assumption.
  assert (Hprod : has_shape3 batch (nodes * nb_op) in_fm (bmm ops emb_in))
    by (apply (@ShapeLemmas.bmm_has_shape T _ batch (nodes * nb_op) nodes in_fm);
        assumption).
  rewrite (@ShapeLemmas.split_dim1_operators T batch nodes nb_op in_fm _ Hb Hn Hprod).
  change ([emb_in] ++ ?l) with (emb_in :: l).
  replace (in_fm + in_fm * nb_op)
    with (in_fm + in_fm * length (map (fun i => ShapeLemmas.row_operator nodes i (bmm ops emb_in))
                                      (seq 0 nb_op)))
    by (now rewrite length_map, length_seq).
  apply ShapeLemmas.cat_dim2_has_shape; [exact Hemb|].
  apply Forall_map, Forall_forall. intros i Hi. apply in_seq in Hi.
  apply (@ShapeLemmas.row_operator_has_shape T batch nodes nb_op in_fm); [lia|exact Hprod].
Qed.

(** The forward pass returns the concatenation whenever the three NaN
    checks find nothing, and returns nothing else. *)
Lemma ResGOpConv_forward_clean
    (r : GraphConv.ResGOpConv) (ops : option (tensor3 T)) (emb_in : tensor3 T)
    (batch_nb_nodes : list nat) (adj_mask : Mask) :
  let linear := GraphConv.GraphOpConv_forward mean_with_padding (GraphConv.gconv_lin r)
                  ops emb_in batch_nb_nodes adj_mask in
  let nlinear := GraphConv.GraphOpConv_forward mean_with_padding (GraphConv.gconv_nlin r)
                   ops emb_in batch_nb_nodes adj_mask in
  let emb_out := cat_dim1 [linear; tmap relu nlinear] in
  (count_nan linear = 0 -> count_nan nlinear = 0 -> count_nan emb_out = 0 ->
   GraphConv.ResGOpConv_forward mean_with_padding r ops emb_in batch_nb_nodes adj_mask
   = Ok emb_out)
  /\ (forall out,
        GraphConv.ResGOpConv_forward mean_with_padding r ops emb_in batch_nb_nodes adj_mask
        = Ok out -> out = emb_out).
Proof.
  intros linear nlinear emb_out.
  unfold GraphConv.ResGOpConv_forward, GraphConv.check_for_nan, bind.
  fold linear nlinear. fold emb_out. split.
  - intros H1 H2 H3. rewrite H1, H2, H3. reflexivity.
  - intros out.
    destruct (0 <? count_nan linear); [discriminate|].
    destruct (0 <? count_nan nlinear); [discriminate|].
    destruct (0 <? count_nan emb_out); [discriminate|].
    intros Hout. now injection Hout as <-.
Qed.

Lemma gnn_ResGOpConv_forward_clean
    (r : GnnGraphConv.ResGOpConv) (ops : option (tensor3 T)) (emb_in : tensor3 T)
    (batch_nb_nodes : list nat) (adj_mask : Mask) (linear nlinear : tensor3 T) :
  GnnGraphConv.GraphOpConv_forward (GnnGraphConv.gconv_lin r) ops emb_in
    batch_nb_nodes adj_mask = Ok linear ->
  GnnGraphConv.GraphOpConv_forward (GnnGraphConv.gconv_nlin r) ops emb_in
    batch_nb_nodes adj_mask = Ok nlinear ->
  let emb_out := cat_dim2 [linear; tmap relu nlinear] in
  (count_nan linear = 0 -> count_nan nlinear = 0 -> count_nan emb_out = 0 ->
   GnnGraphConv.ResGOpConv_forward r ops emb_in batch_nb_nodes adj_mask = Ok emb_out)
  /\ (forall out,
        GnnGraphConv.ResGOpConv_forward r ops emb_in batch_nb_nodes adj_mask = Ok out ->
        out = emb_out).
Proof.
  intros Elin Enlin emb_out.
  unfold GnnGraphConv.ResGOpConv_forward, GnnGraphConv.check_for_nan.
  rewrite Elin, Enlin. unfold bind. fold emb_out. split.
  - intros H1 H2 H3. rewrite H1, H2, H3. reflexivity.
  - intros out.
    destruct (0 <? count_nan linear); [discriminate|].
    destruct (0 <? count_nan nlinear); [discriminate|].
    destruct (0 <? count_nan emb_out); [discriminate|].
    intros Hout. now injection Hout as <-.
Qed.

(** C4.  A residual convolution cannot be built with an odd number of output
    feature maps, in either variant: the constructor raises [ValueError].
    With an even number 2 * k it is built from two convolutions of k output
    feature maps each, the second drawn after the first.  On every call the
    code accepts, both convolutions return k feature maps and the
    concatenation of the first with the rectified second has 2 * k feature
    maps; the forward pass returns this concatenation whenever the NaN checks
    find nothing, and it returns nothing else. *)
Theorem ResGOpConv_feature_maps (in_fm k nb_op seed : nat) :
  GraphConv.ResGOpConv_init uniform in_fm (2 * k + 1) nb_op seed = Raise ValueError
  /\ GnnGraphConv.ResGOpConv_init uniform in_fm (2 * k + 1) nb_op seed = Raise ValueError
  /\ (exists r seed',
        GraphConv.ResGOpConv_init uniform in_fm (2 * k) nb_op seed = Ok (r, seed')
        /\ GraphConv.gconv_lin r = fst (GraphConv.GraphOpConv_init uniform in_fm k nb_op seed)
        /\ GraphConv.gconv_nlin r
           = fst (GraphConv.GraphOpConv_init uniform in_fm k nb_op
                    (snd (GraphConv.GraphOpConv_init uniform in_fm k nb_op seed)))
        /\ forall (ops : option (tensor3 T)) (emb_in : tensor3 T) (batch_nb_nodes : list nat)
                  (adj_mask : Mask) (batch nodes : nat),
             0 < batch -> 0 < in_fm -> 0 < nodes ->
             has_shape3 batch in_fm nodes emb_in ->
             has_shape2 batch in_fm (mean_with_padding emb_in batch_nb_nodes adj_mask) ->
             match ops with
             | None => nb_op = 0
             | Some ops => 0 < nb_op /\ has_shape3 batch nodes (nodes * nb_op) ops
             end ->
             let linear := GraphConv.GraphOpConv_forward mean_with_padding
                             (GraphConv.gconv_lin r) ops emb_in batch_nb_nodes adj_mask in
             let nlinear := GraphConv.GraphOpConv_forward mean_with_padding
                              (GraphConv.gconv_nlin r) ops emb_in batch_nb_nodes adj_mask in
             let emb_out := cat_dim1 [linear; tmap relu nlinear] in
             has_shape3 batch k nodes linear
             /\ has_shape3 batch k nodes (tmap relu nlinear)
             /\ has_shape3 batch (2 * k) nodes emb_out
             /\ (count_nan linear = 0 -> count_nan nlinear = 0 -> count_nan emb_out = 0 ->
                 GraphConv.ResGOpConv_forward mean_with_padding r ops emb_in
                   batch_nb_nodes adj_mask = Ok emb_out)
             /\ (forall out,
                   GraphConv.ResGOpConv_forward mean_with_padding r ops emb_in
                     batch_nb_nodes adj_mask = Ok out -> out = emb_out))
  /\ (exists r seed',
        GnnGraphConv.ResGOpConv_init uniform in_fm (2 * k) nb_op seed = Ok (r, seed')
        /\ GnnGraphConv.gconv_lin r
           = fst (GnnGraphConv.GraphOpConv_init uniform in_fm k nb_op seed)
        /\ GnnGraphConv.gconv_nlin r
           = fst (GnnGraphConv.GraphOpConv_init uniform in_fm k nb_op
                    (snd (GnnGraphConv.GraphOpConv_init uniform in_fm k nb_op seed)))
        /\ forall (ops emb_in : tensor3 T) (batch_nb_nodes : list nat) (adj_mask : Mask)
                  (batch nodes : nat),
             0 < batch -> 0 < nodes -> 0 < in_fm -> 0 < nb_op ->
             has_shape3 batch nodes in_fm emb_in ->
             has_shape3 batch (nodes * nb_op) nodes ops ->
             exists linear nlinear,
               GnnGraphConv.GraphOpConv_forward (GnnGraphConv.gconv_lin r) (Some ops) emb_in
                 batch_nb_nodes adj_mask = Ok linear
               /\ GnnGraphConv.GraphOpConv_forward (GnnGraphConv.gconv_nlin r) (Some ops) emb_in
                    batch_nb_nodes adj_mask = Ok nlinear
               /\ has_shape3 batch nodes k linear
               /\ has_shape3 batch nodes k (tmap relu nlinear)
               /\ has_shape3 batch nodes (2 * k) (cat_dim2 [linear; tmap relu nlinear])
               /\ (count_nan linear = 0 -> count_nan nlinear = 0 ->
                   count_nan (cat_dim2 [linear; tmap relu nlinear]) = 0 ->
                   GnnGraphConv.ResGOpConv_forward r (Some ops) emb_in batch_nb_nodes adj_mask
                   = Ok (cat_dim2 [linear; tmap relu nlinear]))
               /\ (forall out,
                     GnnGraphConv.ResGOpConv_forward r (Some ops) emb_in batch_nb_nodes adj_mask
                     = Ok out -> out = cat_dim2 [linear; tmap relu nlinear])).
Proof.
  split; [apply GraphConvFacts.ResGOpConv_init_odd|].
  split; [apply GnnGraphConvFacts.gnn_ResGOpConv_init_odd|].
  split.
  - destruct (ResGOpConv_init_halves in_fm k nb_op seed) as [seed' Hinit].
    eexists. exists seed'. split; [exact Hinit|]. cbn [GraphConv.gconv_lin GraphConv.gconv_nlin].
    split; [reflexivity|]. split; [reflexivity|].
    intros ops emb_in batch_nb_nodes adj_mask batch nodes Hb Hf Hn Hemb Hmean Hops.
    set (glin := fst (GraphConv.GraphOpConv_init uniform in_fm k nb_op seed)).
    set (gnlin := fst (GraphConv.GraphOpConv_init uniform in_fm k nb_op
                         (snd (GraphConv.GraphOpConv_init uniform in_fm k nb_op seed)))).
    set (linear := GraphConv.GraphOpConv_forward mean_with_padding glin ops emb_in
                     batch_nb_nodes adj_mask).
    set (nlinear := GraphConv.GraphOpConv_forward mean_with_padding gnlin ops emb_in
                      batch_nb_nodes adj_mask).
    set (emb_out := cat_dim1 [linear; tmap relu nlinear]).
    assert (Hlin : has_shape3 batch k nodes linear).
    { destruct (GraphConvFacts.GraphOpConv_init_shapes uniform in_fm k nb_op seed) as [Hw Hbi].
      now apply (@GraphConvFacts.forward_accepted_shape T _ Mask mean_with_padding glin ops
                   emb_in batch_nb_nodes adj_mask batch in_fm k nodes nb_op). }
    assert (Hnlin : has_shape3 batch k nodes nlinear).
    { destruct (GraphConvFacts.GraphOpConv_init_shapes uniform in_fm k nb_op
                  (snd (GraphConv.GraphOpConv_init uniform in_fm k nb_op seed))) as [Hw Hbi].
      now apply (@GraphConvFacts.forward_accepted_shape T _ Mask mean_with_padding gnlin ops
                   emb_in batch_nb_nodes adj_mask batch in_fm k nodes nb_op). }
    pose proof (@ShapeLemmas.tmap_has_shape3 T relu batch k nodes nlinear Hnlin) as Hrelu.
    split; [exact Hlin|]. split; [exact Hrelu|]. split.
    + replace (2 * k) with (k + k) by lia. unfold emb_out. cbn [cat_dim1 fold_left].
      now apply ShapeLemmas.stack_has_shape.
    + exact (ResGOpConv_forward_clean
               {| GraphConv.gconv_lin := glin; GraphConv.gconv_nlin := gnlin |}
               ops emb_in batch_nb_nodes adj_mask).
  - destruct (gnn_ResGOpConv_init_halves in_fm k nb_op seed) as [seed' Hinit].
    eexists. exists seed'. split; [exact Hinit|].
    cbn [GnnGraphConv.gconv_lin GnnGraphConv.gconv_nlin].
    split; [reflexivity|]. split; [reflexivity|].
    intros ops emb_in batch_nb_nodes adj_mask batch nodes Hb Hn Hf Hk Hemb Hops.
    set (glin := fst (GnnGraphConv.GraphOpConv_init uniform in_fm k nb_op seed)).
    set (gnlin := fst (GnnGraphConv.GraphOpConv_init uniform in_fm k nb_op
                         (snd (GnnGraphConv.GraphOpConv_init uniform in_fm k nb_op seed)))).
    destruct (gnn_GraphOpConv_init_sizes in_fm k nb_op seed) as [Hw1 Hb1].
    destruct (gnn_GraphOpConv_init_sizes in_fm k nb_op
                (snd (GnnGraphConv.GraphOpConv_init uniform in_fm k nb_op seed))) as [Hw2 Hb2].
    destruct (@gnn_forward_accepted_shape glin ops emb_in batch_nb_nodes adj_mask
                batch nodes in_fm nb_op k Hb Hn Hemb Hops Hw1 Hb1) as (linear & Elin & Hlin).
    destruct (@gnn_forward_accepted_shape gnlin ops emb_in batch_nb_nodes adj_mask
                batch nodes in_fm nb_op k Hb Hn Hemb Hops Hw2 Hb2) as (nlinear & Enlin & Hnlin).
    exists linear, nlinear.
    pose proof (@ShapeLemmas.tmap_has_shape3 T relu batch nodes k nlinear Hnlin) as Hrelu.
    split; [exact Elin|]. split; [exact Enlin|].
    split; [exact Hlin|]. split; [exact Hrelu|]. split.
    + replace (2 * k) with (k + k) by lia. cbn [cat_dim2 fold_left].
      now apply ShapeLemmas.beside_has_shape.
    + exact (gnn_ResGOpConv_forward_clean
               {| GnnGraphConv.gconv_lin := glin; GnnGraphConv.gconv_nlin := gnlin |}
               (Some ops) emb_in batch_nb_nodes adj_mask linear nlinear Elin Enlin).
Qed.

(** C5, as the code has it.  In both variants the forward pass raises
    [AssertionError] exactly when the linear branch, the nonlinear branch or
    the concatenated output holds a NaN, and returns the concatenated output
    otherwise; so an embedding it returns holds no NaN. *)
Theorem ResGOpConv_forward_nan_check
    (r : GraphConv.ResGOpConv) (r' : GnnGraphConv.ResGOpConv)
    (ops : option (tensor3 T)) (emb_in : tensor3 T) (batch_nb_nodes : list nat)
    (adj_mask : Mask) :
  let linear := GraphConv.GraphOpConv_forward mean_with_padding (GraphConv.gconv_lin r)
                  ops emb_in batch_nb_nodes adj_mask in
  let nlinear := GraphConv.GraphOpConv_forward mean_with_padding (GraphConv.gconv_nlin r)
                   ops emb_in batch_nb_nodes adj_mask in
  let emb_out := cat_dim1 [linear; tmap relu nlinear] in
  GraphConv.ResGOpConv_forward mean_with_padding r ops emb_in batch_nb_nodes adj_mask
    = (if (0 <? count_nan linear) || (0 <? count_nan nlinear) || (0 <? count_nan emb_out)
       then Raise AssertionError else Ok emb_out)
  /\ GnnGraphConv.ResGOpConv_forward r' ops emb_in batch_nb_nodes adj_mask
    = match GnnGraphConv.GraphOpConv_forward (GnnGraphConv.gconv_lin r')
              ops emb_in batch_nb_nodes adj_mask,
            GnnGraphConv.GraphOpConv_forward (GnnGraphConv.gconv_nlin r')
              ops emb_in batch_nb_nodes adj_mask with
      | Ok linear', Ok nlinear' =>
          let emb_out' := cat_dim2 [linear'; tmap relu nlinear'] in
          if (0 <? count_nan linear') || (0 <? count_nan nlinear') || (0 <? count_nan emb_out')
          then Raise AssertionError else Ok emb_out'
      | _, _ => Raise NameError
      end
  /\ (forall out,
        GraphConv.ResGOpConv_forward mean_with_padding r ops emb_in batch_nb_nodes adj_mask
          = Ok out -> count_nan out = 0)
  /\ (forall out,
        GnnGraphConv.ResGOpConv_forward r' ops emb_in batch_nb_nodes adj_mask = Ok out ->
        count_nan out = 0).
Proof.
  intros linear nlinear emb_out.
  split; [|split; [|split]].
  - unfold GraphConv.ResGOpConv_forward, GraphConv.check_for_nan, bind.
    fold linear nlinear. fold emb_out.
    destruct (0 <? count_nan linear); [reflexivity|].
    destruct (0 <? count_nan nlinear); [reflexivity|].
    reflexivity.
  - unfold GnnGraphConv.ResGOpConv_forward, GnnGraphConv.check_for_nan.
    destruct ops as [ops|]; [|reflexivity].
    unfold GnnGraphConv.GraphOpConv_forward. simpl.
    destruct (0 <? count_nan _); [reflexivity|].
    destruct (0 <? count_nan _); [reflexivity|].
    reflexivity.
  - intros out. unfold GraphConv.ResGOpConv_forward, GraphConv.check_for_nan, bind.
    destruct (0 <? count_nan _); [discriminate|].
    destruct (0 <? count_nan _); [discriminate|].
    destruct (0 <? count_nan _) eqn:E; [discriminate|].
    intros Hout. injection Hout as <-. apply Nat.ltb_ge in E. apply Nat.le_0_r. exact E.
  - intros out. unfold GnnGraphConv.ResGOpConv_forward, GnnGraphConv.check_for_nan, bind.
    destruct (GnnGraphConv.GraphOpConv_forward (GnnGraphConv.gconv_lin r') _ _ _ _)
      as [linear'|e]; [|discriminate].
    destruct (0 <? count_nan linear'); [discriminate|].
    destruct (GnnGraphConv.GraphOpConv_forward (GnnGraphConv.gconv_nlin r') _ _ _ _)
      as [nlinear'|e]; [|discriminate].
    destruct (0 <? count_nan nlinear'); [discriminate|].
    destruct (0 <? count_nan _) eqn:E; [discriminate|].
    intros Hout. injection Hout as <-. apply Nat.ltb_ge in E. apply Nat.le_0_r. exact E.
Qed.
End Residual.

Import IEEE32 Samples.

(** A stream of initial parameters: the draws 0, 1, 2, ... *)
Definition draws (i : nat) : float32 := fz (Z.of_nat i).

(** A layer built by the constructor returns: one feature map in, the swap
    as operator, two feature maps out. *)
Lemma ResGOpConv_feature_maps_witness :
  exists r seed',
    GraphConv.ResGOpConv_init draws 1 2 1 0 = Ok (r, seed')
    /\ GraphConv.ResGOpConv_forward mean_with_padding r (Some ops2_single) emb_row [2] no_mask
       = Ok [[[f32_div (fz 17) (fz 2); f32_div (fz 13) (fz 2)];
              [f32_div (fz 61) (fz 2); f32_div (fz 57) (fz 2)]]].
Proof.
  destruct (@ResGOpConv_feature_maps float32 f32_scalar (tensor3 float32) mean_with_padding
              draws 1 1 1 0)
    as (_ & _ & (r & seed' & Hinit & Hlin & Hnlin & Hfw) & _).
  exists r, seed'. split; [exact Hinit|].
  destruct (Hfw (Some ops2_single) emb_row [2] no_mask 1 2)
    as (_ & _ & _ & Hret & _).
  - exact Nat.lt_0_1.
  - exact Nat.lt_0_1.
  - exact Nat.lt_0_2.
  - split; [reflexivity|]. repeat constructor.
  - split; [reflexivity|]. repeat constructor.
  - split; [exact Nat.lt_0_1|]. split; [reflexivity|]. repeat constructor.
  - rewrite Hret.
    + rewrite Hlin, Hnlin. vm_compute. reflexivity.
    + rewrite Hlin. vm_compute. reflexivity.
    + rewrite Hnlin. vm_compute. reflexivity.
    + rewrite Hlin, Hnlin. vm_compute. reflexivity.
Defined.

(** A forward pass of a hand-built layer: two feature maps out of one. *)
Example ResGOpConv_forward_returns :
  GraphConv.ResGOpConv_forward mean_with_padding res_diff (Some ops2_single) emb_row [2] no_mask
  = Ok [[[fz (-1); fz 1]; [fz 0; fz 1]]].
Proof. vm_compute. reflexivity. Qed.

(** C5 as stated fails: nothing here is a NaN (nor even infinite), yet the
    linear branch 2 * x - 2 * mean overflows to inf - inf and the forward pass
    aborts. *)
Lemma ResGOpConv_forward_aborts_without_nan_input :
  count_nan emb_big = 0 /\ count_nan ops_one = 0
  /\ count_nan (GraphConv.weight conv_diff) = 0 /\ count_nan (GraphConv.bias conv_diff) = 0
  /\ GraphConv.ResGOpConv_forward mean_with_padding res_diff (Some ops_one) emb_big [1] no_mask
     = Raise AssertionError.
Proof. vm_compute. repeat split. Qed.

End ResidualFacts.

(** ** Facts on script/model/kernels/general.py *)

Module KernelFacts.
Import TensorFacts RealScalar Kernels.
Local Open Scope R_scope.

Definition all_entries (P : R -> Prop) (t : tensor3 R) : Prop :=
  Forall (Forall (Forall P)) t.

(** The entry (i, j) of graph [g], read with a default that no kernel
    produces where the index is out of range. *)
Definition entry (t : tensor3 R) (g i j : nat) (d : R) : R :=
  nth j (nth i (nth g t []) []) d.

Section Lists.
Context {A B C : Type}.

Lemma nth_zip_with (f : A -> B -> C) (l1 : list A) (l2 : list B) (i : nat)
    (d1 : A) (d2 : B) (d : C) :
  (i < length l1)%nat -> (i < length l2)%nat ->
  nth i (zip_with f l1 l2) d = f (nth i l1 d1) (nth i l2 d2).
Proof.
  revert l2 i; induction l1 as [|a l1 IH]; intros [|y l2] [|i] H1 H2; simpl in *; try lia; auto.
  apply IH; lia.
Qed.

Lemma nth_map_in {X Y : Type} (f : X -> Y) (l : list X) (i : nat) (d : Y) (d' : X) :
  (i < length l)%nat -> nth i (map f l) d = f (nth i l d').
Proof.
  revert i; induction l as [|a l IH]; intros [|i] Hi; simpl in *; try lia; auto.
  apply IH; lia.
Qed.

Lemma nth_map_seq (f : nat -> B) (n i : nat) (d : B) :
  (i < n)%nat -> nth i (map f (seq 0 n)) d = f i.
Proof.
  intros Hi. rewrite (@nth_map_in _ _ f (seq 0 n) i d 0%nat) by (now rewrite length_seq).
  now rewrite seq_nth.
Qed.

Lemma Forall_zip_with_l (P : A -> Prop) (Q : C -> Prop) (f : A -> B -> C)
    (l1 : list A) (l2 : list B) :
  (forall a y, P a -> Q (f a y)) -> Forall P l1 -> Forall Q (zip_with f l1 l2).
Proof.
  intros Hf Hl. revert l2; induction Hl as [|a l1 Ha _ IH]; intros [|y l2]; simpl;
    constructor; auto.
Qed.
End Lists.

Lemma all_entries_tmap (P Q : R -> Prop) (f : R -> R) (t : tensor3 R) :
  (forall x, P x -> Q (f x)) -> all_entries P t -> all_entries Q (tmap f t).
Proof.
  intros Hf Ht. unfold all_entries, tmap.
  apply Forall_map. eapply Forall_impl; [|exact Ht]. simpl. intros m Hm.
  apply Forall_map. eapply Forall_impl; [|exact Hm]. simpl. intros row Hrow.
  apply Forall_map. eapply Forall_impl; [|exact Hrow]. simpl. auto.
Qed.

Lemma tmap_shape (f : R -> R) (b r c : nat) (t : tensor3 R) :
  has_shape3 b r c t -> has_shape3 b r c (tmap f t).
Proof.
  intros [Hlen Hall]. unfold tmap. split; [now rewrite length_map|].
  apply Forall_map. eapply Forall_impl; [|exact Hall]. simpl.
  intros m [Hm Hrows]. split; [now rewrite length_map|].
  apply Forall_map. eapply Forall_impl; [|exact Hrows]. simpl.
  intros row Hrow. now rewrite length_map.
Qed.

Lemma shape3_nth (b r c : nat) (t : tensor3 R) (g : nat) :
  has_shape3 b r c t -> (g < b)%nat -> has_shape2 r c (nth g t []).
Proof.
  intros [Hlen Hall] Hg. rewrite Forall_forall in Hall.
  apply Hall, nth_In. lia.
Qed.

Lemma shape2_nth (r c : nat) (m : matrix R) (i : nat) :
  has_shape2 r c m -> (i < r)%nat -> length (nth i m []) = c.
Proof.
  intros [Hlen Hall] Hi. rewrite Forall_forall in Hall.
  apply Hall, nth_In. lia.
Qed.

Lemma shape3_size1 (b r c : nat) (t : tensor3 R) :
  (0 < b)%nat -> has_shape3 b r c t -> size1 t = r.
Proof.
  intros Hb [Hlen Hall]. unfold size1.
  destruct t as [|m t]; simpl in *; [lia|].
  inversion Hall as [|? ? [Hm _] _]; subst. reflexivity.
Qed.

(** *** The Gaussian kernel *)

Lemma gaussian_unit_interval (d s : R) : 0 <= d -> 0 <= exp ((- d) * s ^ 2) <= 1.
Proof.
  intros Hd. split.
  - left. apply exp_pos.
  - rewrite <- exp_0. destruct (Req_dec ((- d) * s ^ 2) 0) as [E|E].
    + rewrite E. apply Rle_refl.
    + left. apply exp_increasing.
      assert (0 <= s ^ 2) by (simpl; nra). nra.
Qed.

Lemma make_diag_mask_length (n : nat) : length (make_diag_mask n) = n.
Proof. unfold make_diag_mask. now rewrite length_map, length_seq. Qed.

Lemma make_diag_mask_nth (n i : nat) :
  (i < n)%nat -> nth i (make_diag_mask n) [] = map (fun j => Nat.eqb i j) (seq 0 n).
Proof.
  intros Hi. unfold make_diag_mask.
  now rewrite (nth_map_seq (fun i0 => map (fun j => Nat.eqb i0 j) (seq 0 n))).
Qed.

Lemma masked_fill_diag (n : nat) (m : matrix R) (i : nat) (d : R) :
  has_shape2 n n m -> (i < n)%nat ->
  nth i (nth i (masked_fill m (make_diag_mask n) 0) []) d = 0.
Proof.
  intros Hm Hi. unfold masked_fill.
  pose proof (shape2_nth Hm Hi) as Hrow. destruct Hm as [Hlen _].
  rewrite (nth_zip_with _ _ _ [] [] []) by (rewrite ?make_diag_mask_length; lia).
  rewrite make_diag_mask_nth by assumption.
  rewrite (nth_zip_with _ _ _ d false d) by (rewrite ?length_map, ?length_seq; lia).
  rewrite nth_map_seq by assumption.
  now rewrite Nat.eqb_refl.
Qed.

Lemma masked_fill_entry (n : nat) (m : matrix R) (i j : nat) (d : R) :
  has_shape2 n n m -> (i < n)%nat -> (j < n)%nat ->
  nth j (nth i (masked_fill m (make_diag_mask n) 0) []) d
  = if Nat.eqb i j then 0 else nth j (nth i m []) d.
Proof.
  intros Hm Hi Hj. unfold masked_fill.
  pose proof (shape2_nth Hm Hi) as Hrow. destruct Hm as [Hlen _].
  rewrite (nth_zip_with _ _ _ [] [] []) by (rewrite ?make_diag_mask_length; lia).
  rewrite make_diag_mask_nth by assumption.
  rewrite (nth_zip_with _ _ _ d false d) by (rewrite ?length_map, ?length_seq; lia).
  now rewrite nth_map_seq by assumption.
Qed.

Lemma masked_fill_shape (n : nat) (m : matrix R) :
  has_shape2 n n m -> has_shape2 n n (masked_fill m (make_diag_mask n) 0).
Proof.
  intros [Hlen Hall]. unfold masked_fill. split.
  - rewrite zip_with_length, make_diag_mask_length. lia.
  - apply Forall_zip_with. intros row mask Hrow Hmask.
    rewrite zip_with_length.
    rewrite Forall_forall in Hall. rewrite (Hall row Hrow).
    unfold make_diag_mask in Hmask. apply in_map_iff in Hmask.
    destruct Hmask as (i & <- & _). rewrite length_map, length_seq. lia.
Qed.

Lemma _delete_diag_shape (b n : nat) (t : tensor3 R) :
  has_shape3 b n n t -> has_shape3 b n n (_delete_diag t).
Proof.
  intros Ht. destruct t as [|m0 t0] eqn:Et.
  - exact Ht.
  - rewrite <- Et in *. assert (Hb : (0 < b)%nat) by (destruct Ht as [<- _]; subst; simpl; lia).
    unfold _delete_diag. rewrite (shape3_size1 Hb Ht).
    destruct Ht as [Hlen Hall]. split; [now rewrite length_map|].
    apply Forall_map. eapply Forall_impl; [|exact Hall]. simpl.
    intros m Hm. now apply masked_fill_shape.
Qed.

Lemma _delete_diag_entries (P : R -> Prop) (t : tensor3 R) :
  P 0 -> all_entries P t -> all_entries P (_delete_diag t).
Proof.
  intros H0 Ht. unfold all_entries, _delete_diag.
  apply Forall_map. eapply Forall_impl; [|exact Ht]. simpl. intros m Hm.
  unfold masked_fill.
  apply Forall_zip_with_l with (P := Forall P); [|exact Hm].
  intros row mask Hrow.
  apply Forall_zip_with_l with (P := P); [|exact Hrow].
  intros x [|] Hx; assumption.
Qed.

Lemma _delete_diag_entry (b n : nat) (t : tensor3 R) (g i j : nat) (d : R) :
  has_shape3 b n n t -> (g < b)%nat -> (i < n)%nat -> (j < n)%nat ->
  entry (_delete_diag t) g i j d = if Nat.eqb i j then 0 else entry t g i j d.
Proof.
  intros Ht Hg Hi Hj. unfold entry, _delete_diag.
  assert (Hb : (0 < b)%nat) by lia.
  rewrite (shape3_size1 Hb Ht).
  rewrite (@nth_map_in (matrix R) (matrix R)
             (fun m => masked_fill m (make_diag_mask n) 0) t g [] [])
    by (destruct Ht; lia).
  apply masked_fill_entry; try assumption.
  now apply (shape3_nth Ht).
Qed.

Lemma entry_tmap (f : R -> R) (b r c : nat) (t : tensor3 R) (g i j : nat) (d d' : R) :
  has_shape3 b r c t -> (g < b)%nat -> (i < r)%nat -> (j < c)%nat ->
  entry (tmap f t) g i j d = f (entry t g i j d').
Proof.
  intros Ht Hg Hi Hj. unfold entry, tmap.
  pose proof (shape3_nth Ht Hg) as Hm.
  pose proof (shape2_nth Hm Hi) as Hrow.
  destruct Ht as [Hlen _]. destruct Hm as [Hmlen _].
  unfold tensor3, matrix in *.
  rewrite (@nth_map_in (list (list R)) (list (list R)) (map (map f)) t g [] [])
    by lia.
  rewrite (@nth_map_in (list R) (list R) (map f) (nth g t []) i [] [])
    by lia.
  apply nth_map_in. lia.
Qed.

Section GaussianKernel.
Variable sqdist_ : tensor3 R -> tensor3 R.
Variable sqdist_periodic_ : tensor3 R -> tensor3 R.

(** C2.  On an embedding whose squared distances are non-negative and of
    shape (batch, nodes, nodes), the forward pass of [Gaussian] returns
    [exp(- sqdist * sigma ^ 2)] entry by entry, with 0 on the diagonal when
    the kernel was built with [diag=False]; every entry lies in [0, 1], and
    with [diag=False] every diagonal entry of every graph is exactly 0. *)
Theorem Gaussian_forward_unit_interval (k : Gaussian) (emb : tensor3 R) (batch nodes : nat) :
  cls (params k) = PlainGaussian ->
  has_shape3 batch nodes nodes (sqdist sqdist_ sqdist_periodic_ k emb) ->
  all_entries (fun d => 0 <= d) (sqdist sqdist_ sqdist_periodic_ k emb) ->
  exists adj k',
    Gaussian_forward sqdist_ sqdist_periodic_ k emb = Ok (adj, k')
    /\ has_shape3 batch nodes nodes adj
    /\ (forall g i j, (g < batch)%nat -> (i < nodes)%nat -> (j < nodes)%nat ->
          entry adj g i j 2
          = if negb (diag (params k)) && Nat.eqb i j then 0
            else exp ((- entry (sqdist sqdist_ sqdist_periodic_ k emb) g i j 0)
                      * sigma (params k) ^ 2))
    /\ all_entries (fun x => 0 <= x <= 1) adj
    /\ (diag (params k) = false ->
        forall g i, (g < batch)%nat -> (i < nodes)%nat -> entry adj g i i 2 = 0).
Proof.
  intros Hcls Hshape Hpos.
  unfold Gaussian_forward, _apply_norm. rewrite Hcls.
  set (sq := sqdist sqdist_ sqdist_periodic_ k emb) in *.
  assert (Hg_shape : has_shape3 batch nodes nodes (gaussian sq (sigma (params k))))
    by (now apply tmap_shape).
  assert (Hg_unit : all_entries (fun x => 0 <= x <= 1) (gaussian sq (sigma (params k)))).
  { unfold gaussian. eapply all_entries_tmap; [|exact Hpos].
    intros x Hx. now apply gaussian_unit_interval. }
  eexists. eexists. split; [reflexivity|].
  destruct (diag (params k)); cbn [negb andb].
  - split; [exact Hg_shape|]. split; [|split; [exact Hg_unit|discriminate]].
    intros g i j Hg Hi Hj. unfold gaussian.
    exact (entry_tmap (fun d => exp ((- d) * sigma (params k) ^ 2)) 2 0 Hshape Hg Hi Hj).
  - split; [now apply _delete_diag_shape|]. split; [|split].
    + intros g i j Hg Hi Hj.
      rewrite (_delete_diag_entry 2 Hg_shape) by assumption.
      destruct (Nat.eqb i j); [reflexivity|].
      unfold gaussian.
      exact (entry_tmap (fun d => exp ((- d) * sigma (params k) ^ 2)) 2 0 Hshape Hg Hi Hj).
    + apply _delete_diag_entries; [lra|assumption].
    + intros _ g i Hg Hi.
      rewrite (_delete_diag_entry 2 Hg_shape) by assumption.
      now rewrite Nat.eqb_refl.
Qed.
End GaussianKernel.

(** *** The softmax normalisation *)

Section Chunks.
Context {B : Type}.

Lemma concat_length_uniform (n : nat) (l : list (list B)) :
  Forall (fun x => length x = n) l -> length (concat l) = (length l * n)%nat.
Proof.
  induction 1 as [|x l Hx _ IH]; simpl; auto.
  rewrite length_app, IH, Hx. reflexivity.
Qed.

Lemma slice_concat (n k : nat) (l : list (list B)) :
  Forall (fun x => length x = n) l -> (k < length l)%nat ->
  slice (k * n) n (concat l) = nth k l [].
Proof.
  intros Hall. revert k. induction Hall as [|x l Hx _ IH]; intros k Hk; simpl in Hk; [lia|].
  unfold slice in *. destruct k as [|k]; simpl.
  - rewrite firstn_app, Hx, Nat.sub_diag. simpl.
    rewrite app_nil_r. apply firstn_all2. lia.
  - rewrite skipn_app, Hx.
    rewrite (skipn_all2 x) by lia. simpl.
    replace (n + k * n - n)%nat with (k * n)%nat by lia.
    apply IH. lia.
Qed.

Lemma map_nth_seq {X : Type} (l : list X) (d : X) :
  map (fun k => nth k l d) (seq 0 (length l)) = l.
Proof.
  induction l as [|x l IH]; simpl; auto.
  f_equal. rewrite <- seq_shift, map_map. exact IH.
Qed.

(** Cutting the concatenation of [b] pieces of [n] elements into [b] chunks
    gives the pieces back. *)
Lemma chunk_concat (b n : nat) (l : list (list B)) :
  (0 < b)%nat -> (0 < n)%nat -> length l = b -> Forall (fun x => length x = n) l ->
  chunk_dim0 b (concat l) = l.
Proof.
  intros Hb Hn Hlen Hall. unfold chunk_dim0.
  rewrite (concat_length_uniform Hall), Hlen.
  rewrite (div_ceil_mul n Hb).
  rewrite (Nat.mul_comm b n), (div_ceil_mul b Hn).
  transitivity (map (fun k => nth k l []) (seq 0 b)).
  - apply map_ext_in. intros k Hk. apply in_seq in Hk.
    apply slice_concat; [assumption|lia].
  - rewrite <- Hlen. apply map_nth_seq.
Qed.
End Chunks.

Lemma Rsum_map_div (f : R -> R) (c : R) (l : list R) :
  Rsum (map (fun x => f x / c) l) = Rsum (map f l) / c.
Proof.
  induction l as [|x l IH]; simpl.
  - unfold Rdiv. now rewrite Rmult_0_l.
  - rewrite IH. unfold Rdiv. ring.
Qed.

Lemma Rsum_exp_pos (l : list R) : l <> [] -> 0 < Rsum (map exp l).
Proof.
  assert (Hnn : forall l', 0 <= Rsum (map exp l')).
  { induction l' as [|x l' IH]; simpl; [lra|]. pose proof (exp_pos x). lra. }
  destruct l as [|x l]; [congruence|]. intros _. simpl.
  pose proof (exp_pos x). pose proof (Hnn l). lra.
Qed.

Lemma softmax_row_sum (row : list R) : row <> [] -> Rsum (softmax_row row) = 1.
Proof.
  intros Hne. unfold softmax_row.
  rewrite (Rsum_map_div exp).
  pose proof (Rsum_exp_pos Hne). field. lra.
Qed.

Lemma softmax_row_length (row : list R) : length (softmax_row row) = length row.
Proof. unfold softmax_row. apply length_map. Qed.

(** [_softmax] with [nn.Softmax()] normalises every row of every graph. *)
Lemma _softmax_rows (b n : nat) (t : tensor3 R) :
  (0 < b)%nat -> (0 < n)%nat -> has_shape3 b n n t ->
  _softmax t Softmax = map (map softmax_row) t.
Proof.
  intros Hb Hn [Hlen Hall]. unfold _softmax, Softmax, cat_dim0, size0.
  rewrite concat_map, Hlen.
  apply chunk_concat with (n := n); try assumption.
  - now rewrite length_map.
  - apply Forall_map. eapply Forall_impl; [|exact Hall]. simpl.
    intros m [Hm _]. now rewrite length_map.
Qed.

Section SoftmaxKernel.
Variable sqdist_ : tensor3 R -> tensor3 R.
Variable sqdist_periodic_ : tensor3 R -> tensor3 R.

(** C3.  On an embedding whose squared distances have shape
    (batch, nodes, nodes), the forward pass of [GaussianSoftmax] returns the
    Gaussian adjacency with the softmax applied to every row of every graph:
    flattening the batch into the rows, normalising and cutting the batch
    back changes nothing else.  Every row of every graph sums to 1. *)
Theorem GaussianSoftmax_rows_sum_to_one (k : Gaussian) (emb : tensor3 R) (batch nodes : nat) :
  cls (params k) = SoftmaxGaussian ->
  (0 < batch)%nat -> (0 < nodes)%nat ->
  has_shape3 batch nodes nodes (sqdist sqdist_ sqdist_periodic_ k emb) ->
  let adj0 := gaussian (sqdist sqdist_ sqdist_periodic_ k emb) (sigma (params k)) in
  let adj1 := if negb (diag (params k)) then _delete_diag adj0 else adj0 in
  exists adj k',
    Gaussian_forward sqdist_ sqdist_periodic_ k emb = Ok (adj, k')
    /\ adj = map (map softmax_row) adj1
    /\ has_shape3 batch nodes nodes adj
    /\ Forall (Forall (fun row => Rsum row = 1)) adj.
Proof.
  intros Hcls Hb Hn Hshape adj0 adj1.
  assert (H0 : has_shape3 batch nodes nodes adj0) by (now apply tmap_shape).
  assert (H1 : has_shape3 batch nodes nodes adj1).
  { unfold adj1. destruct (negb (diag (params k))); [now apply _delete_diag_shape|exact H0]. }
  unfold Gaussian_forward, _apply_norm. rewrite Hcls.
  fold adj0. fold adj1.
  rewrite (_softmax_rows Hb Hn H1).
  eexists. eexists. split; [reflexivity|]. split; [reflexivity|].
  destruct H1 as [Hlen Hall]. split; [split|].
  - now rewrite length_map.
  - apply Forall_map. eapply Forall_impl; [|exact Hall]. simpl.
    intros m [Hm Hrows]. split; [now rewrite length_map|].
    apply Forall_map. eapply Forall_impl; [|exact Hrows]. simpl.
    intros row Hrow. now rewrite softmax_row_length.
  - apply Forall_map. eapply Forall_impl; [|exact Hall]. simpl.
    intros m [Hm Hrows].
    apply Forall_map. eapply Forall_impl; [|exact Hrows]. simpl.
    intros row Hrow. apply softmax_row_sum.
    intros ->. simpl in Hrow. lia.
Qed.
End SoftmaxKernel.

(** *** Saving and updating *)

Section Caching.
Variable sqdist_ : tensor3 R -> tensor3 R.
Variable sqdist_periodic_ : tensor3 R -> tensor3 R.

Lemma save_adj_layerwise {P : Type} (k : Adj_Kernel P) (adj : tensor3 R) :
  layerwise k = true -> save_adj k adj = k.
Proof. intros Hl. unfold save_adj. now rewrite Hl. Qed.

Lemma update_layerwise {P Args : Type}
    (forward : Adj_Kernel P -> Args -> result (tensor3 R * Adj_Kernel P))
    (k : Adj_Kernel P) (args : Args) :
  layerwise k = true -> update forward k args = forward k args.
Proof. intros Hl. unfold update. now rewrite Hl. Qed.

Lemma update_cached {P Args : Type}
    (forward : Adj_Kernel P -> Args -> result (tensor3 R * Adj_Kernel P))
    (k : Adj_Kernel P) (adj : tensor3 R) (args : Args) :
  layerwise k = false -> update forward (save_adj k adj) args = Ok (adj, save_adj k adj).
Proof. intros Hl. unfold update, save_adj. rewrite Hl. simpl. now rewrite Hl. Qed.

(** The kernels whose forward pass calls [save_adj] cache what they return. *)
Lemma Gaussian_forward_caches (k : Gaussian) (emb emb' : tensor3 R) :
  layerwise k = false ->
  exists adj k',
    Gaussian_forward sqdist_ sqdist_periodic_ k emb = Ok (adj, k')
    /\ adj_matrix k' = Some adj
    /\ update (Gaussian_forward sqdist_ sqdist_periodic_) k' emb' = Ok (adj, k').
Proof.
  intros Hl. unfold Gaussian_forward.
  eexists. eexists. split; [reflexivity|].
  split; [unfold save_adj; now rewrite Hl|].
  now apply update_cached.
Qed.

Lemma MLPdirected_forward_caches (k : MLPdirected) (args args' : tensor3 R * tensor3 R * nat) :
  layerwise k = false ->
  exists adj k',
    MLPdirected_forward k args = Ok (adj, k')
    /\ adj_matrix k' = Some adj
    /\ update MLPdirected_forward k' args' = Ok (adj, k').
Proof.
  intros Hl. destruct args as [[adj_in emb_in] layer]. unfold MLPdirected_forward.
  eexists. eexists. split; [reflexivity|].
  split; [unfold save_adj; now rewrite Hl|].
  now apply update_cached.
Qed.

Lemma Identity_forward_caches (layerwise0 : bool) (args args' : tensor3 R * tensor3 R) :
  exists adj k',
    Identity_forward (Identity_init layerwise0) args = Ok (adj, k')
    /\ adj_matrix k' = Some adj
    /\ update Identity_forward k' args' = Ok (adj, k').
Proof.
  destruct args as [adj_in emb_in]. unfold Identity_forward.
  eexists. eexists. split; [reflexivity|]. split; reflexivity.
Qed.

(** C8 at the kernels that miss the call.  [MPNNdirected.forward] and
    [DirectedGaussian.forward] return an adjacency without saving it: after
    a forward pass the kernel still has no [adj_matrix], and [update] raises
    instead of returning the adjacency. *)
Theorem directed_kernels_never_cache
    (fmaps0 : nat) (v0 : list R) (b0 theta0 sigma1 sigma0 : R)
    (adj_in emb_in : tensor3 R) (idx : nat) :
  (exists adj k',
     MPNNdirected_forward (MPNNdirected_init fmaps0 v0 b0) (adj_in, emb_in) = Ok (adj, k')
     /\ adj_matrix k' = None
     /\ update MPNNdirected_forward k' (adj_in, emb_in) = Raise AttributeError)
  /\ (forall adj k',
        DirectedGaussian_forward sqdist_ sqdist_periodic_
          (DirectedGaussian_init fmaps0 theta0 sigma1 sigma0) (adj_in, emb_in, idx) = Ok (adj, k') ->
        adj_matrix k' = None
        /\ update (DirectedGaussian_forward sqdist_ sqdist_periodic_) k' (adj_in, emb_in, idx)
           = Raise AttributeError).
Proof.
  split.
  - unfold MPNNdirected_forward. eexists. eexists. split; [reflexivity|].
    split; reflexivity.
  - intros adj k'. unfold DirectedGaussian_forward, bind.
    destruct (redistributed_weights adj_in emb_in) as [sw|e]; [|discriminate].
    unfold Gaussian_forward. intros Hk. injection Hk as _ <-.
    split; reflexivity.
Qed.

(** C7 at a batch of two graphs.  The redistribution term of both graphs is
    the one of graph 0, whose summed weights are 1, although those of graph 1
    are 3; and the Gaussian is taken of the distances within [adj_in], not
    within the node embeddings. *)
Theorem DirectedGaussian_forward_first_graph_only (theta0 sigma1 sigma0 : R) (idx : nat) :
  let k := DirectedGaussian_init 1 theta0 sigma1 sigma0 in
  let adj_in := KernelSamples.adj_two_graphs in
  let emb_in := KernelSamples.emb_two_graphs in
  redistributed_weights adj_in emb_in = Ok [[[1; 1]; [1; 1]]; [[1; 1]; [1; 1]]]
  /\ get_summed_weights (nth 1%nat adj_in []) = [3; 3]
  /\ exists k',
       DirectedGaussian_forward sqdist_ sqdist_periodic_ k (adj_in, emb_in, idx)
       = Ok (zip_with (zip_with (zip_with (fun a s => theta0 * a + (1 - theta0) * s)))
               (gaussian (sqdist_ adj_in) sigma0)
               [[[1; 1]; [1; 1]]; [[1; 1]; [1; 1]]],
             k').
Proof.
  intros k adj_in emb_in.
  assert (Hsw : get_summed_weights (nth 0%nat adj_in []) = [1; 1]).
  { unfold get_summed_weights, adj_in, KernelSamples.adj_two_graphs. simpl.
    repeat f_equal; field. }
  assert (Hred : redistributed_weights adj_in emb_in = Ok [[[1; 1]; [1; 1]]; [[1; 1]; [1; 1]]]).
  { unfold redistributed_weights. rewrite Hsw. reflexivity. }
  split; [exact Hred|]. split.
  - unfold get_summed_weights, adj_in, KernelSamples.adj_two_graphs. simpl.
    repeat f_equal; field.
  - unfold DirectedGaussian_forward. rewrite Hred. simpl.
    eexists. reflexivity.
Qed.
End Caching.

Import KernelSamples.

Lemma GaussianSoftmax_rows_sum_to_one_witness :
  let k := GaussianSoftmax_init 1 true false false false in
  let adj0 := gaussian (sqdist sqdist_euclid sqdist_euclid k emb_two_graphs) (sigma (params k)) in
  let adj1 := if negb (diag (params k)) then _delete_diag adj0 else adj0 in
  exists adj k',
    Gaussian_forward sqdist_euclid sqdist_euclid k emb_two_graphs = Ok (adj, k')
    /\ adj = map (map softmax_row) adj1
    /\ has_shape3 2 2 2 adj
    /\ Forall (Forall (fun row => Rsum row = 1)) adj.
Proof.
  apply (@GaussianSoftmax_rows_sum_to_one sqdist_euclid sqdist_euclid
           (GaussianSoftmax_init 1 true false false false) emb_two_graphs 2 2).
  - reflexivity.
  - lia.
  - lia.
  - split; [reflexivity|]. repeat constructor.
Defined.

Lemma Gaussian_forward_unit_interval_witness :
  let k := Gaussian_init 1 false false false false in
  exists adj k',
    Gaussian_forward sqdist_euclid sqdist_euclid k emb_pair = Ok (adj, k')
    /\ has_shape3 1 2 2 adj
    /\ (forall g i j, (g < 1)%nat -> (i < 2)%nat -> (j < 2)%nat ->
          entry adj g i j 2
          = if negb (diag (params k)) && Nat.eqb i j then 0
            else exp ((- entry (sqdist sqdist_euclid sqdist_euclid k emb_pair) g i j 0)
                      * sigma (params k) ^ 2))
    /\ all_entries (fun x => 0 <= x <= 1) adj
    /\ (diag (params k) = false ->
        forall g i, (g < 1)%nat -> (i < 2)%nat -> entry adj g i i 2 = 0).
Proof.
  apply (@Gaussian_forward_unit_interval sqdist_euclid sqdist_euclid
           (Gaussian_init 1 false false false false) emb_pair 1 2).
  - reflexivity.
  - split; [reflexivity|]. repeat constructor.
  - repeat constructor; simpl; nra.
Defined.

End KernelFacts.

(** ** Facts on [GraphNorm] *)

Module GraphNormFacts.
Import TensorFacts RealScalar GraphNormR.
Local Open Scope R_scope.

Lemma zip_with_repeat_r {A B C : Type} (f : A -> B -> C) (l : list A) (y : B) :
  zip_with f l (repeat y (length l)) = map (fun x => f x y) l.
Proof. induction l as [|a l IH]; simpl; auto. now rewrite IH. Qed.

Lemma zip_with_same {A B C D : Type} (f : B -> C -> D) (g : A -> B) (h : A -> C) (l : list A) :
  zip_with f (map g l) (map h l) = map (fun x => f (g x) (h x)) l.
Proof. induction l as [|a l IH]; simpl; auto. now rewrite IH. Qed.

Lemma zip_with_same_l {A B C : Type} (f : A -> B -> C) (h : A -> B) (l : list A) :
  zip_with f l (map h l) = map (fun x => f x (h x)) l.
Proof. induction l as [|a l IH]; simpl; auto. now rewrite IH. Qed.

Lemma shape3_size2 (b r c : nat) (t : tensor3 R) :
  (0 < b)%nat -> (0 < r)%nat -> has_shape3 b r c t -> size2 t = c.
Proof.
  intros Hb Hr [Hlen Hall]. unfold size2.
  destruct t as [|m t]; simpl in *; [lia|].
  inversion Hall as [|? ? [Hm Hrows] _]; subst.
  destruct m as [|row m]; simpl in *; [lia|].
  now inversion Hrows.
Qed.

(** *** Moments of a normalised row *)

Lemma Rsum_map_affine (a c : R) (row : list R) :
  Rsum (map (fun x => (x - a) / c) row) = (Rsum row - INR (length row) * a) / c.
Proof.
  induction row as [|x row IH].
  - simpl. unfold Rdiv. ring.
  - change (Rsum (map (fun x0 => (x0 - a) / c) (x :: row)))
      with ((x - a) / c + Rsum (map (fun x0 => (x0 - a) / c) row)).
    rewrite IH. change (Rsum (x :: row)) with (x + Rsum row).
    change (length (x :: row)) with (S (length row)). rewrite S_INR.
    unfold Rdiv. ring.
Qed.

Lemma Rsum_map_sq_scale (a c : R) (row : list R) :
  Rsum (map (fun x => ((x - a) / c) ^ 2) row)
  = Rsum (map (fun x => (x - a) ^ 2) row) * (/ c) ^ 2.
Proof.
  induction row as [|x row IH]; unfold Rsum in *; simpl in *; [ring|].
  rewrite IH. unfold Rdiv. ring.
Qed.

Lemma Rsum_sq_nonneg (a : R) (row : list R) : 0 <= Rsum (map (fun x => (x - a) ^ 2) row).
Proof.
  induction row as [|x row IH]; unfold Rsum in *; cbn [map fold_right] in *; [lra|].
  pose proof (pow2_ge_0 (x - a)). lra.
Qed.

Lemma Rsum_sq_zero (a : R) (row : list R) :
  Rsum (map (fun x => (x - a) ^ 2) row) = 0 -> Forall (fun x => x = a) row.
Proof.
  induction row as [|x row IH]; intros Hsum; constructor;
    pose proof (Rsum_sq_nonneg a row) as Hnn; unfold Rsum in *;
    cbn [map fold_right] in *; pose proof (pow2_ge_0 (x - a)) as Hx.
  - assert (Hz : (x - a) ^ 2 = 0) by lra.
    apply Rminus_diag_uniq. simpl in Hz.
    apply Rmult_integral in Hz. destruct Hz as [Hz|Hz]; [exact Hz|lra].
  - apply IH. lra.
Qed.

Lemma INR_length_pos (row : list R) : row <> [] -> 0 < INR (length row).
Proof.
  destruct row as [|x row]; [congruence|]. intros _.
  apply lt_0_INR. simpl. lia.
Qed.

Lemma variance_unfold (row : list R) :
  variance row = Rsum (map (fun x => (x - mean row) ^ 2) row) / INR (length row).
Proof. unfold variance. unfold mean at 1. now rewrite length_map. Qed.

Lemma variance_nonneg (row : list R) : row <> [] -> 0 <= variance row.
Proof.
  intros Hne. rewrite variance_unfold.
  pose proof (INR_length_pos Hne) as Hn.
  pose proof (Rsum_sq_nonneg (mean row) row) as Hs.
  apply Rmult_le_pos; [exact Hs|]. left. now apply Rinv_0_lt_compat.
Qed.

Lemma mean_normalized (c : R) (row : list R) :
  row <> [] -> mean (map (fun x => (x - mean row) / c) row) = 0.
Proof.
  intros Hne. pose proof (INR_length_pos Hne) as Hn.
  unfold mean at 1. rewrite Rsum_map_affine, length_map.
  unfold mean. unfold Rdiv.
  replace (Rsum row - INR (length row) * (Rsum row * / INR (length row))) with 0
    by (field; lra).
  ring.
Qed.

Lemma variance_normalized (c : R) (row : list R) :
  row <> [] ->
  variance (map (fun x => (x - mean row) / c) row) = variance row * (/ c) ^ 2.
Proof.
  intros Hne. rewrite !variance_unfold.
  rewrite (mean_normalized c Hne), map_map, length_map.
  replace (map (fun x => ((x - mean row) / c - 0) ^ 2) row)
    with (map (fun x => ((x - mean row) / c) ^ 2) row)
    by (apply map_ext; intros x; ring).
  rewrite Rsum_map_sq_scale. unfold Rdiv. ring.
Qed.

Lemma ratio_bounds (s e : R) :
  0 < s -> 0 < e ->
  1 - 2 * e / s <= s ^ 2 * (/ (s + e)) ^ 2 < 1.
Proof.
  intros Hs He.
  assert (Hse : 0 < s + e) by lra.
  assert (Hinv : 0 < / (s + e)) by (now apply Rinv_0_lt_compat).
  assert (Hr : s * / (s + e) = 1 - e * / (s + e)) by (field; lra).
  assert (He1 : 0 < e * / (s + e)) by (now apply Rmult_lt_0_compat).
  assert (He2 : e * / (s + e) < e * / s).
  { apply Rmult_lt_compat_l; [exact He|].
    apply Rinv_lt_contravar; nra. }
  assert (He3 : e * / (s + e) < 1).
  { apply (Rmult_lt_reg_r (s + e)); [exact Hse|].
    rewrite Rmult_assoc, Rinv_l by lra. lra. }
  replace (s ^ 2 * (/ (s + e)) ^ 2) with ((s * / (s + e)) ^ 2) by ring.
  rewrite Hr. unfold Rdiv.
  set (q := e * / (s + e)) in *. set (p := e * / s) in *.
  replace (2 * e * / s) with (2 * p) by (unfold p; ring).
  split; nra.
Qed.

Lemma mean_pair (x y : R) : mean [x; y] = (x + y) / 2.
Proof. unfold mean, Rsum. simpl. field. Qed.

Lemma variance_opposite_pair (x : R) : variance [x; - x] = x ^ 2.
Proof.
  unfold variance. rewrite (mean_pair x (- x)).
  cbn [map]. rewrite mean_pair. field.
Qed.

(** *** Shapes and [expand_as] *)

Lemma map_const_seq {A : Type} (x : A) (s n : nat) :
  map (fun _ : nat => x) (seq s n) = repeat x n.
Proof. revert s; induction n as [|n IH]; intros s; simpl; [reflexivity|]. now rewrite IH. Qed.

(** The sizes [mean(2)] leaves. *)
Lemma mean_dim2_sizes (b f n : nat) (t : tensor3 R) :
  (0 < b)%nat -> has_shape3 b f n t ->
  length (mean_dim2 t) = b /\ length (hd [] (mean_dim2 t)) = f.
Proof.
  intros Hb [Hlen Hall]. unfold mean_dim2. rewrite length_map. split; [exact Hlen|].
  destruct t as [|m t]; simpl in *; [lia|].
  inversion Hall as [|? ? [Hm _] _]; subst. now rewrite length_map.
Qed.

Lemma shape3_sizes01 (b f n : nat) (t : tensor3 R) :
  (0 < b)%nat -> has_shape3 b f n t -> size0 t = b /\ size1 t = f.
Proof.
  intros Hb [Hlen Hall]. unfold size0, size1. split; [exact Hlen|].
  destruct t as [|m t]; simpl in *; [lia|].
  now inversion Hall as [|? ? [Hm _] _].
Qed.

Lemma fits_spec (size target : nat) :
  fits size target = true <-> (size = target \/ size = 1%nat).
Proof.
  unfold fits. rewrite Bool.orb_true_iff, !Nat.eqb_eq. reflexivity.
Qed.

(** A matrix of shape (batch, fm) is expanded to (batch, fm, nodes) only
    when [batch] is [fm] or 1 and [fm] is [nodes] or 1. *)
Lemma expand_as2_raises (m : matrix R) (b f n : nat) :
  length m = b -> length (hd [] m) = f ->
  ~ ((b = f \/ b = 1%nat) /\ (f = n \/ f = 1%nat)) ->
  expand_as2 m b f n = Raise RuntimeError.
Proof.
  intros Hr Hc Hbad. unfold expand_as2, expand_as3, size0, size1, size2.
  cbn [length hd]. rewrite Hr, Hc.
  destruct (fits b f) eqn:E1; destruct (fits f n) eqn:E2;
    rewrite ?Bool.andb_false_r; cbn [andb]; try reflexivity.
  exfalso. apply Hbad. now rewrite <- !fits_spec.
Qed.

(** One graph with one feature map: the single mean goes to every node. *)
Lemma expand_as2_single (x : R) (n : nat) :
  expand_as2 [[x]] 1 1 n = Ok [[repeat x n]].
Proof.
  unfold expand_as2, expand_as3, size0, size1, size2. cbn [length hd].
  unfold fits. rewrite !Nat.eqb_refl, !Bool.orb_true_r. cbn [orb andb seq map].
  unfold pick at 2 3. rewrite Nat.eqb_refl. cbn [nth].
  f_equal. f_equal. f_equal.
  rewrite <- (map_const_seq x 0 n).
  apply map_ext_in. intros k Hk. apply in_seq in Hk. unfold pick.
  destruct (Nat.eqb_spec 1 n) as [<-|_]; [|reflexivity].
  assert (k = 0%nat) as -> by lia. reflexivity.
Qed.

Lemma normalized_single_row (eps : R) (row : list R) :
  row <> [] -> normalized eps [[row]] = Ok [[normalized_row eps row]].
Proof.
  intros Hne. unfold normalized, mean_dim2, tmap, tzip, size0, size1, size2.
  cbn [length hd map]. rewrite expand_as2_single. cbn [bind zip_with map].
  rewrite zip_with_repeat_r. rewrite expand_as2_single. cbn [bind zip_with map].
  rewrite <- (length_map (fun x => x - mean row) row).
  rewrite map_repeat, zip_with_repeat_r, !map_map.
  unfold normalized_row, variance. reflexivity.
Qed.

(** One graph with two feature maps on two nodes: the entry of node k is
    centred by the mean of feature map k, and divided by the deviation the
    code computes for feature map k. *)
Lemma normalized_two_maps (eps a b c d : R) :
  let m0 := mean [a; b] in
  let m1 := mean [c; d] in
  let v0 := mean [(a - m0) ^ 2; (b - m1) ^ 2] in
  let v1 := mean [(c - m0) ^ 2; (d - m1) ^ 2] in
  let s0 := sqrt (v0 + (if Req_dec_T v0 0 then 1 else 0)) in
  let s1 := sqrt (v1 + (if Req_dec_T v1 0 then 1 else 0)) in
  normalized eps [[[a; b]; [c; d]]]
  = Ok [[[(a - m0) / (s0 + eps); (b - m1) / (s1 + eps)];
         [(c - m0) / (s0 + eps); (d - m1) / (s1 + eps)]]].
Proof. reflexivity. Qed.

(** C6.  [emb.mean(2)] has shape (batch, fm), and [expand_as(emb)] aligns
    it with the last two dimensions of the embedding, (fm, nodes).  So the
    forward pass raises unless [batch] is [fm] or 1 and [fm] is [nodes] or 1;
    and where it returns, as on one graph with two feature maps on two nodes,
    the entry of node k is centred by the mean of feature map k, not by the
    mean of its own feature map.  On the rows (1, -1) and (10, 30), both of
    nonzero variance, the first output row has a mean below -9/10, where the
    normalisation of the row by its own mean and variance has mean 0. *)
Theorem GraphNorm_forward_wrong_axis :
  (forall (g : GraphNorm) (emb : tensor3 R) (batch fm nodes : nat),
     (0 < batch)%nat -> (0 < fm)%nat -> (0 < nodes)%nat ->
     has_shape3 batch fm nodes emb ->
     ~ ((batch = fm \/ batch = 1%nat) /\ (fm = nodes \/ fm = 1%nat)) ->
     normalized (epsilon g) emb = Raise RuntimeError
     /\ GraphNorm_forward g emb = Raise RuntimeError)
  /\ (forall eps a b c d : R,
        let m0 := mean [a; b] in
        let m1 := mean [c; d] in
        let v0 := mean [(a - m0) ^ 2; (b - m1) ^ 2] in
        let v1 := mean [(c - m0) ^ 2; (d - m1) ^ 2] in
        let s0 := sqrt (v0 + (if Req_dec_T v0 0 then 1 else 0)) in
        let s1 := sqrt (v1 + (if Req_dec_T v1 0 then 1 else 0)) in
        normalized eps [[[a; b]; [c; d]]]
        = Ok [[[(a - m0) / (s0 + eps); (b - m1) / (s1 + eps)];
               [(c - m0) / (s0 + eps); (d - m1) / (s1 + eps)]]])
  /\ variance [1; -1] = 1 /\ variance [10; 30] = 100
  /\ normalized (epsilon sample_norm) emb_two_maps
     = Ok [[[1 / (sqrt 221 + 1 / 100000); -21 / (10 + 1 / 100000)];
            [10 / (sqrt 221 + 1 / 100000); 10 / (10 + 1 / 100000)]]]
  /\ mean [1 / (sqrt 221 + 1 / 100000); -21 / (10 + 1 / 100000)] < - (9 / 10)
  /\ mean (normalized_row (epsilon sample_norm) [1; -1]) = 0.
Proof.
  split; [|split; [exact normalized_two_maps|split; [|split; [|split; [|split]]]]].
  - intros g emb batch fm nodes Hb Hf Hn Hshape Hbad.
    assert (Hnorm : normalized (epsilon g) emb = Raise RuntimeError).
    { unfold normalized.
      destruct (shape3_sizes01 Hb Hshape) as [-> ->].
      rewrite (shape3_size2 Hb Hf Hshape).
      destruct (mean_dim2_sizes Hb Hshape) as [Hr Hc].
      now rewrite (@expand_as2_raises (mean_dim2 emb) batch fm nodes Hr Hc Hbad). }
    split; [exact Hnorm|].
    unfold GraphNorm_forward. now rewrite Hnorm.
  - unfold variance. rewrite (mean_pair 1 (-1)). cbn [map]. rewrite mean_pair. field.
  - unfold variance. rewrite (mean_pair 10 30). cbn [map]. rewrite mean_pair. field.
  - unfold emb_two_maps. rewrite normalized_two_maps. cbv zeta.
    rewrite (mean_pair 1 (-1)), (mean_pair 10 30).
    rewrite !mean_pair.
    replace (((1 - (1 + -1) / 2) ^ 2 + (-1 - (10 + 30) / 2) ^ 2) / 2) with 221 by field.
    replace (((10 - (1 + -1) / 2) ^ 2 + (30 - (10 + 30) / 2) ^ 2) / 2) with 100 by field.
    destruct (Req_dec_T 221 0) as [E|_]; [exfalso; lra|].
    destruct (Req_dec_T 100 0) as [E|_]; [exfalso; lra|].
    rewrite !Rplus_0_r.
    replace 100 with (10 ^ 2) by ring. rewrite sqrt_pow2 by lra.
    cbn [epsilon sample_norm].
    apply f_equal.
    apply (f_equal2 cons); [|reflexivity].
    apply (f_equal2 cons).
    + apply (f_equal2 cons); [field_simplify_eq; [ring|]|].
      * pose proof (sqrt_pos 221). lra.
      * apply (f_equal2 cons); [|reflexivity]. field.
    + apply (f_equal2 cons); [|reflexivity].
      apply (f_equal2 cons).
      * f_equal. field.
      * apply (f_equal2 cons); [|reflexivity]. field.
  - rewrite mean_pair.
    assert (Hs : 14 <= sqrt 221).
    { replace 14 with (sqrt (14 ^ 2)) by (rewrite sqrt_pow2; lra).
      apply sqrt_le_1; lra. }
    assert (H1 : 1 / (sqrt 221 + 1 / 100000) <= 1 / 14).
    { unfold Rdiv. rewrite !Rmult_1_l. apply Rinv_le_contravar; lra. }
    assert (H2 : -21 / (10 + 1 / 100000) <= -2).
    { apply (Rmult_le_reg_r (10 + 1 / 100000)); [lra|].
      unfold Rdiv. rewrite Rmult_assoc, Rinv_l by lra. lra. }
    lra.
  - apply mean_normalized. discriminate.
Qed.

(** A plain batch raises: two graphs with one feature map on two nodes. *)
Example GraphNorm_forward_raises_on_batch :
  GraphNorm_forward sample_norm [[[1; 2]]; [[3; 4]]] = Raise RuntimeError.
Proof. reflexivity. Qed.

(** *** One graph with one feature map *)

(** X25.  Where the means are aligned with their own rows, on one graph
    with one feature map, [GraphNorm] normalises as intended.  The embedding
    before the rescaling by [alpha] and [beta] is the row normalised by its
    own mean and variance: a row of nonzero variance [v] becomes a row of mean
    0 and of variance [v / (sqrt v + epsilon) ^ 2], which is below 1 and at
    least [1 - 2 * epsilon / sqrt v]; in a row of variance 0 the guard
    replaces the variance by 1, the divisor is [1 + epsilon] and the row
    becomes 0 everywhere. *)
Theorem GraphNorm_single_row_moments (g : GraphNorm) (row : list R) :
  0 < epsilon g ->
  row <> [] ->
  let out := normalized_row (epsilon g) row in
  normalized (epsilon g) [[row]] = Ok [[out]]
  /\ (variance row <> 0 ->
        mean out = 0
        /\ variance out = variance row / (sqrt (variance row) + epsilon g) ^ 2
        /\ 1 - 2 * epsilon g / sqrt (variance row) <= variance out < 1)
  /\ (variance row = 0 ->
      sqrt (variance row + 1) + epsilon g = 1 + epsilon g
      /\ out = map (fun _ => 0) row).
Proof.
  intros Heps Hne out.
  split; [now apply normalized_single_row|].
  pose proof (variance_nonneg Hne) as Hv.
  split.
  - intros Hvar. unfold out, normalized_row.
    destruct (Req_dec_T (variance row) 0) as [E|_]; [contradiction|].
    rewrite Rplus_0_r.
    assert (Hs : 0 < sqrt (variance row)) by (apply sqrt_lt_R0; lra).
    split; [now apply mean_normalized|].
    rewrite (variance_normalized _ Hne).
    split.
    + field. lra.
    + pose proof (ratio_bounds Hs Heps) as Hbounds.
      assert (Hsq : sqrt (variance row) ^ 2 = variance row)
        by (simpl; rewrite Rmult_1_r; now apply sqrt_sqrt).
      rewrite Hsq in Hbounds. exact Hbounds.
  - intros Hvar. unfold out, normalized_row.
    destruct (Req_dec_T (variance row) 0) as [_|E]; [|contradiction].
    rewrite Hvar, Rplus_0_l, sqrt_1. split; [reflexivity|].
    assert (Hall : Forall (fun x => x = mean row) row).
    { apply Rsum_sq_zero.
      rewrite variance_unfold in Hvar.
      pose proof (INR_length_pos Hne) as Hlen.
      unfold Rdiv in Hvar.
      apply Rmult_integral in Hvar. destruct Hvar as [H0|H0]; [exact H0|].
      exfalso. apply (Rinv_neq_0_compat (INR (length row))); lra. }
    apply map_ext_in. intros x Hx. rewrite Forall_forall in Hall.
    rewrite (Hall x Hx). unfold Rdiv. ring.
Qed.

Lemma GraphNorm_single_row_moments_witness :
  let row := [1; -1] in
  let out := normalized_row (epsilon sample_norm) row in
  normalized (epsilon sample_norm) [[row]] = Ok [[out]]
  /\ (variance row <> 0 ->
        mean out = 0
        /\ variance out = variance row / (sqrt (variance row) + epsilon sample_norm) ^ 2
        /\ 1 - 2 * epsilon sample_norm / sqrt (variance row) <= variance out < 1)
  /\ (variance row = 0 ->
      sqrt (variance row + 1) + epsilon sample_norm = 1 + epsilon sample_norm
      /\ out = map (fun _ => 0) row).
Proof.
  apply (@GraphNorm_single_row_moments sample_norm [1; -1]).
  - cbn [epsilon sample_norm]. lra.
  - discriminate.
Defined.

(** With the default [epsilon] of 1e-5 the variance is far from 1 on a row
    of small values: (1e-5, -1e-5) has the nonzero variance 1e-10 and is
    normalised to (1/2, -1/2), of variance 1/4. *)
Example GraphNorm_variance_far_from_one :
  variance [1 / 100000; - (1 / 100000)] <> 0
  /\ normalized (epsilon sample_norm) emb_tiny = Ok [[[1 / 2; - (1 / 2)]]]
  /\ variance [1 / 2; - (1 / 2)] = 1 / 4.
Proof.
  assert (Hvar : variance [1 / 100000; - (1 / 100000)] = (1 / 100000) ^ 2)
    by apply variance_opposite_pair.
  split; [rewrite Hvar; lra|]. split.
  - unfold emb_tiny. rewrite normalized_single_row by discriminate.
    unfold normalized_row. rewrite Hvar.
    destruct (Req_dec_T ((1 / 100000) ^ 2) 0) as [E|_]; [exfalso; lra|].
    rewrite Rplus_0_r, sqrt_pow2 by lra.
    rewrite (mean_pair (1 / 100000) (- (1 / 100000))).
    cbn [map epsilon sample_norm].
    apply f_equal.
    apply (f_equal2 cons); [|reflexivity].
    apply (f_equal2 cons); [|reflexivity].
    apply (f_equal2 cons); [field|].
    apply (f_equal2 cons); [field|reflexivity].
  - rewrite variance_opposite_pair. field.
Qed.

End GraphNormFacts.

(** ** Facts on Atlas_nyu/statistics.py *)

Module StatsFacts.
Import String.
Import RealScalar Stats.
Local Open Scope R_scope.

Definition csv (s : stat) : String.string := String.append (stat_name s) ".csv"%string.

(** The statistics a summary line shows, by mode. *)
Definition shown_stats (m : mode) : list stat :=
  match m with
  | train => [loss; kernel; avg0; avg1; std0; std1]
  | test => [kernel; avg0; avg1; std0; std1]
  end.

(** C10, as the code has it.  When the batch that is counted completes the
    window of [nbdisplay] batches, the buffer of the mode is normalised
    (loss and kernel divided by [nbdisplay]; the averages divided by the
    label counts when these are positive, the standard deviations the square
    roots of the variances floored at zero), a summary line is printed, and
    the buffer and the batch counter of the mode are reset to zero.  The
    statistics are appended to their files in train mode only; the line of
    test mode leaves the loss out and the files are not touched. *)
Theorem _update_buffer_window (st : Statistics) (m : mode) :
  (nbdisplay st <= nb_batch_in_buffer st m + 1)%Z ->
  let b := buffers st m in
  let nb := normalize_buffer (nbdisplay st) b in
  let st' := _update_buffer st m in
  (b_loss nb = b_loss b / IZR (nbdisplay st)
   /\ b_kernel nb = b_kernel b / IZR (nbdisplay st)
   /\ (0 < nb_ones b ->
       b_avg1 nb = b_avg1 b / nb_ones b
       /\ b_std1 nb = sqrt (Rmax 0 (b_std1 b / nb_ones b - (b_avg1 b / nb_ones b) ^ 2)))
   /\ (0 < nb_zero b ->
       b_avg0 nb = b_avg0 b / nb_zero b
       /\ b_std0 nb = sqrt (Rmax 0 (b_std0 b / nb_zero b - (b_avg0 b / nb_zero b) ^ 2))))
  /\ files st'
     = match m with
       | train => fold_left (fun fs s => append_file fs (csv s) (get_stat nb s)) stats (files st)
       | test => files st
       end
  /\ printed st'
     = printed st
       ++ [{| events := nb_events_seen st m;
              shown := map (fun s => (stat_name s, get_stat nb s)) (shown_stats m);
              sink := match m with train => stdout st | test => None end |}]
  /\ buffers st' m = empty_buffer
  /\ nb_batch_in_buffer st' m = 0%Z.
Proof.
  intros Hfull b nb st'.
  split.
  - unfold nb, normalize_buffer.
    destruct (Rlt_dec 0 (nb_ones b)) as [H1|H1];
      destruct (Rlt_dec 0 (nb_zero b)) as [H0|H0]; simpl;
      repeat split; intros; try reflexivity; try contradiction.
  - unfold st', _update_buffer.
    assert (Hleb : (nbdisplay (set_nb_batch st m (nb_batch_in_buffer st m + 1))
                    <=? nb_batch_in_buffer (set_nb_batch st m (nb_batch_in_buffer st m + 1)) m)%Z
                   = true).
    { apply Z.leb_le. simpl. unfold set_mode. destruct m; simpl; lia. }
    rewrite Hleb. clear Hleb.
    destruct m; repeat split; reflexivity.
Qed.

(** The batch before the window is complete only moves the counter. *)
Lemma _update_buffer_incomplete (st : Statistics) (m : mode) :
  (nb_batch_in_buffer st m + 1 < nbdisplay st)%Z ->
  _update_buffer st m = set_nb_batch st m (nb_batch_in_buffer st m + 1)%Z.
Proof.
  intros Hlt. unfold _update_buffer.
  assert (Hleb : (nbdisplay (set_nb_batch st m (nb_batch_in_buffer st m + 1))
                  <=? nb_batch_in_buffer (set_nb_batch st m (nb_batch_in_buffer st m + 1)) m)%Z
                 = false).
  { apply Z.leb_gt. simpl. unfold set_mode. destruct m; simpl; lia. }
  now rewrite Hleb.
Qed.

Lemma _update_buffer_window_witness :
  let st := sample_stats in
  let m := train in
  let b := buffers st m in
  let nb := normalize_buffer (nbdisplay st) b in
  let st' := _update_buffer st m in
  (b_loss nb = b_loss b / IZR (nbdisplay st)
   /\ b_kernel nb = b_kernel b / IZR (nbdisplay st)
   /\ (0 < nb_ones b ->
       b_avg1 nb = b_avg1 b / nb_ones b
       /\ b_std1 nb = sqrt (Rmax 0 (b_std1 b / nb_ones b - (b_avg1 b / nb_ones b) ^ 2)))
   /\ (0 < nb_zero b ->
       b_avg0 nb = b_avg0 b / nb_zero b
       /\ b_std0 nb = sqrt (Rmax 0 (b_std0 b / nb_zero b - (b_avg0 b / nb_zero b) ^ 2))))
  /\ files st'
     = match m with
       | train => fold_left (fun fs s => append_file fs (csv s) (get_stat nb s)) stats (files st)
       | test => files st
       end
  /\ printed st'
     = printed st
       ++ [{| events := nb_events_seen st m;
              shown := map (fun s => (stat_name s, get_stat nb s)) (shown_stats m);
              sink := match m with train => stdout st | test => None end |}]
  /\ buffers st' m = empty_buffer
  /\ nb_batch_in_buffer st' m = 0%Z.
Proof.
  apply (_update_buffer_window sample_stats train).
  simpl. lia.
Defined.

(** C10 as stated fails in test mode.  With [nbdisplay = 1] one test batch
    completes the window: the counter is back at zero and a line is printed,
    yet every file is as empty as before. *)
Lemma test_window_writes_no_file :
  let st' := update sample_stats test [1; 0] [1; 0] 2 3 in
  nb_batch_in_buffer st' test = 0%Z
  /\ List.length (printed st') = 1%nat
  /\ files sample_stats
     = [("loss_step.csv"%string, []); ("loss.csv"%string, []); ("kernel.csv"%string, []);
        ("avg0.csv"%string, []); ("avg1.csv"%string, []); ("std0.csv"%string, []);
        ("std1.csv"%string, [])]
  /\ files st' = files sample_stats.
Proof. repeat split. Qed.

(** In train mode the same batch appends to every file of a statistic. *)
Example train_window_writes_files :
  map (fun f => List.length (snd f))
      (files (update sample_stats train [1; 0] [1; 0] 2 3))
  = [1; 1; 1; 1; 1; 1; 1]%nat.
Proof. reflexivity. Qed.

End StatsFacts.

(** ** Joining operators and splitting them again *)

Module JoinFacts.
Import TensorFacts.
Local Unset Implicit Arguments.

Section Blocks.
Context {A : Type}.

Lemma zip_with_proj_l {X B C : Type} (F : X -> B -> C) (h : X -> C) (a : list X) (b : list B) :
  length a = length b ->
  (forall x y, In x a -> In y b -> F x y = h x) ->
  zip_with F a b = map h a.
Proof.
  revert b; induction a as [|x a IH]; intros [|y b] Hlen HF; simpl in *; try lia; auto.
  rewrite HF by (now left). f_equal. apply IH; [lia|].
  intros x' y' Hx Hy. apply HF; now right.
Qed.

Lemma zip_with_proj_r {X B C : Type} (F : X -> B -> C) (h : B -> C) (a : list X) (b : list B) :
  length a = length b ->
  (forall x y, In x a -> In y b -> F x y = h y) ->
  zip_with F a b = map h b.
Proof.
  revert b; induction a as [|x a IH]; intros [|y b] Hlen HF; simpl in *; try lia; auto.
  rewrite HF by (now left). f_equal. apply IH; [lia|].
  intros x' y' Hx Hy. apply HF; now right.
Qed.

Lemma slice_app_l (s n : nat) (l1 l2 : list A) :
  s + n <= length l1 -> slice s n (l1 ++ l2) = slice s n l1.
Proof.
  intros Hle. unfold slice.
  rewrite skipn_app, firstn_app, length_skipn.
  replace (s - length l1) with 0 by lia.
  replace (n - (length l1 - s)) with 0 by lia.
  simpl. apply app_nil_r.
Qed.

Lemma slice_app_r (n : nat) (l1 l2 : list A) :
  length l2 = n -> slice (length l1) n (l1 ++ l2) = l2.
Proof.
  intros Hlen. unfold slice.
  rewrite skipn_app, Nat.sub_diag, skipn_all. simpl.
  rewrite <- Hlen. apply firstn_all.
Qed.

Lemma slice_all (n : nat) (l : list A) : length l = n -> slice 0 n l = l.
Proof. intros <-. unfold slice. simpl. apply firstn_all. Qed.

Lemma shape3_dims (b r c : nat) (t : tensor3 A) :
  0 < b -> 0 < r -> has_shape3 b r c t ->
  size0 t = b /\ size1 t = r /\ size2 t = c.
Proof.
  intros Hb Hr [Hlen Hall]. unfold size0, size1, size2.
  destruct t as [|m t]; simpl in *; [lia|].
  inversion Hall as [|? ? [Hm Hrows] _]; subst.
  destruct m as [|row m]; simpl in *; [lia|].
  inversion Hrows; subst. auto.
Qed.

Lemma shape3_in (b r c : nat) (t : tensor3 A) (m : matrix A) (row : list A) :
  has_shape3 b r c t -> In m t -> (length m = r /\ (In row m -> length row = c)).
Proof.
  intros [_ Hall] Hm. rewrite Forall_forall in Hall.
  destruct (Hall m Hm) as [Hlen Hrows]. split; [exact Hlen|].
  rewrite Forall_forall in Hrows. apply Hrows.
Qed.

(** *** Along the last dimension *)

Definition beside (a t : tensor3 A) : tensor3 A := zip_with (zip_with (@app A)) a t.

Lemma beside_shape (b r c n : nat) (a t : tensor3 A) :
  has_shape3 b r c a -> has_shape3 b r n t -> has_shape3 b r (c + n) (beside a t).
Proof.
  intros Ha Ht. unfold beside. split.
  - rewrite zip_with_length. destruct Ha as [Hla _], Ht as [Hlt _].
    unfold tensor3, matrix in *. rewrite Hla, Hlt. apply Nat.min_id.
  - apply Forall_zip_with. intros ma mt Hma Hmt.
    destruct (shape3_in b r c a ma [] Ha Hma) as [Hla _].
  destruct (shape3_in b r n t mt [] Ht Hmt) as [Hlt _].
    split.
    + rewrite zip_with_length. unfold matrix in *. rewrite Hla, Hlt. apply Nat.min_id.
    + apply Forall_zip_with. intros ra rt Hra Hrt.
      destruct (shape3_in b r c a ma ra Ha Hma) as [_ Hca].
  destruct (shape3_in b r n t mt rt Ht Hmt) as [_ Hct].
      now rewrite length_app, Hca, Hct.
Qed.

Lemma beside_block_old (b r c n s : nat) (a t : tensor3 A) :
  has_shape3 b r c a -> has_shape3 b r n t -> s + n <= c ->
  map (map (slice s n)) (beside a t) = map (map (slice s n)) a.
Proof.
  intros Ha Ht Hle. unfold beside. rewrite map_zip_with.
  apply zip_with_proj_l; [destruct Ha as [Hla0 _], Ht as [Hlt0 _]; unfold tensor3, matrix in *; lia|].
  intros ma mt Hma Hmt. rewrite map_zip_with.
  destruct (shape3_in b r c a ma [] Ha Hma) as [Hla _].
  destruct (shape3_in b r n t mt [] Ht Hmt) as [Hlt _].
  apply zip_with_proj_l; [unfold matrix in *; lia|].
  intros ra rt Hra Hrt. destruct (shape3_in b r c a ma ra Ha Hma) as [_ Hca].
  apply slice_app_l. rewrite Hca by assumption. exact Hle.
Qed.

Lemma beside_block_new (b r c n : nat) (a t : tensor3 A) :
  has_shape3 b r c a -> has_shape3 b r n t ->
  map (map (slice c n)) (beside a t) = t.
Proof.
  intros Ha Ht. unfold beside. rewrite map_zip_with.
  rewrite <- (map_id t) at 2.
  apply zip_with_proj_r; [destruct Ha as [Hla0 _], Ht as [Hlt0 _]; unfold tensor3, matrix in *; lia|].
  intros ma mt Hma Hmt. rewrite map_zip_with.
  destruct (shape3_in b r c a ma [] Ha Hma) as [Hla _].
  destruct (shape3_in b r n t mt [] Ht Hmt) as [Hlt _].
  rewrite <- (map_id mt) at 2.
  apply zip_with_proj_r; [unfold matrix in *; lia|].
  intros ra rt Hra Hrt.
  destruct (shape3_in b r c a ma ra Ha Hma) as [_ Hca].
  destruct (shape3_in b r n t mt rt Ht Hmt) as [_ Hct].
  rewrite <- (Hca Hra). apply slice_app_r. now apply Hct.
Qed.

Lemma split_beside (b r n j : nat) (a t : tensor3 A) :
  0 < b -> 0 < r -> 0 < n ->
  has_shape3 b r (n * j) a -> has_shape3 b r n t ->
  split_dim2 n (beside a t) = split_dim2 n a ++ [t].
Proof.
  intros Hb Hr Hn Ha Ht.
  pose proof (beside_shape b r (n * j) n a t Ha Ht) as Hat.
  unfold split_dim2.
  destruct (shape3_dims b r (n * j + n) (beside a t) Hb Hr Hat) as (_ & _ & ->).
  destruct (shape3_dims b r (n * j) a Hb Hr Ha) as (_ & _ & ->).
  replace (n * j + n) with (n * S j) by lia.
  rewrite !div_ceil_mul by assumption.
  rewrite seq_S, map_app. simpl. f_equal.
  - apply map_ext_in. intros k Hk. apply in_seq in Hk.
    apply (beside_block_old b r (n * j) n (k * n) a t Ha Ht). nia.
  - f_equal. rewrite (Nat.mul_comm j n). apply (beside_block_new b r (n * j) n a t Ha Ht).
Qed.

Lemma split_single (b r n : nat) (t : tensor3 A) :
  0 < b -> 0 < r -> 0 < n -> has_shape3 b r n t -> split_dim2 n t = [t].
Proof.
  intros Hb Hr Hn Ht. unfold split_dim2.
  destruct (shape3_dims b r n t Hb Hr Ht) as (_ & _ & ->).
  pose proof (@div_ceil_mul n 1 Hn) as Hone. rewrite Nat.mul_1_r in Hone.
  rewrite Hone. simpl. f_equal.
  rewrite <- (map_id t) at 2. apply map_ext_in. intros m Hm.
  rewrite <- (map_id m) at 2. apply map_ext_in. intros row Hrow.
  destruct (shape3_in b r n t m row Ht Hm) as [_ Hc]. apply slice_all. now apply Hc.
Qed.

Lemma split_fold_beside (b r n : nat) (rest : list (tensor3 A)) :
  0 < b -> 0 < r -> 0 < n ->
  Forall (has_shape3 b r n) rest ->
  forall (j : nat) (acc : tensor3 A),
    has_shape3 b r (n * j) acc ->
    split_dim2 n (fold_left beside rest acc) = split_dim2 n acc ++ rest
    /\ has_shape3 b r (n * (j + length rest)) (fold_left beside rest acc).
Proof.
  intros Hb Hr Hn Hrest. induction Hrest as [|t rest Ht _ IH]; intros j acc Hacc; simpl.
  - rewrite app_nil_r, Nat.add_0_r. auto.
  - assert (Hnext : has_shape3 b r (n * S j) (beside acc t)).
    { replace (n * S j) with (n * j + n) by lia. now apply (beside_shape b r (n * j) n). }
    destruct (IH (S j) (beside acc t) Hnext) as [Hsplit Hshape].
    rewrite Hsplit, (split_beside b r n j acc t Hb Hr Hn Hacc Ht), <- app_assoc. simpl.
    split; [reflexivity|].
    replace (j + S (length rest)) with (S j + length rest) by lia. exact Hshape.
Qed.

(** Splitting what [torch.cat(ts, 2)] put side by side gives [ts] back. *)
Lemma split_cat_dim2 (b r n : nat) (ts : list (tensor3 A)) :
  0 < b -> 0 < r -> 0 < n -> ts <> [] ->
  Forall (has_shape3 b r n) ts ->
  split_dim2 n (cat_dim2 ts) = ts
  /\ has_shape3 b r (n * length ts) (cat_dim2 ts).
Proof.
  intros Hb Hr Hn Hne Hall. destruct ts as [|t rest]; [congruence|].
  inversion Hall as [|? ? Ht Hrest]; subst.
  assert (Ht1 : has_shape3 b r (n * 1) t) by (now rewrite Nat.mul_1_r).
  destruct (split_fold_beside b r n rest Hb Hr Hn Hrest 1 t Ht1) as [Hsplit Hshape].
  change (cat_dim2 (t :: rest)) with (fold_left beside rest t) in *.
  rewrite Hsplit, (split_single b r n t Hb Hr Hn Ht).
  split; [reflexivity|exact Hshape].
Qed.
End Blocks.

Section Joined.
Import GraphConv.
Context {T : Type} `{Scalar T}.
Variable Mask : Type.
Variable mean_with_padding : tensor3 T -> list nat -> Mask -> matrix T.

(** X1.  [join_operators] followed by [GraphOpConv.forward]: the operators
    are applied to the adjacency, and the convolution is the affine transform
    of the embedding, the broadcast mean and one block [bmm(emb_in, op(adj))]
    for every operator of the list, in the order of the list; on an empty list
    only the embedding and the mean remain. *)
Theorem forward_join_operators
    (g : GraphOpConv) (adj emb_in : tensor3 T) (operator_iter : list (tensor3 T -> tensor3 T))
    (batch_nb_nodes : list nat) (adj_mask : Mask) (batch in_fm nodes : nat) :
  0 < batch -> 0 < in_fm -> 0 < nodes ->
  has_shape3 batch in_fm nodes emb_in ->
  Forall (fun operator => has_shape3 batch nodes nodes (operator adj)) operator_iter ->
  GraphOpConv_forward mean_with_padding g (join_operators adj operator_iter) emb_in
    batch_nb_nodes adj_mask
  = affine g batch nodes
      (cat_dim1 (emb_in :: average mean_with_padding emb_in batch_nb_nodes adj_mask
                   :: map (fun operator => bmm emb_in (operator adj)) operator_iter)).
Proof.
  intros Hb Hf Hn Hemb Hops.
  destruct (shape3_dims batch in_fm nodes emb_in Hb Hf Hemb) as (He0 & He1 & He2).
  unfold GraphOpConv_forward, _resized_params, affine. rewrite He0, He2.
  destruct operator_iter as [|op0 iter]; [reflexivity|].
  unfold join_operators.
  set (ts := map (fun operator => operator adj) (op0 :: iter)).
  assert (Hts : Forall (has_shape3 batch nodes nodes) ts).
  { unfold ts. apply Forall_map. exact Hops. }
  assert (Hne : ts <> []) by (unfold ts; simpl; congruence).
  destruct (split_cat_dim2 batch nodes nodes ts Hb Hn Hn Hne Hts) as [Hsplit Hshape].
  destruct (shape3_dims batch nodes (nodes * length ts) (cat_dim2 ts) Hb Hn Hshape)
    as (Hc0 & _ & _).
  rewrite (@split_bmm T _ nodes (length ts)); try assumption; try lia.
  - rewrite Hsplit. unfold ts. rewrite map_map. reflexivity.
  - destruct Hshape as [_ Hall]. eapply Forall_impl; [|exact Hall].
    intros m [Hm Hrows]. unfold ncols.
    destruct m as [|row m]; simpl in *; [lia|]. now inversion Hrows.
Qed.
End Joined.

Import IEEE32 Samples.

Lemma forward_join_operators_witness :
  GraphConv.GraphOpConv_forward mean_with_padding conv_diff
    (GraphConv.join_operators ops2_single [fun a => a]) emb_row [2] no_mask
  = GraphConv.affine conv_diff 1 2
      (cat_dim1 (emb_row :: GraphConv.average mean_with_padding emb_row [2] no_mask
                   :: map (fun operator => bmm emb_row (operator ops2_single)) [fun a => a])).
Proof.
  apply (forward_join_operators (tensor3 float32) mean_with_padding conv_diff ops2_single
           emb_row [fun a => a] [2] no_mask 1 1 2); try lia.
  - split; [reflexivity|]. repeat constructor.
  - constructor; [|constructor]. split; [reflexivity|]. repeat constructor.
Defined.

End JoinFacts.

(** ** The shape of a convolution's output *)

Module ShapeFacts.
Import TensorFacts GraphConv.
Local Unset Implicit Arguments.

Section Conv.
Context {T : Type} `{Scalar T}.
Variable Mask : Type.
Variable mean_with_padding : tensor3 T -> list nat -> Mask -> matrix T.
Variable uniform : nat -> T.

(** X2.  [GraphOpConv.__init__] sizes the weight for the embedding, the mean
    and [nb_op] operators, so a layer it builds accepts an embedding of shape
    (batch, in_fm, nodes) together with the [nb_op] operators it was built
    for, of shape (batch, nodes, nodes * nb_op), or with no operators when
    [nb_op] is 0; the embedding it returns has shape (batch, out_fm, nodes). *)
Theorem GraphOpConv_forward_shape
    (in_fm out_fm nb_op seed : nat) (ops : option (tensor3 T)) (emb_in : tensor3 T)
    (batch_nb_nodes : list nat) (adj_mask : Mask) (batch nodes : nat) :
  0 < batch -> 0 < in_fm -> 0 < nodes ->
  has_shape3 batch in_fm nodes emb_in ->
  has_shape2 batch in_fm (mean_with_padding emb_in batch_nb_nodes adj_mask) ->
  match ops with
  | None => nb_op = 0
  | Some ops => 0 < nb_op /\ has_shape3 batch nodes (nodes * nb_op) ops
  end ->
  let g := fst (GraphOpConv_init uniform in_fm out_fm nb_op seed) in
  has_shape3 1 out_fm (in_fm * (nb_op + 2)) (weight g)
  /\ has_shape3 1 out_fm 1 (bias g)
  /\ has_shape3 batch out_fm nodes
       (GraphOpConv_forward mean_with_padding g ops emb_in batch_nb_nodes adj_mask).
Proof.
  intros Hb Hf Hn Hemb Hmean Hops g.
  destruct (GraphConvFacts.GraphOpConv_init_shapes uniform in_fm out_fm nb_op seed)
    as [Hw Hbias].
  split; [exact Hw|]. split; [exact Hbias|].
  now apply (@GraphConvFacts.forward_accepted_shape T _ Mask mean_with_padding g ops emb_in
               batch_nb_nodes adj_mask batch in_fm out_fm nodes nb_op).
Qed.
End Conv.

Import IEEE32 Samples.

Lemma GraphOpConv_forward_shape_witness :
  let g := fst (GraphOpConv_init (fun i => fz (Z.of_nat i)) 1 3 1 0) in
  has_shape3 1 3 (1 * (1 + 2)) (weight g)
  /\ has_shape3 1 3 1 (bias g)
  /\ has_shape3 1 3 2
       (GraphOpConv_forward mean_with_padding g (Some ops2_single) emb_row [2] no_mask).
Proof.
  apply (@GraphOpConv_forward_shape float32 f32_scalar (tensor3 float32) mean_with_padding
           (fun i => fz (Z.of_nat i)) 1 3 1 0 (Some ops2_single) emb_row [2] no_mask 1 2).
  - exact Nat.lt_0_1.
  - exact Nat.lt_0_1.
  - exact Nat.lt_0_2.
  - split; [reflexivity|]. repeat constructor.
  - split; [reflexivity|]. repeat constructor.
  - split; [exact Nat.lt_0_1|]. split; [reflexivity|]. repeat constructor.
Defined.

End ShapeFacts.

(** ** Facts on the layers of script/model/gnn/graphconv.py *)

Module GnnLayerFacts.
Import TensorFacts JoinFacts.
Local Unset Implicit Arguments.

Section Stacks.
Context {A : Type}.

(** [torch.cat((a, t), 1)] on two tensors. *)
Definition above (a t : tensor3 A) : tensor3 A := zip_with (@app (list A)) a t.

Definition has_rows (b r : nat) (t : tensor3 A) : Prop :=
  length t = b /\ Forall (fun m => length m = r) t.

Lemma above_rows (b r1 r2 : nat) (a t : tensor3 A) :
  has_rows b r1 a -> has_rows b r2 t -> has_rows b (r1 + r2) (above a t).
Proof.
  intros [Hla Ha] [Hlt Ht]. unfold above. split.
  - rewrite zip_with_length. unfold tensor3, matrix in *. rewrite Hla, Hlt. apply Nat.min_id.
  - apply Forall_zip_with. intros ma mt Hma Hmt.
    rewrite Forall_forall in Ha, Ht.
    now rewrite length_app, (Ha ma Hma), (Ht mt Hmt).
Qed.

Lemma above_block_old (b r1 r2 s n : nat) (a t : tensor3 A) :
  has_rows b r1 a -> has_rows b r2 t -> s + n <= r1 ->
  map (slice s n) (above a t) = map (slice s n) a.
Proof.
  intros [Hla Ha] [Hlt Ht] Hle. unfold above. rewrite map_zip_with.
  apply zip_with_proj_l; [unfold tensor3, matrix in *; lia|].
  intros ma mt Hma Hmt. rewrite Forall_forall in Ha.
  apply slice_app_l. rewrite (Ha ma Hma). exact Hle.
Qed.

Lemma above_block_new (b r1 r2 : nat) (a t : tensor3 A) :
  has_rows b r1 a -> has_rows b r2 t ->
  map (slice r1 r2) (above a t) = t.
Proof.
  intros [Hla Ha] [Hlt Ht]. unfold above. rewrite map_zip_with.
  rewrite <- (map_id t) at 2.
  apply zip_with_proj_r; [unfold tensor3, matrix in *; lia|].
  intros ma mt Hma Hmt. rewrite Forall_forall in Ha, Ht.
  rewrite <- (Ha ma Hma). apply slice_app_r. now apply Ht.
Qed.

Lemma rows_size1 (b r : nat) (t : tensor3 A) :
  0 < b -> has_rows b r t -> size1 t = r.
Proof.
  intros Hb [Hlen Hall]. unfold size1.
  destruct t as [|m t]; simpl in *; [lia|]. now inversion Hall.
Qed.

Lemma split_above (b n j : nat) (a t : tensor3 A) :
  0 < b -> 0 < n -> has_rows b (n * j) a -> has_rows b n t ->
  split_dim1 n (above a t) = split_dim1 n a ++ [t].
Proof.
  intros Hb Hn Ha Ht.
  pose proof (above_rows b (n * j) n a t Ha Ht) as Hat.
  unfold split_dim1.
  rewrite (rows_size1 b (n * j + n) (above a t) Hb Hat), (rows_size1 b (n * j) a Hb Ha).
  replace (n * j + n) with (n * S j) by lia.
  rewrite !div_ceil_mul by assumption.
  rewrite seq_S, map_app. simpl. f_equal.
  - apply map_ext_in. intros k Hk. apply in_seq in Hk.
    apply (above_block_old b (n * j) n (k * n) n a t Ha Ht). nia.
  - f_equal. rewrite (Nat.mul_comm j n). apply (above_block_new b (n * j) n a t Ha Ht).
Qed.

Lemma split_rows_single (b n : nat) (t : tensor3 A) :
  0 < b -> 0 < n -> has_rows b n t -> split_dim1 n t = [t].
Proof.
  intros Hb Hn Ht. unfold split_dim1. rewrite (rows_size1 b n t Hb Ht).
  pose proof (@div_ceil_mul n 1 Hn) as Hone. rewrite Nat.mul_1_r in Hone.
  rewrite Hone. simpl. f_equal.
  rewrite <- (map_id t) at 2. apply map_ext_in. intros m Hm.
  destruct Ht as [_ Hall]. rewrite Forall_forall in Hall.
  apply slice_all. now apply Hall.
Qed.

Lemma split_fold_above (b n : nat) (rest : list (tensor3 A)) :
  0 < b -> 0 < n -> Forall (has_rows b n) rest ->
  forall (j : nat) (acc : tensor3 A),
    has_rows b (n * j) acc ->
    split_dim1 n (fold_left above rest acc) = split_dim1 n acc ++ rest.
Proof.
  intros Hb Hn Hrest. induction Hrest as [|t rest Ht _ IH]; intros j acc Hacc; simpl.
  - now rewrite app_nil_r.
  - assert (Hnext : has_rows b (n * S j) (above acc t)).
    { replace (n * S j) with (n * j + n) by lia. now apply above_rows. }
    rewrite (IH (S j) (above acc t) Hnext), (split_above b n j acc t Hb Hn Hacc Ht),
      <- app_assoc.
    reflexivity.
Qed.

(** Splitting what [torch.cat(ts, 1)] stacked gives [ts] back. *)
Lemma split_cat_dim1 (b n : nat) (ts : list (tensor3 A)) :
  0 < b -> 0 < n -> ts <> [] -> Forall (has_rows b n) ts ->
  split_dim1 n (cat_dim1 ts) = ts.
Proof.
  intros Hb Hn Hne Hall. destruct ts as [|t rest]; [congruence|].
  inversion Hall as [|? ? Ht Hrest]; subst.
  assert (Ht1 : has_rows b (n * 1) t) by (now rewrite Nat.mul_1_r).
  change (cat_dim1 (t :: rest)) with (fold_left above rest t).
  rewrite (split_fold_above b n rest Hb Hn Hrest 1 t Ht1), (split_rows_single b n t Hb Hn Ht).
  reflexivity.
Qed.
End Stacks.

Section Layers.
Context {T : Type} `{Scalar T}.
Variable Mask : Type.
Variable tanh : T -> T.
Variable uniform : nat -> T.

(** X3.  In the variant of script/model/gnn, [join_operators] followed by
    [GraphOpConv.forward]: with a non-empty list of operators the result is
    the linear layer applied to the embedding next to one block
    [bmm(op(adj), emb_in)] for every operator, in the order of the list; with
    the empty list [join_operators] returns [None] and the forward pass
    raises [NameError]. *)
Theorem gnn_forward_join_operators
    (g : GnnGraphConv.GraphOpConv) (adj emb_in : tensor3 T)
    (operator_iter : list (tensor3 T -> tensor3 T))
    (batch_nb_nodes : list nat) (adj_mask : Mask) (batch nodes : nat) :
  0 < batch -> 0 < nodes ->
  has_rows batch nodes emb_in ->
  Forall (fun operator => has_rows batch nodes (operator adj)) operator_iter ->
  GnnGraphConv.GraphOpConv_forward g (GnnGraphConv.join_operators adj operator_iter) emb_in
    batch_nb_nodes adj_mask
  = match operator_iter with
    | [] => Raise NameError
    | _ => Ok (GnnGraphConv.Linear_forward (GnnGraphConv.fc g)
                 (cat_dim2 (emb_in :: map (fun operator => bmm (operator adj) emb_in)
                                          operator_iter)))
    end.
Proof.
  intros Hb Hn Hemb Hops.
  destruct operator_iter as [|op0 iter]; [reflexivity|].
  unfold GnnGraphConv.join_operators, GnnGraphConv.GraphOpConv_forward, bind.
  set (ts := map (fun operator => operator adj) (op0 :: iter)).
  assert (Hts : Forall (has_rows batch nodes) ts) by (unfold ts; now apply Forall_map).
  assert (Hne : ts <> []) by (unfold ts; simpl; congruence).
  rewrite (rows_size1 batch nodes emb_in Hb Hemb).
  rewrite GnnGraphConvFacts.split_rows_bmm by (destruct Hemb as [Hl _]; unfold size0; lia).
  rewrite (split_cat_dim1 batch nodes ts Hb Hn Hne Hts).
  unfold ts. rewrite map_map. reflexivity.
Qed.

(** X4.  [Simple.forward] multiplies by [ops[:, nb_node:, :]]: the first
    [nb_node] rows of [ops] are dropped.  When two operators are stacked the
    result is computed from the second one alone; when [ops] is a single
    operator nothing is left and every graph of the result has no node. *)
Theorem Simple_forward_drops_first_operator
    (s : GnnLayers.Simple) (op1 op2 emb_in : tensor3 T) (batch nodes : nat) :
  0 < batch ->
  has_rows batch nodes emb_in -> has_rows batch nodes op1 -> has_rows batch nodes op2 ->
  let h := tmap relu (GnnGraphConv.Linear_forward (GnnLayers.fc s) emb_in) in
  GnnLayers.Simple_forward tanh s (Some (cat_dim1 [op1; op2])) emb_in
    = Ok (tmap tanh (bmm op2 h))
  /\ GnnLayers.Simple_forward tanh s (Some op1) emb_in = Ok (repeat [] batch).
Proof.
  intros Hb Hemb Hop1 Hop2 h.
  unfold GnnLayers.Simple_forward. fold h.
  rewrite (rows_size1 batch nodes emb_in Hb Hemb).
  split.
  - change (cat_dim1 [op1; op2]) with (above op1 op2).
    assert (Hskip : map (skipn nodes) (above op1 op2) = op2).
    { unfold above. rewrite map_zip_with.
      rewrite <- (map_id op2) at 2.
      destruct Hop1 as [Hl1 Ha1], Hop2 as [Hl2 Ha2].
      apply zip_with_proj_r; [unfold tensor3, matrix in *; lia|].
      intros m1 m2 Hm1 Hm2. rewrite Forall_forall in Ha1.
      rewrite skipn_app, (Ha1 m1 Hm1), Nat.sub_diag.
      rewrite skipn_all2 by (rewrite (Ha1 m1 Hm1); lia). reflexivity. }
    now rewrite Hskip.
  - assert (Hskip : map (skipn nodes) op1 = repeat [] batch).
    { destruct Hop1 as [Hl1 Ha1]. rewrite <- Hl1. clear Hl1.
      induction Ha1 as [|m op1' Hm _ IH]; simpl; [reflexivity|].
      rewrite IH. f_equal. apply skipn_all2. lia. }
    rewrite Hskip. f_equal.
    assert (Hh : length h = batch).
    { unfold h, tmap, GnnGraphConv.Linear_forward. rewrite !length_map.
      destruct Hemb; assumption. }
    clearbody h. clear - Hh. unfold tmap, bmm. revert h Hh.
    induction batch as [|b IH]; intros [|x h] Hh; simpl in *; try lia; auto.
    f_equal. apply IH. lia.
Qed.
End Layers.

Import IEEE32 Samples.

Lemma gnn_forward_join_operators_witness :
  GnnGraphConv.GraphOpConv_forward gnn_conv
    (GnnGraphConv.join_operators gnn_ops [fun a => a]) gnn_emb [2] no_mask
  = Ok (GnnGraphConv.Linear_forward (GnnGraphConv.fc gnn_conv)
          (cat_dim2 (gnn_emb :: map (fun operator => bmm (operator gnn_ops) gnn_emb)
                                    [fun a => a]))).
Proof.
  apply (gnn_forward_join_operators (tensor3 float32) gnn_conv gnn_ops gnn_emb [fun a => a]
           [2] no_mask 1 2); try lia.
  - split; [reflexivity|]. repeat constructor.
  - constructor; [|constructor]. split; [reflexivity|]. repeat constructor.
Defined.

Definition simple_layer : GnnLayers.Simple (T := float32) :=
  {| GnnLayers.fc :=
       {| GnnGraphConv.lin_weight := [[fz 1]]; GnnGraphConv.lin_bias := [fz 0] |} |}.

Lemma Simple_forward_drops_first_operator_witness :
  let h := tmap relu (GnnGraphConv.Linear_forward (GnnLayers.fc simple_layer) gnn_emb) in
  GnnLayers.Simple_forward (fun x => x) simple_layer (Some (cat_dim1 [gnn_ops; gnn_ops])) gnn_emb
    = Ok (tmap (fun x => x) (bmm gnn_ops h))
  /\ GnnLayers.Simple_forward (fun x => x) simple_layer (Some gnn_ops) gnn_emb
     = Ok (repeat [] 1).
Proof.
  apply (Simple_forward_drops_first_operator (fun x => x) simple_layer gnn_ops gnn_ops
           gnn_emb 1 2); try lia; (split; [reflexivity|]; repeat constructor).
Defined.

End GnnLayerFacts.

Module GnnChoiceFacts.
Import String.
Local Unset Implicit Arguments.

Section Choice.
Context {T : Type} `{Scalar T}.
Variable uniform : nat -> T.

(** X5.  [get_convolution_layer] returns a layer in two cases only: a
    residual convolution for the type 'ResGNN' with an even number of output
    feature maps, a simple convolution for the type 'Simple', whatever the
    parity.  'ResGNN' with an odd number raises [ValueError]; every other
    type raises a plain [Exception]. *)
Theorem get_convolution_layer_outcomes
    (conv_type : String.string) (fmap_in fmap_out nb_operators seed : nat) :
  let r := GnnLayers.get_convolution_layer uniform conv_type fmap_in fmap_out nb_operators seed in
  ((exists c seed', r = GnnLayers.Returned (GnnLayers.ConvResGOpConv c, seed'))
   <-> (conv_type = "ResGNN"%string /\ fmap_out mod 2 = 0))
  /\ ((exists c seed', r = GnnLayers.Returned (GnnLayers.ConvSimple c, seed'))
      <-> conv_type = "Simple"%string)
  /\ (r = GnnLayers.Raised ValueError
      <-> (conv_type = "ResGNN"%string /\ fmap_out mod 2 <> 0))
  /\ (r = GnnLayers.RaisedException
      <-> (conv_type <> "ResGNN"%string /\ conv_type <> "Simple"%string)).
Proof.
  intros r. unfold r, GnnLayers.get_convolution_layer, GnnGraphConv.ResGOpConv_init,
    GnnLayers.Simple_init.
  destruct (String.eqb_spec conv_type "ResGNN") as [Eres|Eres];
    [subst conv_type; destruct (Nat.eqb_spec (fmap_out mod 2) 0) as [Epar|Epar]
    |destruct (String.eqb_spec conv_type "Simple") as [Esim|Esim]; [subst conv_type|]];
    simpl;
    repeat match goal with
           | |- _ /\ _ => split
           | |- _ <-> _ => split
           | |- _ -> _ => intro
           | Hex : exists _, _ |- _ => destruct Hex
           | Hand : _ /\ _ |- _ => destruct Hand
           end;
    try discriminate; try contradiction; try congruence;
    try (eexists; eexists; reflexivity); auto.
Qed.
End Choice.

End GnnChoiceFacts.

(** ** More facts on script/model/kernels/general.py *)

Module KernelMoreFacts.
Import TensorFacts RealScalar Kernels KernelFacts.
Local Open Scope R_scope.
Local Unset Implicit Arguments.

(** *** The row-normalised Gaussian *)

Lemma Rsum_exp_ge (x : R) (row : list R) : In x row -> exp x <= Rsum (map exp row).
Proof.
  assert (Hnn : forall l, 0 <= Rsum (map exp l)).
  { induction l as [|y l IH]; unfold Rsum in *; simpl; [lra|].
    pose proof (exp_pos y). lra. }
  induction row as [|y row IH]; intros Hin; [contradiction|].
  unfold Rsum in *. simpl. destruct Hin as [->|Hin].
  - pose proof (Hnn row) as Hr. unfold Rsum in Hr. lra.
  - pose proof (exp_pos y). specialize (IH Hin). lra.
Qed.

Lemma softmax_row_range (row : list R) :
  Forall (fun y => 0 < y <= 1) (softmax_row row).
Proof.
  unfold softmax_row. apply Forall_map, Forall_forall. intros x Hx.
  pose proof (exp_pos x) as He. pose proof (Rsum_exp_ge x row Hx) as Hle.
  split.
  - apply Rdiv_lt_0_compat; lra.
  - apply (Rmult_le_reg_r (Rsum (map exp row))); [lra|].
    unfold Rdiv. rewrite Rmult_assoc, Rinv_l by lra. lra.
Qed.

Section Softmax.
Variable sqdist_ : tensor3 R -> tensor3 R.
Variable sqdist_periodic_ : tensor3 R -> tensor3 R.

(** X7.  Every entry of the adjacency [GaussianSoftmax.forward] returns is
    positive and at most 1.  In particular a kernel built with [diag=False]
    does not have a zero diagonal: the softmax runs after the diagonal is
    deleted and gives weight to the deleted entries again. *)
Theorem GaussianSoftmax_entries_positive (k : Gaussian) (emb : tensor3 R) (batch nodes : nat) :
  cls (params k) = SoftmaxGaussian ->
  (0 < batch)%nat -> (0 < nodes)%nat ->
  has_shape3 batch nodes nodes (sqdist sqdist_ sqdist_periodic_ k emb) ->
  exists adj k',
    Gaussian_forward sqdist_ sqdist_periodic_ k emb = Ok (adj, k')
    /\ all_entries (fun x => 0 < x <= 1) adj.
Proof.
  intros Hcls Hb Hn Hshape.
  set (adj0 := gaussian (sqdist sqdist_ sqdist_periodic_ k emb) (sigma (params k))).
  set (adj1 := if negb (diag (params k)) then _delete_diag adj0 else adj0).
  assert (H0 : has_shape3 batch nodes nodes adj0) by (now apply tmap_shape).
  assert (H1 : has_shape3 batch nodes nodes adj1).
  { unfold adj1. destruct (negb (diag (params k))); [now apply _delete_diag_shape|exact H0]. }
  unfold Gaussian_forward, _apply_norm. rewrite Hcls. fold adj0. fold adj1.
  rewrite (@_softmax_rows batch nodes adj1 Hb Hn H1).
  eexists. eexists. split; [reflexivity|].
  unfold all_entries.
  apply Forall_map, Forall_forall. intros m _.
  apply Forall_map, Forall_forall. intros row _.
  apply softmax_row_range.
Qed.

(** *** The two modes of a kernel *)

(** X8.  The kernels that call [save_adj] behave as their [layerwise] flag
    says.  Built with [layerwise=False], a forward pass of [Gaussian],
    [GaussianSoftmax] or [MLPdirected] stores the adjacency it returns, and
    [update] then returns that adjacency whatever it is given.  Built with
    [layerwise=True], the forward pass leaves the kernel as it was and
    [update] is the forward pass. *)
Theorem layerwise_modes
    (k : Gaussian) (emb emb' : tensor3 R)
    (k2 : MLPdirected) (args args' : tensor3 R * tensor3 R * nat) :
  (exists adj k',
     Gaussian_forward sqdist_ sqdist_periodic_ k emb = Ok (adj, k')
     /\ (layerwise k = false ->
         adj_matrix k' = Some adj
         /\ update (Gaussian_forward sqdist_ sqdist_periodic_) k' emb' = Ok (adj, k'))
     /\ (layerwise k = true ->
         k' = k
         /\ update (Gaussian_forward sqdist_ sqdist_periodic_) k emb'
            = Gaussian_forward sqdist_ sqdist_periodic_ k emb'))
  /\ (exists adj k',
        MLPdirected_forward k2 args = Ok (adj, k')
        /\ (layerwise k2 = false ->
            adj_matrix k' = Some adj /\ update MLPdirected_forward k' args' = Ok (adj, k'))
        /\ (layerwise k2 = true ->
            k' = k2 /\ update MLPdirected_forward k2 args' = MLPdirected_forward k2 args')).
Proof.
  split.
  - unfold Gaussian_forward at 1. eexists. eexists. split; [reflexivity|]. split; intros Hl.
    + split; [unfold save_adj; now rewrite Hl|]. now apply update_cached.
    + split; [now apply save_adj_layerwise|now apply update_layerwise].
  - destruct args as [[adj_in emb_in] layer].
    unfold MLPdirected_forward at 1. eexists. eexists. split; [reflexivity|]. split; intros Hl.
    + split; [unfold save_adj; now rewrite Hl|]. now apply update_cached.
    + split; [now apply save_adj_layerwise|now apply update_layerwise].
Qed.
End Softmax.

(** X9.  [Identity] drops the [layerwise] argument of its constructor: even
    when built with [layerwise=True] it stores the identity of its first
    forward pass, and [update] returns that one, of the batch size and node
    count of the first embedding, whatever embedding it is given. *)
Theorem Identity_ignores_layerwise (flag : bool) (adj_in emb_in adj_in' emb_in' : tensor3 R) :
  exists k',
    Identity_forward (Identity_init flag) (adj_in, emb_in)
    = Ok (repeat (eye (size2 emb_in)) (size0 emb_in), k')
    /\ update Identity_forward k' (adj_in', emb_in')
       = Ok (repeat (eye (size2 emb_in)) (size0 emb_in), k').
Proof.
  unfold Identity_forward. eexists. split; reflexivity.
Qed.

Section Directed.
Variable sqdist_ : tensor3 R -> tensor3 R.
Variable sqdist_periodic_ : tensor3 R -> tensor3 R.

(** X10.  [DirectedGaussian.forward] expands the (batch, nodes) tensor of
    summed weights to (batch, nodes, nodes), which adds a leading dimension:
    unless the batch has one graph or as many graphs as a graph has nodes,
    the forward pass raises and returns no adjacency. *)
Theorem DirectedGaussian_forward_batch_sizes
    (k : DirectedGaussian) (adj_in emb_in : tensor3 R) (idx : nat) :
  size0 emb_in <> 1%nat -> size0 emb_in <> size2 emb_in ->
  DirectedGaussian_forward sqdist_ sqdist_periodic_ k (adj_in, emb_in, idx)
  = Raise RuntimeError.
Proof.
  intros H1 Hn. unfold DirectedGaussian_forward, redistributed_weights, expand_new_dim, bind.
  rewrite length_map, length_seq.
  destruct (negb (ncols _ =? size2 emb_in)%nat); [reflexivity|].
  destruct (Nat.eqb_spec (size0 emb_in) (size2 emb_in)) as [E|_]; [contradiction|].
  destruct (Nat.eqb_spec (size0 emb_in) 1) as [E|_]; [contradiction|].
  reflexivity.
Qed.
End Directed.

Lemma DirectedGaussian_forward_batch_sizes_witness :
  DirectedGaussian_forward KernelSamples.sqdist_euclid KernelSamples.sqdist_euclid
    (DirectedGaussian_init 1 (67 / 100) 1 1)
    ([[[0; 1]; [1; 0]]; [[0; 1]; [1; 0]]; [[0; 1]; [1; 0]]],
     [[[0; 1]]; [[0; 1]]; [[0; 1]]], 0%nat)
  = Raise RuntimeError.
Proof.
  apply DirectedGaussian_forward_batch_sizes; unfold size0, size2; simpl; lia.
Defined.

Lemma GaussianSoftmax_entries_positive_witness :
  exists adj k',
    Gaussian_forward KernelSamples.sqdist_euclid KernelSamples.sqdist_euclid
      (GaussianSoftmax_init 1 false false false false) KernelSamples.emb_pair = Ok (adj, k')
    /\ all_entries (fun x => 0 < x <= 1) adj.
Proof.
  apply (GaussianSoftmax_entries_positive KernelSamples.sqdist_euclid KernelSamples.sqdist_euclid
           (GaussianSoftmax_init 1 false false false false) KernelSamples.emb_pair 1 2).
  - reflexivity.
  - lia.
  - lia.
  - split; [reflexivity|]. repeat constructor.
Defined.

End KernelMoreFacts.

(** ** The samples and the scores of [MLPdirected] *)

Module MLPFacts.
Import TensorFacts RealScalar Kernels KernelFacts.
Local Open Scope R_scope.
Local Unset Implicit Arguments.

Section Lists.
Context {X Y Z : Type}.

Lemma zip_with_app (g : X -> Y -> Z) (a a' : list X) (b b' : list Y) :
  length a = length b ->
  zip_with g (a ++ a') (b ++ b') = zip_with g a b ++ zip_with g a' b'.
Proof.
  revert b; induction a as [|x a IH]; intros [|y b] Hlen; simpl in *; try lia; auto.
  f_equal. apply IH. lia.
Qed.

Lemma zip_concat_blocks (g : X -> Y -> Z) (W : list Y) (blocks : list (list X)) :
  Forall (fun bl => length bl = length W) blocks ->
  zip_with g (concat blocks) (concat (repeat W (length blocks)))
  = concat (map (fun bl => zip_with g bl W) blocks).
Proof.
  induction 1 as [|bl blocks Hbl _ IH]; simpl; [reflexivity|].
  rewrite zip_with_app by exact Hbl. now rewrite IH.
Qed.

Lemma zip_with_repeat_l (g : X -> Y -> Z) (x : X) (l : list Y) :
  zip_with g (repeat x (length l)) l = map (g x) l.
Proof. induction l as [|y l IH]; simpl; auto. now rewrite IH. Qed.

Lemma concat_map_concat (f : X -> list (list Y)) (l : list X) :
  concat (map (fun x => concat (f x)) l) = concat (concat (map f l)).
Proof.
  induction l as [|x l IH]; simpl; [reflexivity|].
  now rewrite concat_app, IH.
Qed.
End Lists.

Lemma resize_flat_concat (d : nat) (L : list (list R)) :
  Forall (fun row => length row = d) L ->
  resize_flat (length L) d (concat L) = L.
Proof.
  intros Hall. unfold resize_flat.
  transitivity (map (fun k => nth k L []) (seq 0 (length L))).
  - apply map_ext_in. intros k Hk. apply in_seq in Hk.
    apply (@slice_concat R d k L Hall). lia.
  - apply map_nth_seq.
Qed.

Lemma repeated_rows_pairs (outer tensor : matrix R) :
  zip_with (@app R) (concat (map (fun row => repeat row (length tensor)) outer))
           (concat (repeat tensor (length outer)))
  = concat (map (fun ri => map (fun rj => ri ++ rj) tensor) outer).
Proof.
  unfold matrix in *.
  rewrite <- (length_map (fun row : list R => repeat row (length tensor)) outer).
  rewrite zip_concat_blocks.
  - rewrite map_map. f_equal. apply map_ext. intros ri. apply zip_with_repeat_l.
  - apply Forall_map, Forall_forall. intros ri _. apply repeat_length.
Qed.

Lemma repeated_rows_shape (tensor : matrix R) (d : nat) :
  Forall (fun row => length row = d) tensor ->
  let L := concat (map (fun row => repeat row (length tensor)) tensor) in
  Forall (fun row => length row = d) L /\ length L = (length tensor * length tensor)%nat.
Proof.
  intros Hall L. split.
  - unfold L. apply Forall_concat, Forall_map.
    eapply Forall_impl; [|exact Hall]. simpl. intros row Hrow.
    apply Forall_forall. intros x Hx. apply repeat_spec in Hx. now subst x.
  - unfold L. rewrite (@concat_length_uniform (list R) (length tensor)).
    + now rewrite length_map.
    + apply Forall_map, Forall_forall. intros row _. apply repeat_length.
Qed.

Lemma cartesian_rows (tensor : matrix R) (d : nat) :
  Forall (fun row => length row = d) tensor ->
  cartesian tensor = concat (map (fun ri => map (fun rj => ri ++ rj) tensor) tensor).
Proof.
  intros Hall. unfold cartesian, resize, repeat_cols, repeat_rows.
  destruct (repeated_rows_shape tensor d Hall) as [HL HLlen].
  rewrite (concat_map_concat (fun row => repeat row (length tensor)) tensor).
  assert (Hd : tensor = [] \/ ncols tensor = d).
  { unfold ncols. destruct tensor as [|row t]; [now left|right]. now inversion Hall. }
  destruct Hd as [->|Hd]; [reflexivity|].
  rewrite Hd, <- HLlen, (resize_flat_concat d _ HL).
  apply repeated_rows_pairs.
Qed.

(** X11.  [cartesian] pairs every row with every row, as its docstring shows:
    on a matrix of [n] rows of equal length the result has the [n * n] rows
    [row_i ++ row_j], ordered by [i] and then by [j]. *)
Theorem cartesian_pairs (tensor : matrix R) (d : nat) :
  Forall (fun row => length row = d) tensor ->
  cartesian tensor = concat (map (fun ri => map (fun rj => ri ++ rj) tensor) tensor).
Proof. apply cartesian_rows. Qed.

Lemma cartesian_pairs_witness :
  cartesian [[0; 1; 2]; [3; 4; 5]]
  = concat (map (fun ri => map (fun rj => ri ++ rj) [[0; 1; 2]; [3; 4; 5]])
                [[0; 1; 2]; [3; 4; 5]]).
Proof.
  apply (cartesian_pairs [[0; 1; 2]; [3; 4; 5]] 3). repeat constructor.
Defined.

Lemma make_samples_rows (emb_in : matrix R) (sum_weights : list R) (idx d : nat) :
  Forall (fun row => length row = d) emb_in ->
  length sum_weights = length emb_in ->
  make_samples emb_in sum_weights idx
  = concat (map (fun ri => zip_with (fun rj w => ri ++ rj ++ [w]) emb_in sum_weights) emb_in).
Proof.
  intros Hall Hsw. unfold make_samples.
  rewrite (cartesian_rows emb_in d Hall).
  assert (HW : resize_flat (length emb_in) 1 sum_weights = map (fun w : R => [w]) sum_weights).
  { rewrite <- Hsw.
    rewrite <- (length_map (fun w : R => [w]) sum_weights).
    replace sum_weights with (concat (map (fun w : R => [w]) sum_weights)) at 2
      by (clear; induction sum_weights as [|w l IH]; simpl; [|rewrite IH]; reflexivity).
    apply resize_flat_concat. apply Forall_map, Forall_forall. reflexivity. }
  rewrite HW. unfold repeat_rows, matrix in *.
  rewrite <- (length_map (fun ri : list R => map (fun rj => ri ++ rj) emb_in) emb_in).
  rewrite zip_concat_blocks.
  - rewrite map_map. f_equal. apply map_ext. intros ri.
    rewrite zip_with_map_l, zip_with_map_r.
    clear. revert sum_weights.
    induction emb_in as [|rj l IH]; intros [|w sw]; simpl; auto.
    now rewrite IH, <- app_assoc.
  - apply Forall_map, Forall_forall. intros ri _.
    rewrite !length_map. lia.
Qed.

(** X12.  [make_samples] builds one sample for every ordered pair of nodes:
    the features of node i, those of node j and the summed weight of node j,
    ordered by [i] and then by [j].  The layer index it is given plays no
    part. *)
Theorem make_samples_pairs (emb_in : matrix R) (sum_weights : list R) (idx d : nat) :
  Forall (fun row => length row = d) emb_in ->
  length sum_weights = length emb_in ->
  make_samples emb_in sum_weights idx
  = concat (map (fun ri => zip_with (fun rj w => ri ++ rj ++ [w]) emb_in sum_weights) emb_in).
Proof. apply make_samples_rows. Qed.

Lemma make_samples_pairs_witness :
  make_samples [[0; 1]; [2; 3]] [7; 8] 0
  = concat (map (fun ri => zip_with (fun rj w => ri ++ rj ++ [w]) [[0; 1]; [2; 3]] [7; 8])
                [[0; 1]; [2; 3]]).
Proof.
  apply (make_samples_pairs [[0; 1]; [2; 3]] [7; 8] 0 2); [repeat constructor|reflexivity].
Defined.

(** X13.  [_get_adj] undoes the flattening of a square matrix into a column:
    the column of the [n * n] entries of an [n] x [n] matrix, read row by
    row, is reshaped into the matrix. *)
Theorem _get_adj_of_column (m : matrix R) (n : nat) :
  has_shape2 n n m ->
  _get_adj (map (fun x => [x]) (concat m)) n = m.
Proof.
  intros [Hlen Hall]. unfold _get_adj, resize.
  replace (concat (map (fun x : R => [x]) (concat m))) with (concat m)
    by (induction (concat m) as [|x l IH]; simpl; [|rewrite <- IH]; reflexivity).
  rewrite <- Hlen at 1. now apply resize_flat_concat.
Qed.

Lemma _get_adj_of_column_witness :
  _get_adj (map (fun x => [x]) (concat [[11; 12]; [21; 22]])) 2 = [[11; 12]; [21; 22]].
Proof.
  apply (_get_adj_of_column [[11; 12]; [21; 22]] 2). split; [reflexivity|repeat constructor].
Defined.

(** *** The adjacency of [MLPdirected] *)

(** The perceptron on one sample: the row its output layer gives, and the
    score, the first entry of that row. *)
Definition mlp_row (p : MLPParams) (x : list R) : list R :=
  hd [] (Linear_forward (layer2 p) (map (map (Rmax 0)) (Linear_forward (layer1 p) [x]))).

Definition mlp_score (p : MLPParams) (x : list R) : R := hd 0 (mlp_row p x).

Lemma mlp_rows (p : MLPParams) (sample : matrix R) :
  Linear_forward (layer2 p) (map (map (Rmax 0)) (Linear_forward (layer1 p) sample))
  = map (mlp_row p) sample.
Proof.
  unfold mlp_row, Linear_forward. rewrite !map_map. reflexivity.
Qed.

Lemma mlp_row_single (p : MLPParams) (x : list R) :
  length (lin_weight (layer2 p)) = 1%nat -> length (lin_bias (layer2 p)) = 1%nat ->
  mlp_row p x = [mlp_score p x].
Proof.
  intros Hw Hb. unfold mlp_score, mlp_row, Linear_forward. simpl.
  destruct (lin_weight (layer2 p)) as [|w [|w' ws]]; simpl in Hw; try lia.
  destruct (lin_bias (layer2 p)) as [|b0 [|b1 bs]]; simpl in Hb; try lia.
  reflexivity.
Qed.

Lemma get_summed_weights_length (n : nat) (m : matrix R) :
  has_shape2 n n m -> length (get_summed_weights m) = n.
Proof.
  intros [Hlen Hall]. unfold get_summed_weights.
  rewrite length_map, zip_with_length, !length_map, !length_seq, Hlen.
  assert (Hc : ncols m = n).
  { unfold ncols. destruct m as [|row m']; simpl in *; [lia|]. now inversion Hall. }
  rewrite Hc. apply Nat.min_id.
Qed.

Lemma transpose_length (c : nat) (m : matrix R) : length (transpose c m) = c.
Proof. unfold transpose. now rewrite length_map, length_seq. Qed.

Lemma transpose_rows (c : nat) (m : matrix R) :
  Forall (fun row => length row = length m) (transpose c m).
Proof.
  unfold transpose. apply Forall_map, Forall_forall. intros j _.
  unfold col. apply length_map.
Qed.

(** X14.  [MLPdirected.forward] scores every ordered pair of nodes: when the
    output layer has a single unit and the previous adjacency of every graph
    is square on the nodes of the embedding, the weight of the edge (j, k) of
    graph i is the sigmoid of the perceptron applied to the features of node
    j, the features of node k and the summed incoming weight of node k in the
    previous adjacency of graph i.  The kernel saves this adjacency. *)
Theorem MLPdirected_forward_scores
    (k : MLPdirected) (adj_in emb_in : tensor3 R) (layer : nat) :
  length (lin_weight (layer2 (params k))) = 1%nat ->
  length (lin_bias (layer2 (params k))) = 1%nat ->
  (forall i, (i < size0 emb_in)%nat ->
             has_shape2 (size2 emb_in) (size2 emb_in) (nth i adj_in [])) ->
  let adj :=
    map (fun i =>
           let nodes := transpose (size2 emb_in) (nth i emb_in []) in
           let sum_weights := get_summed_weights (nth i adj_in []) in
           map (fun ej =>
                  zip_with (fun ek w => sigmoid (mlp_score (params k) (ej ++ ek ++ [w])))
                           nodes sum_weights)
               nodes)
        (seq 0 (size0 emb_in)) in
  MLPdirected_forward k (adj_in, emb_in, layer) = Ok (adj, save_adj k adj).
Proof.
  intros Hw Hb Hadj adj. unfold MLPdirected_forward.
  set (n := size2 emb_in) in *.
  assert (Heq :
    tmap sigmoid
      (map (fun i =>
              _get_adj
                (Linear_forward (layer2 (params k))
                   (map (map (Rmax 0))
                      (Linear_forward (layer1 (params k))
                         (make_samples (transpose n (nth i emb_in []))
                            (get_summed_weights (nth i adj_in [])) layer)))) n)
           (seq 0 (size0 emb_in)))
    = adj).
  { unfold adj, tmap. rewrite map_map.
    apply map_ext_in. intros i Hi. apply in_seq in Hi.
    set (nodes := transpose n (nth i emb_in [])).
    set (sw := get_summed_weights (nth i adj_in [])).
    assert (Hsw : length sw = length nodes).
    { unfold sw, nodes. rewrite transpose_length.
      apply get_summed_weights_length. apply Hadj. lia. }
    assert (Hn : length nodes = n) by apply transpose_length.
    rewrite mlp_rows.
    rewrite (make_samples_rows nodes sw layer (length (nth i emb_in []))
               (transpose_rows n _) Hsw).
    unfold _get_adj, resize.
    set (blocks := map (fun ri => zip_with (fun rj w => ri ++ rj ++ [w]) nodes sw) nodes).
    assert (Hflat : concat (map (mlp_row (params k)) (concat blocks))
                    = concat (map (map (mlp_score (params k))) blocks)).
    { rewrite <- concat_map.
      induction (concat blocks) as [|x l IH]; simpl; [reflexivity|].
      rewrite (mlp_row_single (params k) x Hw Hb), IH. reflexivity. }
    rewrite Hflat.
    assert (Hblocks : Forall (fun row => length row = n)
                             (map (map (mlp_score (params k))) blocks)).
    { unfold blocks. rewrite map_map. apply Forall_map, Forall_forall. intros ri _.
      rewrite length_map, zip_with_length. lia. }
    replace n with (length (map (map (mlp_score (params k))) blocks)) at 1
      by (unfold blocks; now rewrite !length_map).
    rewrite (resize_flat_concat n _ Hblocks).
    unfold blocks. rewrite !map_map. apply map_ext. intros ej.
    rewrite !map_zip_with. reflexivity. }
  rewrite Heq. reflexivity.
Qed.

(** A perceptron with one hidden unit on one feature map. *)
Definition sample_mlp : MLPdirected :=
  MLPdirected_init 1 1
    {| lin_weight := [[1; 1; 1]]; lin_bias := [0] |}
    {| lin_weight := [[1]]; lin_bias := [0] |}
    false.

Lemma MLPdirected_forward_scores_witness :
  let k := sample_mlp in
  let adj_in := [[[0; 1]; [1; 0]]] in
  let emb_in := KernelSamples.emb_pair in
  let adj :=
    map (fun i =>
           let nodes := transpose (size2 emb_in) (nth i emb_in []) in
           let sum_weights := get_summed_weights (nth i adj_in []) in
           map (fun ej =>
                  zip_with (fun ek w => sigmoid (mlp_score (params k) (ej ++ ek ++ [w])))
                           nodes sum_weights)
               nodes)
        (seq 0 (size0 emb_in)) in
  MLPdirected_forward k (adj_in, emb_in, 0%nat) = Ok (adj, save_adj k adj).
Proof.
  apply (MLPdirected_forward_scores sample_mlp [[[0; 1]; [1; 0]]] KernelSamples.emb_pair 0%nat).
  - reflexivity.
  - reflexivity.
  - intros i Hi. unfold size0, KernelSamples.emb_pair in Hi. simpl in Hi.
    assert (i = 0%nat) by lia. subst i.
    split; [reflexivity|]. repeat constructor.
Defined.

End MLPFacts.

(** ** Summed weights and the identity operator *)

Module WeightFacts.
Import TensorFacts RealScalar Kernels KernelFacts.
Local Open Scope R_scope.
Local Unset Implicit Arguments.

Definition unit_interval (x : R) : Prop := 0 <= x <= 1.

Lemma Rsum_unit_bounds (l : list R) :
  Forall unit_interval l -> 0 <= Rsum l <= INR (length l).
Proof.
  induction 1 as [|x l [Hx0 Hx1] _ IH].
  - unfold Rsum. simpl. lra.
  - change (Rsum (x :: l)) with (x + Rsum l).
    change (length (x :: l)) with (S (length l)). rewrite S_INR. lra.
Qed.

Lemma Rsum_without_one (l : list R) (j : nat) :
  Forall unit_interval l -> (j < length l)%nat ->
  0 <= Rsum l - nth j l 0 <= INR (length l) - 1.
Proof.
  intros Hall. revert j. induction Hall as [|x l [Hx0 Hx1] Hl IH]; intros j Hj;
    simpl in Hj; [lia|].
  change (Rsum (x :: l)) with (x + Rsum l).
  change (length (x :: l)) with (S (length l)). rewrite S_INR.
  destruct j as [|j]; simpl.
  - pose proof (Rsum_unit_bounds l Hl). lra.
  - assert (Hj' : (j < length l)%nat) by lia. specialize (IH j Hj'). lra.
Qed.

Lemma col_unit (j : nat) (m : matrix R) :
  Forall (Forall unit_interval) m -> Forall unit_interval (col j m).
Proof.
  intros Hall. unfold col. apply Forall_map.
  eapply Forall_impl; [|exact Hall]. simpl. intros row Hrow.
  destruct (Nat.lt_ge_cases j (length row)) as [Hlt|Hge].
  - rewrite Forall_forall in Hrow. apply Hrow, nth_In. exact Hlt.
  - rewrite nth_overflow by exact Hge. unfold unit_interval. lra.
Qed.

Lemma nth_col_diag (j : nat) (m : matrix R) :
  nth j (col j m) 0 = nth j (nth j m []) 0.
Proof.
  unfold col. destruct (Nat.lt_ge_cases j (length m)) as [Hlt|Hge].
  - exact (@nth_map_in (list R) R (fun row => nth j row 0) m j 0 [] Hlt).
  - rewrite (nth_overflow m [] Hge).
    rewrite nth_overflow by (rewrite length_map; exact Hge).
    destruct j; reflexivity.
Qed.

Lemma get_summed_weights_square (n : nat) (m : matrix R) :
  has_shape2 n n m ->
  get_summed_weights m
  = map (fun j => (Rsum (col j m) - nth j (col j m) 0) / (INR n - 1)) (seq 0 n).
Proof.
  intros [Hlen Hall]. unfold get_summed_weights.
  assert (Hc : ncols m = n).
  { unfold ncols. destruct m as [|row m']; simpl in *; [lia|]. now inversion Hall. }
  rewrite Hc, Hlen, GraphNormFacts.zip_with_same, map_map.
  apply map_ext. intros j.
  rewrite nth_col_diag, minus_IZR, <- INR_IZR_INZ. reflexivity.
Qed.

(** X15.  On a square adjacency of at least two nodes whose entries lie in
    [0, 1], as every kernel of the sigmoid and Gaussian families produces,
    [get_summed_weights] gives one weight per node and every weight lies in
    [0, 1] again: the incoming weights of a node, without its self edge,
    averaged over the other nodes. *)
Theorem get_summed_weights_unit_interval (n : nat) (adj_in : matrix R) :
  (2 <= n)%nat -> has_shape2 n n adj_in ->
  Forall (Forall unit_interval) adj_in ->
  length (get_summed_weights adj_in) = n
  /\ Forall unit_interval (get_summed_weights adj_in).
Proof.
  intros Hn Hshape Hunit.
  rewrite (get_summed_weights_square n adj_in Hshape).
  split; [now rewrite length_map, length_seq|].
  apply Forall_map, Forall_forall. intros j Hj. apply in_seq in Hj.
  assert (Hcol : length (col j adj_in) = n)
    by (unfold col; rewrite length_map; destruct Hshape; assumption).
  pose proof (Rsum_without_one (col j adj_in) j (col_unit j adj_in Hunit)
                ltac:(rewrite Hcol; lia)) as [Hlo Hhi].
  rewrite Hcol in Hhi.
  assert (Hpos : 0 < INR n - 1).
  { assert (H2 : INR 2 <= INR n) by (apply le_INR; exact Hn). simpl in H2. lra. }
  unfold unit_interval. split.
  - apply Rmult_le_pos; [exact Hlo|]. left. now apply Rinv_0_lt_compat.
  - apply (Rmult_le_reg_r (INR n - 1)); [exact Hpos|].
    unfold Rdiv. rewrite Rmult_assoc, Rinv_l by lra. lra.
Qed.

Lemma get_summed_weights_unit_interval_witness :
  length (get_summed_weights [[0; 1]; [1 / 2; 0]]) = 2%nat
  /\ Forall unit_interval (get_summed_weights [[0; 1]; [1 / 2; 0]]).
Proof.
  apply (get_summed_weights_unit_interval 2 [[0; 1]; [1 / 2; 0]]).
  - lia.
  - split; [reflexivity|]. repeat constructor.
  - repeat constructor; unfold unit_interval; lra.
Defined.

(** *** The identity operator *)

Lemma fold_left_Rplus (l : list R) (a : R) : fold_left Rplus l a = a + Rsum l.
Proof.
  revert a; induction l as [|x l IH]; intros a; unfold Rsum in *; simpl; [lra|].
  rewrite IH. lra.
Qed.

Lemma dot_Rsum (a c : list R) : dot a c = Rsum (zip_with Rmult a c).
Proof.
  unfold dot. simpl. rewrite fold_left_Rplus. lra.
Qed.

Definition delta (j i : nat) : R := if Nat.eqb i j then 1 else 0.

Lemma Rsum_delta (row : list R) (j : nat) :
  forall s, Rsum (zip_with Rmult row (map (delta j) (seq s (length row))))
            = if (s <=? j)%nat && (j <? s + length row)%nat then nth (j - s) row 0 else 0.
Proof.
  induction row as [|x row IH]; intros s.
  - simpl. unfold Rsum. simpl.
    destruct ((s <=? j)%nat && (j <? s + 0)%nat) eqn:E; [|reflexivity].
    apply andb_prop in E. destruct E as [E1 E2].
    apply Nat.leb_le in E1. apply Nat.ltb_lt in E2. lia.
  - change (Rsum (zip_with Rmult (x :: row) (map (delta j) (seq s (length (x :: row))))))
      with (x * delta j s + Rsum (zip_with Rmult row (map (delta j) (seq (S s) (length row))))).
    rewrite IH. unfold delta.
    destruct (Nat.eqb_spec s j) as [->|Hne].
    + replace (j - j)%nat with 0%nat by lia. simpl nth.
      replace ((S j <=? j)%nat) with false by (symmetry; apply Nat.leb_gt; lia).
      replace ((j <=? j)%nat) with true by (symmetry; apply Nat.leb_le; lia).
      replace ((j <? j + length (x :: row))%nat) with true
        by (symmetry; apply Nat.ltb_lt; simpl; lia).
      simpl. lra.
    + destruct (Nat.leb_spec (S s) j) as [Hle|Hgt].
      * replace ((s <=? j)%nat) with true by (symmetry; apply Nat.leb_le; lia).
        replace ((j <? s + length (x :: row))%nat) with ((j <? S s + length row)%nat)
          by (simpl; f_equal; lia).
        replace (j - s)%nat with (S (j - S s)) by lia. simpl.
        destruct (j <? S (s + length row))%nat; lra.
      * replace ((s <=? j)%nat) with false by (symmetry; apply Nat.leb_gt; lia).
        simpl. lra.
Qed.

Lemma col_eye (n j : nat) : (j < n)%nat -> col j (eye n) = map (delta j) (seq 0 n).
Proof.
  intros Hj. unfold col, eye. rewrite map_map.
  apply map_ext. intros i.
  etransitivity;
    [exact (@nth_map_seq R (fun j0 => if Nat.eqb i j0 then 1 else 0) n j 0 Hj)|].
  unfold delta. reflexivity.
Qed.

Lemma matmul_eye (n : nat) (e : matrix R) :
  Forall (fun row => length row = n) e -> matmul e (eye n) = e.
Proof.
  intros Hall. unfold matmul.
  assert (Hnc : ncols (eye n) = n).
  { unfold ncols, eye. destruct n as [|n]; [reflexivity|].
    simpl. now rewrite length_map, length_seq. }
  rewrite Hnc. rewrite <- (map_id e) at 2.
  apply map_ext_in. intros row Hrow. rewrite Forall_forall in Hall.
  specialize (Hall row Hrow).
  transitivity (map (fun j => nth j row 0) (seq 0 n)).
  - apply map_ext_in. intros j Hj. apply in_seq in Hj.
    rewrite dot_Rsum, col_eye by lia.
    rewrite <- Hall. rewrite Rsum_delta.
    replace ((0 <=? j)%nat) with true by (symmetry; apply Nat.leb_le; lia).
    replace ((j <? 0 + length row)%nat) with true by (symmetry; apply Nat.ltb_lt; lia).
    simpl. now rewrite Nat.sub_0_r.
  - rewrite <- Hall. apply map_nth_seq.
Qed.

(** X16.  The adjacency of the [Identity] kernel is neutral for the product
    the convolution takes: on an embedding of shape (batch, fm, nodes) the
    kernel returns one identity matrix per graph, and [bmm(emb_in, adj)] is
    the embedding itself. *)
Theorem Identity_operator_neutral
    (k : Identity) (adj_in emb_in : tensor3 R) (batch fm nodes : nat) :
  (0 < batch)%nat -> (0 < fm)%nat ->
  has_shape3 batch fm nodes emb_in ->
  exists adj k',
    Identity_forward k (adj_in, emb_in) = Ok (adj, k')
    /\ has_shape3 batch nodes nodes adj
    /\ bmm emb_in adj = emb_in.
Proof.
  intros Hb Hf Hshape. unfold Identity_forward.
  assert (H0 : size0 emb_in = batch) by (destruct Hshape; assumption).
  rewrite (GraphNormFacts.shape3_size2 Hb Hf Hshape), H0.
  eexists. eexists. split; [reflexivity|]. split; [split|].
  - apply repeat_length.
  - apply Forall_forall. intros m Hm. apply repeat_spec in Hm. subst m.
    unfold eye. split; [now rewrite length_map, length_seq|].
    apply Forall_map, Forall_forall. intros i _. now rewrite length_map, length_seq.
  - unfold bmm. rewrite <- H0. unfold size0.
    rewrite GraphNormFacts.zip_with_repeat_r.
    rewrite <- (map_id emb_in) at 2.
    apply map_ext_in. intros e He. apply matmul_eye.
    destruct Hshape as [_ Hall]. rewrite Forall_forall in Hall.
    destruct (Hall e He) as [_ Hrows]. exact Hrows.
Qed.

Lemma Identity_operator_neutral_witness :
  exists adj k',
    Identity_forward (Identity_init false) ([], KernelSamples.emb_pair) = Ok (adj, k')
    /\ has_shape3 1 2 2 adj
    /\ bmm KernelSamples.emb_pair adj = KernelSamples.emb_pair.
Proof.
  apply (Identity_operator_neutral (Identity_init false) [] KernelSamples.emb_pair 1 1 2).
  - exact Nat.lt_0_1.
  - exact Nat.lt_0_1.
  - split; [reflexivity|]. repeat constructor.
Defined.

End WeightFacts.

(** ** More facts on Atlas_nyu/statistics.py *)

Module StatsMoreFacts.
Import String.
Import RealScalar Stats StatsFlush.
Local Open Scope R_scope.
Local Unset Implicit Arguments.

(** One batch as [update] receives it. *)
Record batch : Type := {
  output : list R;
  labels : list R;
  loss_step : R;
  kernel_std : R
}.

Definition update_batch (m : mode) (st : Statistics) (b : batch) : Statistics :=
  update st m (output b) (labels b) (loss_step b) (kernel_std b).

(** A sequence of batches of one mode, in order. *)
Definition run (m : mode) (st : Statistics) (bs : list batch) : Statistics :=
  fold_left (update_batch m) bs st.

(** The buffer of a mode with one more batch added, as [update] adds it. *)
Definition add_batch (b : buffer) (x : batch) : buffer :=
  let output_ones := zip_with Rmult (output x) (labels x) in
  let output_zero := zip_with Rmult (output x) (map (fun l => 1 - l) (labels x)) in
  {| b_loss := b_loss b + loss_step x;
     b_kernel := b_kernel b + kernel_std x;
     b_avg0 := b_avg0 b + Rsum output_zero;
     b_avg1 := b_avg1 b + Rsum output_ones;
     b_std0 := b_std0 b + Rsum (map (fun x => x ^ 2) output_zero);
     b_std1 := b_std1 b + Rsum (map (fun x => x ^ 2) output_ones);
     nb_ones := nb_ones b + Rsum (labels x);
     nb_zero := nb_zero b + Rsum (map (fun l => 1 - l) (labels x)) |}.

(** The file of a statistic, and what has been written to a file so far
    (nothing when it does not exist). *)
Definition stat_file (s : stat) : string := String.append (stat_name s) ".csv".

Definition content (fs : files_t) (name : string) : list R :=
  match find (fun f => String.eqb (fst f) name) fs with
  | Some f => snd f
  | None => []
  end.

(** The statistics of a summary line, by mode. *)
Definition line_stats (m : mode) : list stat :=
  match m with
  | train => stats
  | test => filter without_loss stats
  end.

(** Whether the batch that is counted next completes the window of mode [m],
    and whether it completes the window of [nbstep] train steps. *)
Definition completes (st : Statistics) (m : mode) : bool :=
  (nbdisplay st <=? nb_batch_in_buffer st m + 1)%Z.

Definition completes_step (st : Statistics) : bool := (nbstep st <=? steps st + 1)%Z.

(** Every file of [old] is still there in [new], with its content extended
    at the end. *)
Definition files_grow (old new : files_t) : Prop :=
  forall name content,
    In (name, content) old -> exists extra, In (name, content ++ extra) new.

Lemma files_grow_refl (fs : files_t) : files_grow fs fs.
Proof. intros name content Hin. exists []. now rewrite app_nil_r. Qed.

Lemma files_grow_trans (a b c : files_t) :
  files_grow a b -> files_grow b c -> files_grow a c.
Proof.
  intros Hab Hbc name content Hin.
  destruct (Hab name content Hin) as [e1 H1].
  destruct (Hbc name _ H1) as [e2 H2].
  exists (e1 ++ e2). now rewrite app_assoc.
Qed.

Lemma append_file_grows (fs : files_t) (filename : string) (value : R) :
  files_grow fs (append_file fs filename value).
Proof.
  induction fs as [|[name content] fs IH]; intros n c Hin; [contradiction|].
  simpl. destruct (String.eqb name filename).
  - destruct Hin as [Heq|Hin].
    + injection Heq as <- <-. exists [value]. now left.
    + exists []. rewrite app_nil_r. now right.
  - destruct Hin as [Heq|Hin].
    + exists []. rewrite app_nil_r. now left.
    + destruct (IH n c Hin) as [extra He]. exists extra. now right.
Qed.

Lemma write_stats_grow (m : mode) (l : list stat) (st : Statistics) :
  files_grow (files st)
    (files (fold_left (fun st s => write_stat st (stat_name s) (get_stat (buffers st m) s)) l st)).
Proof.
  revert st; induction l as [|s l IH]; intros st; [apply files_grow_refl|].
  change (files_grow (files st)
            (files (fold_left
                      (fun st s => write_stat st (stat_name s) (get_stat (buffers st m) s)) l
                      (write_stat st (stat_name s) (get_stat (buffers st m) s))))).
  eapply files_grow_trans; [|apply IH].
  apply append_file_grows.
Qed.

Lemma files_set_nb_batch (st : Statistics) (m : mode) (n : Z) :
  files (set_nb_batch st m n) = files st.
Proof. reflexivity. Qed.

Lemma files_set_buffer (st : Statistics) (m : mode) (b : buffer) :
  files (set_buffer st m b) = files st.
Proof. reflexivity. Qed.

Lemma files_print_ (st : Statistics) (l : line) : files (print_ st l) = files st.
Proof. reflexivity. Qed.

Lemma files__init_buffer (st : Statistics) (m : mode) : files (_init_buffer st m) = files st.
Proof. reflexivity. Qed.

Lemma _update_buffer_grows (st : Statistics) (m : mode) :
  files_grow (files st) (files (_update_buffer st m)).
Proof.
  unfold _update_buffer. cbv zeta.
  destruct (_ <=? _)%Z.
  - rewrite files__init_buffer. destruct m.
    + rewrite files_print_.
      eapply files_grow_trans; [|apply write_stats_grow].
      rewrite files_set_buffer, files_set_nb_batch. apply files_grow_refl.
    + rewrite files_print_, files_set_buffer, files_set_nb_batch. apply files_grow_refl.
  - rewrite files_set_nb_batch. apply files_grow_refl.
Qed.

Lemma _update_buffer_test_files (st : Statistics) :
  files (_update_buffer st test) = files st.
Proof.
  unfold _update_buffer. cbv zeta. destruct (_ <=? _)%Z; reflexivity.
Qed.

(** *** Files as contents *)

Lemma content_append_same (fs : files_t) (name : string) (v : R) :
  content (append_file fs name v) name = content fs name ++ [v].
Proof.
  unfold content. induction fs as [|[n c] fs IH].
  - cbn. rewrite String.eqb_refl. reflexivity.
  - cbn. destruct (String.eqb n name) eqn:E; cbn; rewrite E; [reflexivity|exact IH].
Qed.

Lemma content_append_other (fs : files_t) (name name' : string) (v : R) :
  name <> name' ->
  content (append_file fs name v) name' = content fs name'.
Proof.
  intros Hne. unfold content. induction fs as [|[n c] fs IH].
  - cbn. apply String.eqb_neq in Hne. rewrite Hne. reflexivity.
  - cbn. destruct (String.eqb n name) eqn:E; cbn.
    + apply String.eqb_eq in E. subst n.
      apply String.eqb_neq in Hne. rewrite Hne. reflexivity.
    + destruct (String.eqb n name'); [reflexivity|exact IH].
Qed.

Lemma content_append (fs : files_t) (name name' : string) (v : R) :
  content (append_file fs name v) name'
  = content fs name' ++ (if String.eqb name name' then [v] else []).
Proof.
  destruct (String.eqb_spec name name') as [<-|Hne].
  - apply content_append_same.
  - rewrite app_nil_r. now apply content_append_other.
Qed.

Lemma content_fold (g : stat -> R) (name : string) (l : list stat) :
  forall fs,
    content (fold_left (fun fs s => append_file fs (stat_file s) (g s)) l fs) name
    = content fs name ++ map g (filter (fun s => String.eqb (stat_file s) name) l).
Proof.
  induction l as [|s l IH]; intros fs.
  - cbn. now rewrite app_nil_r.
  - cbn [fold_left filter]. rewrite IH, content_append.
    destruct (String.eqb (stat_file s) name); cbn [map].
    + rewrite <- app_assoc. reflexivity.
    + rewrite app_nil_r. reflexivity.
Qed.

(** *** The two halves of [update] *)

Lemma normalize_buffer_loss (n : Z) (b : buffer) :
  b_loss (normalize_buffer n b) = b_loss b / IZR n
  /\ b_kernel (normalize_buffer n b) = b_kernel b / IZR n
  /\ (0 < nb_ones b -> b_avg1 (normalize_buffer n b) = b_avg1 b / nb_ones b)
  /\ (0 < nb_zero b -> b_avg0 (normalize_buffer n b) = b_avg0 b / nb_zero b).
Proof.
  unfold normalize_buffer.
  destruct (Rlt_dec 0 (nb_ones b)); destruct (Rlt_dec 0 (nb_zero b));
    repeat split; intros; try reflexivity; contradiction.
Qed.

(** [_update_buffer], field by field. *)
Lemma _update_buffer_fields (st : Statistics) (m : mode) :
  let st' := _update_buffer st m in
  let nb := normalize_buffer (nbdisplay st) (buffers st m) in
  nbdisplay st' = nbdisplay st
  /\ nbstep st' = nbstep st
  /\ stdout st' = stdout st
  /\ steploss st' = steploss st
  /\ steps st' = steps st
  /\ nb_events_seen st' = nb_events_seen st
  /\ (forall m',
        nb_batch_in_buffer st' m'
        = if mode_eqb m m'
          then (if completes st m then 0 else nb_batch_in_buffer st m + 1)%Z
          else nb_batch_in_buffer st m')
  /\ (forall m',
        buffers st' m'
        = if mode_eqb m m'
          then (if completes st m then empty_buffer else buffers st m)
          else buffers st m')
  /\ printed st'
     = (if completes st m
        then printed st
             ++ [{| events := nb_events_seen st m;
                    shown := map (fun s => (stat_name s, get_stat nb s)) (line_stats m);
                    sink := match m with train => stdout st | test => None end |}]
        else printed st)
  /\ files st'
     = (if completes st m
        then match m with
             | train =>
                 fold_left (fun fs s => append_file fs (stat_file s) (get_stat nb s)) stats
                           (files st)
             | test => files st
             end
        else files st).
Proof.
  intros st' nb. unfold st', nb, completes.
  destruct (Z.leb_spec (nbdisplay st) (nb_batch_in_buffer st m + 1)) as [Hfull|Hnot].
  - unfold _update_buffer.
    assert (Hleb : (nbdisplay (set_nb_batch st m (nb_batch_in_buffer st m + 1))
                    <=? nb_batch_in_buffer (set_nb_batch st m (nb_batch_in_buffer st m + 1)) m)%Z
                   = true).
    { apply Z.leb_le. cbn [nbdisplay nb_batch_in_buffer set_nb_batch]. unfold set_mode.
      destruct m; cbn [mode_eqb]; lia. }
    rewrite Hleb. clear Hleb.
    destruct m; repeat split; try reflexivity; intros m'; destruct m'; reflexivity.
  - unfold _update_buffer.
    assert (Hleb : (nbdisplay (set_nb_batch st m (nb_batch_in_buffer st m + 1))
                    <=? nb_batch_in_buffer (set_nb_batch st m (nb_batch_in_buffer st m + 1)) m)%Z
                   = false).
    { apply Z.leb_gt. cbn [nbdisplay nb_batch_in_buffer set_nb_batch]. unfold set_mode.
      destruct m; cbn [mode_eqb]; lia. }
    rewrite Hleb. clear Hleb.
    destruct m; repeat split; try reflexivity; intros m'; destruct m'; reflexivity.
Qed.

(** [update] is [_update_buffer] on the state in which the batch has been
    counted and added to the buffer of its mode. *)
Lemma update_as_buffer_update (st : Statistics) (m : mode) (x : batch) :
  exists X,
    update_batch m st x = _update_buffer X m
    /\ nbdisplay X = nbdisplay st
    /\ nbstep X = nbstep st
    /\ stdout X = stdout st
    /\ nb_batch_in_buffer X = nb_batch_in_buffer st
    /\ printed X = printed st
    /\ (forall m',
          nb_events_seen X m'
          = if mode_eqb m m'
            then (nb_events_seen st m + Z.of_nat (List.length (labels x)))%Z
            else nb_events_seen st m')
    /\ buffers X m = add_batch (buffers st m) x
    /\ (forall m', m' <> m -> buffers X m' = buffers st m')
    /\ files X
       = match m with
         | train =>
             if completes_step st
             then append_file (files st) "loss_step.csv" (loss_step x / IZR (nbstep st))
             else files st
         | test => files st
         end
    /\ steploss X
       = match m with
         | train => if completes_step st then 0 else steploss st + loss_step x
         | test => steploss st
         end
    /\ steps X
       = match m with
         | train => if completes_step st then 0%Z else (steps st + 1)%Z
         | test => steps st
         end.
Proof.
  unfold update_batch, update, completes_step. cbv zeta. eexists. split; [reflexivity|].
  destruct m.
  - cbn [nbstep steps].
    destruct (nbstep st <=? steps st + 1)%Z;
      repeat split; try reflexivity;
      try (intros m'; destruct m'; reflexivity);
      intros m' Hne; destruct m'; try congruence; reflexivity.
  - repeat split; try reflexivity;
      try (intros m'; destruct m'; reflexivity);
      intros m' Hne; destruct m'; try congruence; reflexivity.
Qed.

(** [update], field by field.  A file is described by its content. *)
Lemma update_fields (st : Statistics) (m : mode) (x : batch) :
  let st' := update_batch m st x in
  let acc := add_batch (buffers st m) x in
  let nb := normalize_buffer (nbdisplay st) acc in
  let seen := (nb_events_seen st m + Z.of_nat (List.length (labels x)))%Z in
  nbdisplay st' = nbdisplay st
  /\ nbstep st' = nbstep st
  /\ stdout st' = stdout st
  /\ (forall m',
        nb_batch_in_buffer st' m'
        = if mode_eqb m m'
          then (if completes st m then 0 else nb_batch_in_buffer st m + 1)%Z
          else nb_batch_in_buffer st m')
  /\ (forall m',
        buffers st' m'
        = if mode_eqb m m'
          then (if completes st m then empty_buffer else acc)
          else buffers st m')
  /\ (forall m', nb_events_seen st' m' = if mode_eqb m m' then seen else nb_events_seen st m')
  /\ printed st'
     = (if completes st m
        then printed st
             ++ [{| events := seen;
                    shown := map (fun s => (stat_name s, get_stat nb s)) (line_stats m);
                    sink := match m with train => stdout st | test => None end |}]
        else printed st)
  /\ (forall name,
        content (files st') name
        = (content (files st) name
           ++ (if String.eqb "loss_step.csv" name
               then match m with
                    | train =>
                        if completes_step st then [loss_step x / IZR (nbstep st)] else []
                    | test => []
                    end
               else []))
          ++ (if completes st m
              then match m with
                   | train =>
                       map (get_stat nb) (filter (fun s => String.eqb (stat_file s) name) stats)
                   | test => []
                   end
              else []))
  /\ steploss st'
     = match m with
       | train => if completes_step st then 0 else steploss st + loss_step x
       | test => steploss st
       end
  /\ steps st'
     = match m with
       | train => if completes_step st then 0%Z else (steps st + 1)%Z
       | test => steps st
       end.
Proof.
  intros st' acc nb seen. unfold st', acc, nb, seen.
  destruct (update_as_buffer_update st m x)
    as (X & HU & Hnd & Hns & Hso & Hnb & Hpr & Hev & Hb & Hbo & Hf & Hsl & Hst).
  rewrite HU.
  pose proof (_update_buffer_fields X m) as F. cbv zeta in F.
  destruct F as (Fnd & Fns & Fso & Fsl & Fst & Fev & Fnb & Fb & Fpr & Ff).
  assert (Hc : completes X m = completes st m) by (unfold completes; now rewrite Hnd, Hnb).
  assert (Hmm : mode_eqb m m = true) by (destruct m; reflexivity).
  assert (HevM := Hev m). rewrite Hmm in HevM.
  rewrite Fnd, Fns, Fso, Fsl, Fst, Fev, Fpr, Ff, Hc, Hnd, Hns, Hso, Hpr, HevM, Hb, Hf, Hsl, Hst.
  repeat split; try reflexivity.
  - intros m'. rewrite Fnb, Hc, Hnb. reflexivity.
  - intros m'. rewrite Fb, Hc. destruct (mode_eqb m m') eqn:E.
    + rewrite Hb. reflexivity.
    + apply Hbo. intros ->. rewrite Hmm in E. discriminate.
  - exact Hev.
  - intros name. destruct m.
    + destruct (completes st train); destruct (completes_step st);
        rewrite ?content_fold, ?content_append, ?app_nil_r;
        destruct (String.eqb "loss_step.csv" name); rewrite ?app_nil_r; reflexivity.
    + destruct (completes st test); destruct (String.eqb "loss_step.csv" name);
        rewrite ?app_nil_r; reflexivity.
Qed.

Lemma update_batch_eq
    (st : Statistics) (m : mode) (out lab : list R) (loss_step0 kernel_std0 : R) :
  update st m out lab loss_step0 kernel_std0
  = update_batch m st {| output := out; labels := lab; loss_step := loss_step0;
                         kernel_std := kernel_std0 |}.
Proof. unfold update_batch. cbn [output labels loss_step kernel_std]. reflexivity. Qed.

(** X19.  The statistics files are append-only: after any call of [update],
    in either mode, every file that existed is still there and its earlier
    content is a prefix of its content. *)
Theorem update_files_append_only
    (st : Statistics) (m : mode) (out lab : list R) (loss_step0 kernel_std0 : R) :
  files_grow (files st) (files (update st m out lab loss_step0 kernel_std0)).
Proof.
  rewrite update_batch_eq.
  destruct (update_as_buffer_update st m
              {| output := out; labels := lab; loss_step := loss_step0;
                 kernel_std := kernel_std0 |})
    as (X & HU & _ & _ & _ & _ & _ & _ & _ & _ & Hf & _).
  rewrite HU.
  eapply files_grow_trans; [|apply _update_buffer_grows].
  rewrite Hf. destruct m; [destruct (completes_step st)|].
  - apply append_file_grows.
  - apply files_grow_refl.
  - apply files_grow_refl.
Qed.

(** X20.  In test mode [update] writes to no file, in any state and whether
    or not the batch completes a window. *)
Theorem update_test_writes_nothing
    (st : Statistics) (out lab : list R) (loss_step0 kernel_std0 : R) :
  files (update st test out lab loss_step0 kernel_std0) = files st.
Proof.
  rewrite update_batch_eq.
  destruct (update_as_buffer_update st test
              {| output := out; labels := lab; loss_step := loss_step0;
                 kernel_std := kernel_std0 |})
    as (X & HU & _ & _ & _ & _ & _ & _ & _ & _ & Hf & _).
  rewrite HU, _update_buffer_test_files. exact Hf.
Qed.

(** X21.  The batch counter of a mode stays within the window: when
    [nbdisplay] is at least 1 and the counter is in [0, nbdisplay), it is so
    again after [update]; the counter of the other mode and [nbdisplay] do not
    change. *)
Theorem update_counter_in_window
    (st : Statistics) (m m' : mode) (out lab : list R) (loss_step0 kernel_std0 : R) :
  (1 <= nbdisplay st)%Z ->
  (0 <= nb_batch_in_buffer st m < nbdisplay st)%Z ->
  let st' := update st m out lab loss_step0 kernel_std0 in
  nbdisplay st' = nbdisplay st
  /\ (0 <= nb_batch_in_buffer st' m < nbdisplay st)%Z
  /\ (m' <> m -> nb_batch_in_buffer st' m' = nb_batch_in_buffer st m').
Proof.
  intros Hnb Hc st'. subst st'. rewrite update_batch_eq.
  pose proof (update_fields st m {| output := out; labels := lab; loss_step := loss_step0;
                                    kernel_std := kernel_std0 |}) as F.
  cbv zeta in F. destruct F as (Fnd & _ & _ & Fnb & _).
  split; [exact Fnd|]. split.
  - rewrite Fnb. replace (mode_eqb m m) with true by (destruct m; reflexivity).
    unfold completes.
    destruct (Z.leb_spec (nbdisplay st) (nb_batch_in_buffer st m + 1)); lia.
  - intros Hne. rewrite Fnb.
    destruct m, m'; try congruence; reflexivity.
Qed.

Lemma update_counter_in_window_witness :
  let st' := update sample_stats train [1] [1] 2 3 in
  nbdisplay st' = nbdisplay sample_stats
  /\ (0 <= nb_batch_in_buffer st' train < nbdisplay sample_stats)%Z
  /\ (test <> train -> nb_batch_in_buffer st' test = nb_batch_in_buffer sample_stats test).
Proof.
  apply (update_counter_in_window sample_stats train test [1] [1] 2 3).
  - apply Z.le_refl.
  - split; [apply Z.le_refl|reflexivity].
Defined.

(** X22.  What reaches loss_step.csv.  A train batch that completes the
    window of [nbstep] steps appends one value to loss_step.csv: the loss of
    that batch alone divided by [nbstep], whatever had been accumulated in
    [steploss]; both [steploss] and [steps] restart at zero.  Any other train
    batch leaves the file as it is and adds its loss to [steploss].  This
    holds whether or not the batch also completes the display window. *)
Theorem update_loss_step_file
    (st : Statistics) (out lab : list R) (loss_step0 kernel_std0 : R) :
  let st' := update st train out lab loss_step0 kernel_std0 in
  content (files st') "loss_step.csv"
  = content (files st) "loss_step.csv"
    ++ (if completes_step st then [loss_step0 / IZR (nbstep st)] else [])
  /\ steploss st' = (if completes_step st then 0 else steploss st + loss_step0)
  /\ steps st' = (if completes_step st then 0 else steps st + 1)%Z.
Proof.
  intros st'. subst st'. rewrite update_batch_eq.
  pose proof (update_fields st train {| output := out; labels := lab; loss_step := loss_step0;
                                        kernel_std := kernel_std0 |}) as F.
  cbv zeta in F. destruct F as (_ & _ & _ & _ & _ & _ & _ & Fc & Fsl & Fst).
  split; [|split; assumption].
  rewrite Fc.
  change (String.eqb "loss_step.csv" "loss_step.csv") with true.
  change (filter (fun s => String.eqb (stat_file s) "loss_step.csv") stats) with (@nil stat).
  cbn [map loss_step].
  destruct (completes st train); now rewrite app_nil_r.
Qed.

(** *** A whole window *)

Lemma Rsum_cons (a : R) (l : list R) : Rsum (a :: l) = a + Rsum l.
Proof. reflexivity. Qed.

Lemma fold_add_batch (bs : list batch) :
  forall b,
    b_loss (fold_left add_batch bs b) = b_loss b + Rsum (map loss_step bs)
    /\ b_kernel (fold_left add_batch bs b) = b_kernel b + Rsum (map kernel_std bs)
    /\ b_avg1 (fold_left add_batch bs b)
       = b_avg1 b + Rsum (map (fun x => Rsum (zip_with Rmult (output x) (labels x))) bs)
    /\ nb_ones (fold_left add_batch bs b)
       = nb_ones b + Rsum (map (fun x => Rsum (labels x)) bs).
Proof.
  induction bs as [|x bs IH]; intros b.
  - cbn [fold_left map]. change (Rsum []) with 0.
    repeat split; now rewrite Rplus_0_r.
  - change (fold_left add_batch (x :: bs) b) with (fold_left add_batch bs (add_batch b x)).
    destruct (IH (add_batch b x)) as (Hl & Hk & Ha & Hn).
    rewrite Hl, Hk, Ha, Hn. cbn [map]. rewrite !Rsum_cons.
    unfold add_batch. cbn [b_loss b_kernel b_avg1 nb_ones].
    repeat split; apply Rplus_assoc.
Qed.

Lemma run_incomplete (m : mode) (bs : list batch) :
  forall st,
    (nb_batch_in_buffer st m + Z.of_nat (List.length bs) < nbdisplay st)%Z ->
    let st' := run m st bs in
    nbdisplay st' = nbdisplay st
    /\ stdout st' = stdout st
    /\ nb_batch_in_buffer st' m = (nb_batch_in_buffer st m + Z.of_nat (List.length bs))%Z
    /\ buffers st' m = fold_left add_batch bs (buffers st m)
    /\ nb_events_seen st' m
       = (nb_events_seen st m + Z.of_nat (List.length (List.concat (map labels bs))))%Z
    /\ printed st' = printed st
    /\ (forall name,
          name <> "loss_step.csv"%string -> content (files st') name = content (files st) name).
Proof.
  induction bs as [|x bs IH]; intros st Hwin.
  - cbn. repeat split; try reflexivity; try lia.
  - change (List.length (x :: bs)) with (S (List.length bs)) in Hwin.
    rewrite Nat2Z.inj_succ in Hwin.
    pose proof (update_fields st m x) as F. cbv zeta in F.
    destruct F as (Fnd & _ & Fso & Fnb & Fb & Fev & Fpr & Fc & _).
    assert (Hnot : completes st m = false) by (apply Z.leb_gt; lia).
    assert (Hmm : mode_eqb m m = true) by (destruct m; reflexivity).
    specialize (Fnb m). specialize (Fb m). specialize (Fev m).
    rewrite Hmm in Fnb, Fb, Fev. rewrite Hnot in Fnb, Fb, Fpr.
    specialize (IH (update_batch m st x)).
    rewrite Fnd, Fnb in IH.
    destruct (IH ltac:(lia)) as (Hnd & Hso & Hnb & Hb & Hev & Hpr & Hc).
    change (run m st (x :: bs)) with (run m (update_batch m st x) bs). cbv zeta.
    rewrite Hnd, Hso, Hnb, Hb, Hev, Hpr, Fso, Fb, Fev, Fpr.
    repeat split; try reflexivity.
    + change (List.length (x :: bs)) with (S (List.length bs)). lia.
    + change (List.concat (map labels (x :: bs))) with (labels x ++ List.concat (map labels bs)).
      rewrite length_app. lia.
    + intros name Hne. rewrite (Hc name Hne), Fc, Hnot.
      replace (String.eqb "loss_step.csv" name) with false.
      * now rewrite !app_nil_r.
      * symmetry. apply String.eqb_neq. congruence.
Qed.

Lemma kernel_in_line_stats (m : mode) : In kernel (line_stats m).
Proof. destruct m; vm_compute; auto. Qed.

Lemma avg1_in_line_stats (m : mode) : In avg1 (line_stats m).
Proof. destruct m; vm_compute; auto 10. Qed.

(** The batches that complete a window, from any buffer. *)
Lemma run_completes (m : mode) (st : Statistics) (bs : list batch) :
  bs <> [] ->
  (nb_batch_in_buffer st m + Z.of_nat (List.length bs))%Z = nbdisplay st ->
  let st' := run m st bs in
  let nb := normalize_buffer (nbdisplay st) (fold_left add_batch bs (buffers st m)) in
  buffers st' m = empty_buffer
  /\ nb_batch_in_buffer st' m = 0%Z
  /\ printed st'
     = printed st
       ++ [{| events := (nb_events_seen st m
                         + Z.of_nat (List.length (List.concat (map labels bs))))%Z;
              shown := map (fun s => (stat_name s, get_stat nb s)) (line_stats m);
              sink := match m with train => stdout st | test => None end |}]
  /\ (forall name,
        name <> "loss_step.csv"%string ->
        content (files st') name
        = content (files st) name
          ++ match m with
             | train => map (get_stat nb) (filter (fun s => String.eqb (stat_file s) name) stats)
             | test => []
             end).
Proof.
  intros Hne Hn st' nb. unfold nb.
  destruct (exists_last Hne) as (init & x & Hbs).
  assert (Hlen : List.length bs = S (List.length init)).
  { rewrite Hbs, length_app. cbn. lia. }
  pose proof (run_incomplete m init st) as P. cbv zeta in P.
  destruct (P ltac:(lia)) as (Pnd & Pso & Pnb & Pb & Pev & Ppr & Pc). clear P.
  assert (Hst' : st' = update_batch m (run m st init) x).
  { unfold st', run. rewrite Hbs, fold_left_app. reflexivity. }
  clearbody st'. subst st'.
  set (st1 := run m st init) in *. clearbody st1.
  pose proof (update_fields st1 m x) as F. cbv zeta in F.
  destruct F as (Fnd & _ & Fso & Fnb & Fb & Fev & Fpr & Fc & _).
  assert (Hfull : completes st1 m = true).
  { apply Z.leb_le. rewrite Pnd, Pnb. lia. }
  assert (Hmm : mode_eqb m m = true) by (destruct m; reflexivity).
  specialize (Fnb m). specialize (Fb m).
  rewrite Hmm in Fnb, Fb. rewrite Hfull in Fnb, Fb, Fpr.
  assert (Hacc : add_batch (buffers st1 m) x = fold_left add_batch bs (buffers st m)).
  { rewrite Pb, Hbs, fold_left_app. reflexivity. }
  rewrite Hacc, Pnd in Fpr.
  split; [exact Fb|]. split; [exact Fnb|]. split.
  - rewrite Fpr, Ppr, Pev, Pso. f_equal. f_equal. f_equal.
    rewrite Hbs, map_app, List.concat_app, !length_app. cbn. rewrite app_nil_r. lia.
  - intros name Hname. rewrite Fc, Hfull, Hacc, Pnd, (Pc name Hname).
    replace (String.eqb "loss_step.csv" name) with false.
    + now rewrite app_nil_r.
    + symmetry. apply String.eqb_neq. congruence.
Qed.

(** X23.  A whole window.  Starting from an empty buffer of a mode, after
    exactly [nbdisplay] batches of that mode one summary line has been
    printed.  It counts the labels of all the batches as events; it shows the
    mean over the window of the kernel values and, in train mode, of the
    losses; and as avg1 it shows the sum of the outputs weighted by the labels
    divided by the sum of the labels, when that is positive.  In train mode
    the two means are also appended to kernel.csv and loss.csv.  The buffer
    and the counter of the mode are empty again. *)
Theorem run_window (m : mode) (st : Statistics) (bs : list batch) :
  nb_batch_in_buffer st m = 0%Z ->
  buffers st m = empty_buffer ->
  bs <> [] ->
  nbdisplay st = Z.of_nat (List.length bs) ->
  let st' := run m st bs in
  let n := IZR (nbdisplay st) in
  let ones := Rsum (map (fun x => Rsum (labels x)) bs) in
  let weighted := Rsum (map (fun x => Rsum (zip_with Rmult (output x) (labels x))) bs) in
  buffers st' m = empty_buffer
  /\ nb_batch_in_buffer st' m = 0%Z
  /\ (exists l,
        printed st' = printed st ++ [l]
        /\ events l
           = (nb_events_seen st m + Z.of_nat (List.length (List.concat (map labels bs))))%Z
        /\ In ("kernel"%string, Rsum (map kernel_std bs) / n) (shown l)
        /\ (m = train -> In ("loss"%string, Rsum (map loss_step bs) / n) (shown l))
        /\ (0 < ones -> In ("avg1"%string, weighted / ones) (shown l)))
  /\ (m = train ->
      content (files st') "loss.csv"
      = content (files st) "loss.csv" ++ [Rsum (map loss_step bs) / n]
      /\ content (files st') "kernel.csv"
         = content (files st) "kernel.csv" ++ [Rsum (map kernel_std bs) / n]).
Proof.
  intros Hcnt Hbuf Hne Hn st' n ones weighted. unfold n, ones, weighted.
  pose proof (run_completes m st bs Hne) as C. cbv zeta in C.
  destruct (C ltac:(lia)) as (Cb & Cnb & Cpr & Cc). clear C.
  fold st' in Cb, Cnb, Cpr, Cc. clearbody st'.
  rewrite Hbuf in Cpr, Cc.
  destruct (fold_add_batch bs empty_buffer) as (Sl & Sk & Sa & Sn).
  cbn [b_loss b_kernel b_avg1 nb_ones empty_buffer] in Sl, Sk, Sa, Sn.
  rewrite Rplus_0_l in Sl, Sk, Sa, Sn.
  destruct (normalize_buffer_loss (nbdisplay st) (fold_left add_batch bs empty_buffer))
    as (Nl & Nk & Na & _).
  rewrite Sl in Nl. rewrite Sk in Nk. rewrite Sn, Sa in Na.
  split; [exact Cb|]. split; [exact Cnb|]. split.
  - eexists. split; [exact Cpr|].
    cbn [events shown]. split; [reflexivity|]. split; [|split].
    + apply in_map_iff. exists kernel. split; [|apply kernel_in_line_stats].
      cbn [stat_name get_stat]. rewrite Nk. reflexivity.
    + intros ->. apply in_map_iff. exists loss. split; [|now left].
      cbn [stat_name get_stat]. rewrite Nl. reflexivity.
    + intros Hones. apply in_map_iff. exists avg1. split; [|apply avg1_in_line_stats].
      cbn [stat_name get_stat]. rewrite (Na Hones). reflexivity.
  - intros ->. split.
    + rewrite (Cc "loss.csv"%string) by discriminate.
      change (filter (fun s => String.eqb (stat_file s) "loss.csv") stats) with [loss].
      cbn [map get_stat]. rewrite Nl. reflexivity.
    + rewrite (Cc "kernel.csv"%string) by discriminate.
      change (filter (fun s => String.eqb (stat_file s) "kernel.csv") stats) with [kernel].
      cbn [map get_stat]. rewrite Nk. reflexivity.
Qed.

Lemma run_window_witness :
  let m := train in
  let st := Statistics_init 2 1 None [] in
  let bs := [ {| output := [1]; labels := [1]; loss_step := 2; kernel_std := 3 |};
              {| output := [0]; labels := [0]; loss_step := 4; kernel_std := 5 |} ] in
  let st' := run m st bs in
  let n := IZR (nbdisplay st) in
  let ones := Rsum (map (fun x => Rsum (labels x)) bs) in
  let weighted := Rsum (map (fun x => Rsum (zip_with Rmult (output x) (labels x))) bs) in
  buffers st' m = empty_buffer
  /\ nb_batch_in_buffer st' m = 0%Z
  /\ (exists l,
        printed st' = printed st ++ [l]
        /\ events l
           = (nb_events_seen st m + Z.of_nat (List.length (List.concat (map labels bs))))%Z
        /\ In ("kernel"%string, Rsum (map kernel_std bs) / n) (shown l)
        /\ (m = train -> In ("loss"%string, Rsum (map loss_step bs) / n) (shown l))
        /\ (0 < ones -> In ("avg1"%string, weighted / ones) (shown l)))
  /\ (m = train ->
      content (files st') "loss.csv"
      = content (files st) "loss.csv" ++ [Rsum (map loss_step bs) / n]
      /\ content (files st') "kernel.csv"
         = content (files st) "kernel.csv" ++ [Rsum (map kernel_std bs) / n]).
Proof.
  apply (run_window train (Statistics_init 2 1 None [])
           [ {| output := [1]; labels := [1]; loss_step := 2; kernel_std := 3 |};
             {| output := [0]; labels := [0]; loss_step := 4; kernel_std := 5 |} ]).
  - reflexivity.
  - reflexivity.
  - discriminate.
  - reflexivity.
Defined.

(** *** [flush] *)

(** X24.  What [flush] leaves behind.  [flush] zeroes the statistics of the
    test buffer and the count of test events, but neither the label counts of
    the buffer nor the batch counter.  So the test window that was open at the
    flush completes after the batches that were still missing: its line counts
    only the events since the flush, it shows the sum of their kernel values
    divided by the full [nbdisplay], and the avg1 it shows divides by the
    labels counted before the flush as well. *)
Theorem flush_then_window (st : Statistics) (bs : list batch) :
  bs <> [] ->
  (nb_batch_in_buffer st test + Z.of_nat (List.length bs))%Z = nbdisplay st ->
  let st' := run test (flush st) bs in
  let ones := Rsum (map (fun x => Rsum (labels x)) bs) in
  let weighted := Rsum (map (fun x => Rsum (zip_with Rmult (output x) (labels x))) bs) in
  exists l,
    printed st' = printed st ++ [l]
    /\ events l = Z.of_nat (List.length (List.concat (map labels bs)))
    /\ In ("kernel"%string, Rsum (map kernel_std bs) / IZR (nbdisplay st)) (shown l)
    /\ (0 < nb_ones (buffers st test) + ones ->
        In ("avg1"%string, weighted / (nb_ones (buffers st test) + ones)) (shown l)).
Proof.
  intros Hne Hn st' ones weighted. unfold ones, weighted.
  pose proof (run_completes test (flush st) bs Hne) as C. cbv zeta in C.
  destruct (C Hn) as (_ & _ & Cpr & _). clear C.
  fold st' in Cpr. clearbody st'.
  destruct (fold_add_batch bs (buffers (flush st) test)) as (_ & Sk & Sa & Sn).
  change (b_kernel (buffers (flush st) test)) with 0 in Sk.
  change (b_avg1 (buffers (flush st) test)) with 0 in Sa.
  change (nb_ones (buffers (flush st) test)) with (nb_ones (buffers st test)) in Sn.
  rewrite Rplus_0_l in Sk, Sa.
  destruct (normalize_buffer_loss (nbdisplay (flush st))
              (fold_left add_batch bs (buffers (flush st) test))) as (_ & Nk & Na & _).
  rewrite Sk in Nk. rewrite Sn, Sa in Na.
  eexists. split; [exact Cpr|].
  cbn [events shown]. split; [reflexivity|]. split.
  - apply in_map_iff. exists kernel. split; [|apply (kernel_in_line_stats test)].
    cbn [stat_name get_stat]. rewrite Nk. reflexivity.
  - intros Hones. apply in_map_iff. exists avg1. split; [|apply (avg1_in_line_stats test)].
    cbn [stat_name get_stat]. rewrite (Na Hones). reflexivity.
Qed.

Lemma flush_then_window_witness :
  let st := update (Statistics_init 2 1 None []) test [1] [1] 2 3 in
  let bs := [ {| output := [1]; labels := [0]; loss_step := 4; kernel_std := 5 |} ] in
  let st' := run test (flush st) bs in
  let ones := Rsum (map (fun x => Rsum (labels x)) bs) in
  let weighted := Rsum (map (fun x => Rsum (zip_with Rmult (output x) (labels x))) bs) in
  exists l,
    printed st' = printed st ++ [l]
    /\ events l = Z.of_nat (List.length (List.concat (map labels bs)))
    /\ In ("kernel"%string, Rsum (map kernel_std bs) / IZR (nbdisplay st)) (shown l)
    /\ (0 < nb_ones (buffers st test) + ones ->
        In ("avg1"%string, weighted / (nb_ones (buffers st test) + ones)) (shown l)).
Proof.
  apply (flush_then_window (update (Statistics_init 2 1 None []) test [1] [1] 2 3)
           [ {| output := [1]; labels := [0]; loss_step := 4; kernel_std := 5 |} ]).
  - discriminate.
  - reflexivity.
Defined.

End StatsMoreFacts.

